(** * pump-fun token launcher: curve arithmetic, instruction building and the
      rate-limited launch queue

    A shallow embedding of sell.ts and launch.ts (both in the listing
    [src/sell.ts]), of [src/orchestrator.ts], of
    [src/services/queueManager.ts] with the ticker functions of
    aiService.ts (in the same listing), of
    [src/services/metadataGenerator.ts] and of the filters of
    [src/services/launchListener.ts].  The helpers of utils.ts, which
    sell.ts and launch.ts import, are not among the sources: the encoders
    and the curve quote are modelled from the spec, the others are taken as
    parameters.  Part II holds the claims of the specification, Part III
    further properties read off the code.

    Conventions.
    - JavaScript numbers that hold amounts of SOL are rationals ([Q]); the
      rounding of IEEE doubles is not modelled.  Lamport amounts, counters and
      instants (milliseconds since the epoch) are integers ([Z]).
    - Strings are byte strings; [String.length] is the JavaScript [length] for
      ASCII text, and case mapping, white space and character classes are
      those of ASCII.
    - Asynchronous code is cut at its [await]s: the code between two [await]s
      runs as one step. *)

From Stdlib Require Import ZArith QArith Qround List String Ascii Bool Lia.
From Stdlib Require Import DecimalString.
Import ListNotations.

Local Open Scope string_scope.
Local Open Scope list_scope.
Local Open Scope Z_scope.

(* ================================================================== *)
(** * Part I: the program *)
(* ================================================================== *)

(** ** CurveMath *)

Module Curve.

(** The [reserves] object literal of launch.ts. *)
Record Reserves := mkReserves {
  virtualTokenReserves : Z;
  virtualSolReserves : Z
}.

(** Modelled from the spec: [effectiveIn] is the fee-adjusted input of
    utils.calculateTokenAmountForBuy, whose file (src/utils.ts) is not
    among the sources.  Spec, section 4.2: "effective input
    = solIn * (10000 - feeBps) / 10000". *)
Definition effectiveIn (solIn feeBps : Z) : Q :=
  (inject_Z solIn * inject_Z (10000 - feeBps) / inject_Z 10000)%Q.

(** Modelled from the spec: utils.calculateTokenAmountForBuy (src/utils.ts is
    not among the sources; launch.ts only calls it).  Spec, section 4.2:
    "tokensOut = floor(virtualTokenReserves * effectiveIn /
    (virtualSolReserves + effectiveIn))", "total over non-negative integer
    inputs with virtualSolReserves > 0", "fails with InvalidReserves only if
    reserves are non-positive".  [None] is InvalidReserves. *)
Definition calculateTokenAmountForBuy
    (solIn : Z) (reserves : Reserves) (feeBps : Z) : option Z :=
  if virtualSolReserves reserves <=? 0 then None
  else
    let e := effectiveIn solIn feeBps in
    Some (Qfloor (inject_Z (virtualTokenReserves reserves) * e
                  / (inject_Z (virtualSolReserves reserves) + e))%Q).

(** The [reserves] launch.ts quotes against (src/sell.ts, lines 451-454). *)
Definition launch_reserves : Reserves :=
  mkReserves 1073000000000000 30000000000.

End Curve.

(** ** Byte buffers and the fixed-width encoders *)

Module Encoding.

Definition byte_of_Z (z : Z) : Byte.byte :=
  match Byte.of_N (Z.to_N (z mod 256)) with
  | Some b => b
  | None => Byte.x00
  end.

Definition Z_of_byte (b : Byte.byte) : Z := Z.of_N (Byte.to_N b).

(** [width] bytes of [v], least significant first. *)
Fixpoint le_bytes (width : nat) (v : Z) : list Byte.byte :=
  match width with
  | O => []
  | S w => byte_of_Z (v mod 256) :: le_bytes w (v / 256)
  end.

(** The unsigned integer a little-endian byte string stands for. *)
Fixpoint le_value (bs : list Byte.byte) : Z :=
  match bs with
  | [] => 0
  | b :: rest => Z_of_byte b + 256 * le_value rest
  end.

(** Modelled from the spec: utils.bufferFromUInt64 (src/utils.ts is not
    among the sources).  Spec, section 4.3: integer fields are "8-byte
    unsigned integer", "fixed-width little-endian", and encoding fails "if
    an integer field does not fit in its declared width".  [None] is that
    failure (the exception the caller's [try] receives). *)
Definition bufferFromUInt64 (v : Z) : option (list Byte.byte) :=
  if (0 <=? v) && (v <? 2 ^ 64) then Some (le_bytes 8 v) else None.

(** Modelled from the spec: utils.bufferFromString (src/utils.ts is not among
    the sources).  Spec, section 4.3: strings are "length-prefixed (4-byte
    little-endian length + raw UTF-8 bytes)", failing "if a string's byte
    length cannot be represented in its length prefix". *)
Definition bufferFromString (s : string) : option (list Byte.byte) :=
  let raw := list_byte_of_string s in
  let n := Z.of_nat (List.length raw) in
  if n <? 2 ^ 32 then Some (le_bytes 4 n ++ raw) else None.

(** The reader on the other side of the wire: the unsigned 64-bit integer
    at byte [offset] of a buffer. *)
Definition readUInt64LE (buf : list Byte.byte) (offset : nat) : option Z :=
  let field := firstn 8 (skipn offset buf) in
  if Nat.eqb (List.length field) 8 then Some (le_value field) else None.

(** [Buffer.from("181ec828051c0777", "hex")]. *)
Definition create_discriminator : list Byte.byte :=
  map byte_of_Z [0x18; 0x1e; 0xc8; 0x28; 0x05; 0x1c; 0x07; 0x77].

Definition buy_discriminator : Z := 16927863322537952870.
Definition sell_discriminator : Z := 12502976635542562355.

End Encoding.

(** ** Addresses, instructions and the network *)

Module Solana.

(** A public key, as its base-58 text ([PublicKey#toString]). *)
Definition PublicKey := string.

Record Keypair := mkKeypair { publicKey : PublicKey }.

(** One seed of a program-derived address: [Buffer.from(text)] or
    [key.toBuffer()]. *)
Inductive Seed :=
| SeedText (s : string)
| SeedKey (k : PublicKey).

(** The functions of @solana/web3.js, @solana/spl-token and src/utils.ts
    that the sources call and that are hash- or curve-based. *)
Class Lib := {
  (** first component of [PublicKey.findProgramAddress(seeds, program)] *)
  findProgramAddress : list Seed -> PublicKey -> PublicKey;
  (** [getAssociatedTokenAddress(mint, owner)] *)
  getAssociatedTokenAddress : PublicKey -> PublicKey -> PublicKey;
  (** [key.toBuffer()] *)
  toBuffer : PublicKey -> list Byte.byte;
  (** [new PublicKey(text)]; [None] when the constructor throws *)
  newPublicKey : string -> option PublicKey;
  (** utils.getKeyPairFromPrivateKey; [None] when it throws *)
  getKeyPairFromPrivateKey : string -> option Keypair;
  (** [Keypair.fromSecretKey(Buffer.from(text, 'base64'))] *)
  fromSecretKeyBase64 : string -> option Keypair;
  (** the key pair [Keypair.generate()] returns in this run *)
  generate : Keypair
}.

(** [privateKey: string | Keypair]. *)
Inductive KeyInput :=
| KeyText (s : string)
| KeyObject (k : Keypair).

Record AccountMeta := mkMeta {
  pubkey : PublicKey;
  isSigner : bool;
  isWritable : bool
}.

Record TransactionInstruction := mkIx {
  keys : list AccountMeta;
  programId : PublicKey;
  data : list Byte.byte
}.

(** What is added to a [web3.Transaction]. *)
Inductive Instruction :=
| SetComputeUnitLimit (units : Z)
| SetComputeUnitPrice (microLamports : Z)
| CreateAssociatedTokenAccount (payer account owner mint : PublicKey)
| Program (ix : TransactionInstruction).

(** constants.ts, with the constants it takes from the libraries. *)
Definition GLOBAL : PublicKey := "4wTV1YmiEkRvAtNtsSGPtUrqRYQMe5SKy2uB4Jjaxnjf".
Definition SYSTEM_PROGRAM : PublicKey := "11111111111111111111111111111111".
Definition RENT : PublicKey := "SysvarRent111111111111111111111111111111111".
Definition PUMP_FUN_PROGRAM : PublicKey := "6EF8rrecthR5Dkzon8Nwu78hRvfCKubJ14M5uBEwF6P".
Definition PUMP_FUN_ACCOUNT : PublicKey := "Ce6TQqeHC9p8KetsN6JsjHK7UTZk7nasjjnr7XxXp9F1".
Definition MPL_TOKEN_METADATA : PublicKey := "metaqbxxUerdq28cj1RbAWkYQm3ybzjb6a8bt518x1s".
Definition MINT_AUTHORITY : PublicKey := "TSLvdd1pWpHVjahSpsvCXUbgwsL3JAcvokwaKt1eokM".
Definition FEE_CONFIG : PublicKey := "8Wf5TiAheLUqBrKXeYg2JtAFFMWtKdG2BSFgqUcPVwTt".
Definition FEE_PROGRAM : PublicKey := "pfeeUxB6jkeY1Hxd7CsFCAjcbHA9rWtchMGdZ6VojVZ".
Definition TOKEN_PROGRAM_ID : PublicKey := "TokenkegQfeZyiNwAJbNbGKPFXCWuBvf9Ss623VQ5DA".
Definition ASSOCIATED_TOKEN_PROGRAM_ID : PublicKey :=
  "ATokenGPvbdGVxr1b2hvZbsiqW5xWH25efTNsLJA8knL".
Definition LAMPORTS_PER_SOL : Q := inject_Z 1000000000.

(** [txInfo] of [getParsedTransaction]: the account keys of the message and,
    when [meta] is present, the balances before and after. *)
Record ParsedTransaction := mkParsed {
  accountKeys : list PublicKey;
  meta : option (list Z * list Z)
}.

(** A call either returns or throws. *)
Inductive Reply (A : Type) :=
| Ok (a : A)
| Err (msg : string).
Arguments Ok {A} a.
Arguments Err {A} msg.

(** The network, as the answers it gives.  The first argument is the number
    of events logged before the call, so that a poll may be answered
    differently each time.  [createTransaction] and
    [sendAndConfirmTransactionWrapper] are the helpers of utils.ts that
    receive the connection.  sell.ts reads the token balance through a
    second connection, to mainnet-beta: [getTokenAccountBalance] is what
    that one answers. *)
Record Rpc := mkRpc {
  getAccountInfo : nat -> PublicKey -> Reply bool;
  getTokenAccountBalance : nat -> PublicKey -> Reply Z;
  createTransaction : nat -> list Instruction -> Reply unit;
  sendAndConfirmTransactionWrapper :
    nat -> list Instruction -> Reply (option string);
  getParsedTransaction : nat -> string -> Reply (option ParsedTransaction)
}.

Inductive Event :=
| EvGetAccountInfo (k : PublicKey)
| EvGetTokenAccountBalance (k : PublicKey)
| EvCreateTransaction (ixs : list Instruction) (feePayer : PublicKey)
| EvSendAndConfirm (ixs : list Instruction) (signers : list PublicKey)
| EvGetParsedTransaction (sig : string)
| EvSleep (ms : Z).

Definition is_network_call (e : Event) : bool :=
  match e with
  | EvSleep _ => false
  | _ => true
  end.

(** Code that logs its calls and may throw: the log is threaded, an
    exception skips the rest. *)
Definition M (A : Type) : Type := list Event -> Reply A * list Event.

Definition ret {A} (a : A) : M A := fun log => (Ok a, log).
Definition throw {A} (msg : string) : M A := fun log => (Err msg, log).
Definition bind {A B} (c : M A) (k : A -> M B) : M B :=
  fun log =>
    match c log with
    | (Ok a, log') => k a log'
    | (Err msg, log') => (Err msg, log')
    end.
(** [try { c } catch (e) { h e }]. *)
Definition try_catch {A} (c : M A) (h : string -> M A) : M A :=
  fun log =>
    match c log with
    | (Ok a, log') => (Ok a, log')
    | (Err msg, log') => h msg log'
    end.
(** A call to the outside: logged, then answered. *)
Definition call {A} (e : Event) (answer : nat -> Reply A) : M A :=
  fun log => (answer (List.length log), log ++ [e]).
(** A library call that throws on [None]. *)
Definition orThrow {A} (o : option A) (msg : string) : M A :=
  match o with
  | Some a => ret a
  | None => throw msg
  end.
Definition sleep (ms : Z) : M unit :=
  fun log => (Ok tt, log ++ [EvSleep ms]).

Declare Scope m_scope.
Delimit Scope m_scope with m.
Notation "x <- c ;; k" := (bind c (fun x => k))
  (at level 61, c at next level, right associativity) : m_scope.
Notation "c ;;; k" := (bind c (fun _ => k))
  (at level 61, right associativity) : m_scope.

End Solana.

(** ** Shared helpers of launch.ts and sell.ts *)

Module Js.

(** [!text]: the empty string stands for a missing (undefined) field too. *)
Definition is_empty (s : string) : bool :=
  match s with
  | EmptyString => true
  | String _ _ => false
  end.

(** [a < b] on numbers. *)
Definition Qltb (a b : Q) : bool := negb (Qle_bool b a).

(** A number is truthy unless it is zero. *)
Definition truthy (q : Q) : bool := negb (Qeq_bool q 0).

(** [field && test(field)] on an optional number. *)
Definition present_and (o : option Q) (test : Q -> bool) : bool :=
  match o with
  | Some q => truthy q && test q
  | None => false
  end.

Definition is_space (c : ascii) : bool :=
  let n := nat_of_ascii c in
  (Nat.leb 9 n && Nat.leb n 13) || Nat.eqb n 32.

Fixpoint trim_start (s : string) : string :=
  match s with
  | String c rest => if is_space c then trim_start rest else s
  | EmptyString => EmptyString
  end.

Fixpoint rev_string (acc s : string) : string :=
  match s with
  | String c rest => rev_string (String c acc) rest
  | EmptyString => acc
  end.

(** [text.trim()], for ASCII white space. *)
Definition trim (s : string) : string :=
  rev_string "" (trim_start (rev_string "" (trim_start s))).

(** [error.message || 'Unknown error occurred']. *)
Definition message_or_unknown (msg : string) : string :=
  if is_empty msg then "Unknown error occurred" else msg.

End Js.

(** ** The program-derived addresses both files compute *)

Module Accounts.
Import Solana.

Section WithLib.
Context {L : Lib}.

Definition bondingCurveOf (mint : PublicKey) : PublicKey :=
  findProgramAddress [SeedText "bonding-curve"; SeedKey mint] PUMP_FUN_PROGRAM.

Definition associatedBondingCurveOf (mint : PublicKey) : PublicKey :=
  findProgramAddress
    [SeedKey (bondingCurveOf mint); SeedKey TOKEN_PROGRAM_ID; SeedKey mint]
    ASSOCIATED_TOKEN_PROGRAM_ID.

Definition metadataOf (mint : PublicKey) : PublicKey :=
  findProgramAddress
    [SeedText "metadata"; SeedKey MPL_TOKEN_METADATA; SeedKey mint]
    MPL_TOKEN_METADATA.

Definition creatorVaultOf (creator : PublicKey) : PublicKey :=
  findProgramAddress [SeedText "creator-vault"; SeedKey creator] PUMP_FUN_PROGRAM.

Definition globalVolumeAccumulator : PublicKey :=
  findProgramAddress [SeedText "global_volume_accumulator"] PUMP_FUN_PROGRAM.

Definition userVolumeAccumulatorOf (owner : PublicKey) : PublicKey :=
  findProgramAddress
    [SeedText "user_volume_accumulator"; SeedKey owner] PUMP_FUN_PROGRAM.

Definition eventAuthority : PublicKey :=
  findProgramAddress [SeedText "__event_authority"] PUMP_FUN_PROGRAM.

(** sell.ts derives the fee configuration account; launch.ts takes the
    constant [FEE_CONFIG]. *)
Definition feeConfigPDA : PublicKey :=
  findProgramAddress
    [SeedText "fee_config"; SeedKey PUMP_FUN_PROGRAM] FEE_PROGRAM.

End WithLib.
End Accounts.

(** ** launch.ts *)

Module Launch.
Import Solana Encoding Js Accounts.
Local Open Scope m_scope.

(** [TokenLaunchConfig].  An optional number is [None] when its key is
    absent. *)
Record TokenLaunchConfig := mkConfig {
  name : string;
  symbol : string;
  mintKeypair : option Keypair;
  metadataUrl : string;
  initialBuy : option Q;
  slippage : option Q;
  priorityFee : option Q
}.

Record LaunchResult := mkResult {
  success : bool;
  signature : option string;
  tokenAddress : option string;
  error : option string
}.

(** [validateTokenConfig]: [Ok true], or the message of the error thrown. *)
Definition validateTokenConfig (config : TokenLaunchConfig) : Reply bool :=
  if is_empty (name config) || (String.length (trim (name config)) =? 0)%nat
  then Err "Token name is required"
  else if is_empty (symbol config)
          || (String.length (trim (symbol config)) =? 0)%nat
  then Err "Token symbol is required"
  else if (10 <? String.length (symbol config))%nat
  then Err "Token symbol must be 10 characters or less"
  else if present_and (initialBuy config) (fun b => Qltb b 0)
  then Err "Initial buy amount must be positive"
  else if present_and (slippage config)
            (fun s => Qltb s 0 || Qltb (inject_Z 100) s)
  then Err "Slippage must be between 0 and 100"
  else Ok true.

Section WithNetwork.
Context {L : Lib} (rpc : Rpc).

(** The key pair of the payer: base-64 first, then the helper of utils. *)
Definition keyPairOf (privateKey : KeyInput) : M Keypair :=
  match privateKey with
  | KeyText text =>
      match fromSecretKeyBase64 text with
      | Some k => ret k
      | None => orThrow (getKeyPairFromPrivateKey text) "Invalid private key"
      end
  | KeyObject k => ret k
  end.

(** [keys] of the create instruction. *)
Definition createKeys (mint owner : PublicKey) : list AccountMeta :=
  [ mkMeta mint true true;
    mkMeta MINT_AUTHORITY false false;
    mkMeta (bondingCurveOf mint) false true;
    mkMeta (associatedBondingCurveOf mint) false true;
    mkMeta GLOBAL false false;
    mkMeta MPL_TOKEN_METADATA false false;
    mkMeta (metadataOf mint) false true;
    mkMeta owner true true;
    mkMeta SYSTEM_PROGRAM false false;
    mkMeta TOKEN_PROGRAM_ID false false;
    mkMeta ASSOCIATED_TOKEN_PROGRAM_ID false false;
    mkMeta RENT false false;
    mkMeta PUMP_FUN_ACCOUNT false false;
    mkMeta PUMP_FUN_PROGRAM false false ].

Definition buyFeeRecipient : PublicKey :=
  "CebN5WGQ4jvEPvsVU4EoHEpgzq1VV7AbicfhtW4xC9iM".

(** [buyKeys]. *)
Definition buyKeys (mint owner tokenAccount : PublicKey) : list AccountMeta :=
  [ mkMeta GLOBAL false false;
    mkMeta buyFeeRecipient false true;
    mkMeta mint false false;
    mkMeta (bondingCurveOf mint) false true;
    mkMeta (associatedBondingCurveOf mint) false true;
    mkMeta tokenAccount false true;
    mkMeta owner true true;
    mkMeta SYSTEM_PROGRAM false false;
    mkMeta TOKEN_PROGRAM_ID false false;
    mkMeta (creatorVaultOf owner) false true;
    mkMeta eventAuthority false false;
    mkMeta PUMP_FUN_PROGRAM false false;
    mkMeta globalVolumeAccumulator false true;
    mkMeta (userVolumeAccumulatorOf owner) false true;
    mkMeta FEE_CONFIG false false;
    mkMeta FEE_PROGRAM false false ].

(** The two compute-budget instructions, when a priority fee is asked. *)
Definition priorityInstructions (priorityFee : Q) : list Instruction :=
  if Qltb 0 priorityFee
  then [ SetComputeUnitLimit 300000;
         SetComputeUnitPrice
           (Qfloor (priorityFee / inject_Z 3 * inject_Z 1000000000)) ]
  else [].

(** The quote of the initial buy: [tokenOut] and [maxSolCost]. *)
Definition buyAmounts (initialBuy slippage : Q) : option Z * Z :=
  let solInLamports := (initialBuy * LAMPORTS_PER_SOL)%Q in
  let tokenOut :=
    Curve.calculateTokenAmountForBuy
      (Qfloor solInLamports) Curve.launch_reserves 0 in
  let solInWithSlippage :=
    (initialBuy * (inject_Z 1 + slippage / inject_Z 100))%Q in
  (tokenOut, Qfloor (solInWithSlippage * LAMPORTS_PER_SOL)).

(** The body of the [try] of [launchToken]. *)
Definition launchToken_try (config : TokenLaunchConfig)
    (privateKey : KeyInput) : M LaunchResult :=
  (if is_empty (name config) || is_empty (symbol config)
      || is_empty (metadataUrl config)
   then throw "Token name and symbol are required" else ret tt) ;;;
  keyPair <- keyPairOf privateKey ;;
  let initialBuy :=
    match initialBuy config with Some b => b | None => 0%Q end in
  let slippage :=
    match slippage config with Some s => s | None => inject_Z 5 end in
  let priorityFee :=
    match priorityFee config with Some f => f | None => (1 # 1000)%Q end in
  let payer := keyPair in
  let owner := publicKey payer in
  let mint :=
    match mintKeypair config with Some k => k | None => generate end in
  let mintKey := publicKey mint in
  nameBuffer <- orThrow (bufferFromString (name config)) "FieldTooLarge" ;;
  symbolBuffer <- orThrow (bufferFromString (symbol config)) "FieldTooLarge" ;;
  uriBuffer <- orThrow (bufferFromString (metadataUrl config)) "FieldTooLarge" ;;
  let data :=
    create_discriminator ++ nameBuffer ++ symbolBuffer ++ uriBuffer
    ++ toBuffer (publicKey payer) in
  let instruction :=
    Program (mkIx (createKeys mintKey owner) PUMP_FUN_PROGRAM data) in
  buy <-
    (if Qltb 0 initialBuy then
       let tokenAccount := getAssociatedTokenAddress mintKey owner in
       tokenAccountInfo <-
         call (EvGetAccountInfo tokenAccount)
              (fun n => getAccountInfo rpc n tokenAccount) ;;
       let ensure :=
         if (tokenAccountInfo : bool) then []
         else [CreateAssociatedTokenAccount owner tokenAccount owner mintKey] in
       let '(quote, maxSolCost) := buyAmounts initialBuy slippage in
       tokenOut <- orThrow quote "InvalidReserves" ;;
       code <- orThrow (bufferFromUInt64 buy_discriminator) "FieldTooLarge" ;;
       amount <- orThrow (bufferFromUInt64 tokenOut) "FieldTooLarge" ;;
       cost <- orThrow (bufferFromUInt64 maxSolCost) "FieldTooLarge" ;;
       ret (ensure
            ++ [Program (mkIx (buyKeys mintKey owner tokenAccount)
                              PUMP_FUN_PROGRAM (code ++ amount ++ cost))])
     else ret []) ;;
  let instructions := priorityInstructions priorityFee ++ [instruction] ++ buy in
  call (EvCreateTransaction instructions (publicKey payer))
       (fun n => createTransaction rpc n instructions) ;;;
  signature <-
    call (EvSendAndConfirm instructions [publicKey payer; mintKey])
         (fun n => sendAndConfirmTransactionWrapper rpc n instructions) ;;
  match signature with
  | None => ret (mkResult false None None (Some "Transaction failed to confirm"))
  | Some sig => ret (mkResult true (Some sig) (Some mintKey) None)
  end.

(** [launchToken]: the result and the calls made, in order. *)
Definition launchToken (config : TokenLaunchConfig)
    (privateKey : KeyInput) : LaunchResult * list Event :=
  match
    try_catch (launchToken_try config privateKey)
      (fun msg => ret (mkResult false None None (Some (message_or_unknown msg))))
      []
  with
  | (Ok result, log) => (result, log)
  | (Err msg, log) => (mkResult false None None (Some msg), log)
  end.

End WithNetwork.
End Launch.

(** ** sell.ts *)

Module Sell.
Import Solana Encoding Js Accounts.
Local Open Scope m_scope.

Record SellConfig := mkConfig {
  tokenMint : string;
  tokenAmount : Q;
  minSolOut : Q;
  slippage : Q;
  priorityFee : Q
}.

Record SellResult := mkResult {
  success : bool;
  signature : option string;
  solReceived : option Q;
  error : option string
}.

(** [{ ...config, tokenAmount: 1 }]. *)
Definition withTokenAmount (config : SellConfig) (amount : Q) : SellConfig :=
  mkConfig (tokenMint config) amount (minSolOut config) (slippage config)
           (priorityFee config).

Definition withMinSolOut (config : SellConfig) (minimum : Q) : SellConfig :=
  mkConfig (tokenMint config) (tokenAmount config) minimum (slippage config)
           (priorityFee config).

(** [validateSellConfig]: [Ok true], or the message of the error thrown. *)
Definition validateSellConfig (config : SellConfig) : Reply bool :=
  if is_empty (tokenMint config)
  then Err "Token mint address is required"
  else if negb (truthy (tokenAmount config)) || Qle_bool (tokenAmount config) 0
  then Err "Token amount must be greater than 0"
  else if Qltb (minSolOut config) 0
  then Err "Minimum SOL output must be non-negative"
  else if Qltb (slippage config) 0 || Qltb (inject_Z 100) (slippage config)
  then Err "Slippage must be between 0 and 100"
  else if Qltb (priorityFee config) 0
  then Err "Priority fee must be non-negative"
  else Ok true.

Definition sellFeeRecipient : PublicKey :=
  "62qc2CNXwrYqQScmEdiZFFAnJR262PxWEuNQtxfafNgV".

(** [accountKeys.findIndex(key => key.pubkey.toString() === owner.toString())];
    [None] is -1. *)
Fixpoint findIndex (owner : PublicKey) (accountKeys : list PublicKey)
    : option nat :=
  match accountKeys with
  | [] => None
  | k :: rest =>
      if String.eqb k owner then Some O
      else option_map S (findIndex owner rest)
  end.

(** The value [actualSolReceived] holds after the block that reads the
    confirmed transaction (src/sell.ts, lines 213-229): it starts at 0 and
    is assigned only when the record, its [meta] and the owner's index are
    found.  A balance missing from an array makes [diff] NaN, and
    [NaN > 0] is false. *)
Definition actualSolReceived (owner : PublicKey)
    (txInfo : option ParsedTransaction) : Q :=
  match txInfo with
  | Some tx =>
      match meta tx with
      | Some (preBalances, postBalances) =>
          match findIndex owner (accountKeys tx) with
          | Some accountIndex =>
              match nth_error preBalances accountIndex,
                    nth_error postBalances accountIndex with
              | Some preBalance, Some postBalance =>
                  let diff := postBalance - preBalance in
                  if 0 <? diff
                  then (inject_Z diff / inject_Z 1000000000)%Q
                  else 0%Q
              | _, _ => 0%Q
              end
          | None => 0%Q
          end
      | None => 0%Q
      end
  | None => 0%Q
  end.

Section WithNetwork.
Context {L : Lib} (rpc : Rpc).

(** [sellKeys]. *)
Definition sellKeys (tokenMint owner userTokenAccount : PublicKey)
    : list AccountMeta :=
  [ mkMeta GLOBAL false false;
    mkMeta sellFeeRecipient false true;
    mkMeta tokenMint false false;
    mkMeta (bondingCurveOf tokenMint) false true;
    mkMeta (associatedBondingCurveOf tokenMint) false true;
    mkMeta userTokenAccount false true;
    mkMeta owner true true;
    mkMeta SYSTEM_PROGRAM false false;
    mkMeta (creatorVaultOf owner) false true;
    mkMeta TOKEN_PROGRAM_ID false false;
    mkMeta eventAuthority false false;
    mkMeta PUMP_FUN_PROGRAM false false;
    mkMeta feeConfigPDA false false;
    mkMeta FEE_PROGRAM false false ].

(** The loop that waits for the mint to be visible: at most
    [attemptsLeft] polls, two seconds apart. *)
Fixpoint pollMint (tokenMint : PublicKey) (attemptsLeft : nat) : M bool :=
  match attemptsLeft with
  | O => ret false
  | S remaining =>
      tokenMintAccountInfo <-
        call (EvGetAccountInfo tokenMint)
             (fun n => getAccountInfo rpc n tokenMint) ;;
      if (tokenMintAccountInfo : bool) then ret true
      else
        (match remaining with O => ret tt | S _ => sleep 2000 end) ;;;
        pollMint tokenMint remaining
  end.

(** [sellData] and the instruction list of the sell, from the live
    balance.  [None] when an encoder throws. *)
Definition sellInstructions (tokenMint owner userTokenAccount : PublicKey)
    (actualTokenAmount : Z) : option (list Instruction) :=
  let tokenAmountLamports := actualTokenAmount in
  let minSolOutLamports := 0 in
  match bufferFromUInt64 sell_discriminator,
        bufferFromUInt64 tokenAmountLamports,
        bufferFromUInt64 minSolOutLamports with
  | Some code, Some amount, Some minimum =>
      Some [ SetComputeUnitLimit 100000;
             SetComputeUnitPrice 1000;
             Program (mkIx (sellKeys tokenMint owner userTokenAccount)
                           PUMP_FUN_PROGRAM (code ++ amount ++ minimum)) ]
  | _, _, _ => None
  end.

(** [typeof privateKey === 'string' ? await getKeyPairFromPrivateKey(privateKey)
    : privateKey]; [None] when the helper throws. *)
Definition payerOf (privateKey : KeyInput) : option Keypair :=
  match privateKey with
  | KeyText text => getKeyPairFromPrivateKey text
  | KeyObject k => Some k
  end.

(** The body of the [try] of [sellToken]. *)
Definition sellToken_try (config : SellConfig) (privateKey : KeyInput)
    : M SellResult :=
  payer <- orThrow (payerOf privateKey) "Invalid private key" ;;
  let owner := publicKey payer in
  let configToValidate := withTokenAmount config (inject_Z 1) in
  match validateSellConfig configToValidate with
  | Err msg => throw msg
  | Ok _ =>
      tokenMint <-
        orThrow (newPublicKey (tokenMint config)) "Invalid public key input" ;;
      found <- pollMint tokenMint 5 ;;
      (if (found : bool) then ret tt
       else throw ("Token mint " ++ Sell.tokenMint config
                   ++ " does not exist after 5 attempts")%string) ;;;
      let userTokenAccount := getAssociatedTokenAddress tokenMint owner in
      actualTokenAmount <-
        call (EvGetTokenAccountBalance userTokenAccount)
             (fun n => getTokenAccountBalance rpc n userTokenAccount) ;;
      instructions <-
        orThrow (sellInstructions tokenMint owner userTokenAccount
                                  actualTokenAmount) "FieldTooLarge" ;;
      call (EvCreateTransaction instructions owner)
           (fun n => createTransaction rpc n instructions) ;;;
      signature <-
        call (EvSendAndConfirm instructions [publicKey payer])
             (fun n => sendAndConfirmTransactionWrapper rpc n instructions) ;;
      match signature with
      | Some sig =>
          received <-
            try_catch
              (sleep 2000 ;;;
               txInfo <-
                 call (EvGetParsedTransaction sig)
                      (fun n => getParsedTransaction rpc n sig) ;;
               ret (actualSolReceived owner txInfo))
              (fun _ => ret 0%Q) ;;
          ret (mkResult true (Some sig)
                 (Some (if truthy received then received
                        else (inject_Z 0 / inject_Z 1000000000)%Q))
                 None)
      | None =>
          ret (mkResult false None None (Some "Transaction failed to confirm"))
      end
  end.

(** [sellToken]: the result and the calls made, in order. *)
Definition sellToken (config : SellConfig) (privateKey : KeyInput)
    : SellResult * list Event :=
  match
    try_catch (sellToken_try config privateKey)
      (fun msg => ret (mkResult false None None (Some (message_or_unknown msg))))
      []
  with
  | (Ok result, log) => (result, log)
  | (Err msg, log) => (mkResult false None None (Some msg), log)
  end.

End WithNetwork.
End Sell.

(** ** orchestrator.ts: the launch and the sell of one request *)

Module Orchestrator.
Import Solana.

(** [launchConfig] of step 10. *)
Definition launchConfig (name ticker metadataUrl : string)
    : Launch.TokenLaunchConfig :=
  Launch.mkConfig name ticker None metadataUrl
    (Some (1 # 100)%Q) (Some (inject_Z 10)) (Some (1 # 10000)%Q).

(** [sellConfig] of step 12. *)
Definition sellConfig (tokenAddress : string) : Sell.SellConfig :=
  Sell.mkConfig tokenAddress 0%Q (4 # 100)%Q (inject_Z 5) (1 # 10000)%Q.

(** [solSpent] of step 13: the buy and the two priority fees. *)
Definition solSpent : Q := ((1 # 100) + (1 # 10000) + (1 # 10000))%Q.

End Orchestrator.

(** ** The account lists as the spec words them (section 6) *)

Module Schema.
Import Solana Accounts.

Inductive Role :=
| GlobalConfig | FeeRecipient | Mint | BondingCurve | AssociatedBondingCurve
| UserTokenAccount | Owner | SystemProgram | CreatorVault | TokenProgram
| EventAuthority | ProgramId | GlobalVolumeAccumulator | UserVolumeAccumulator
| FeeConfig | FeeProgram
| MintAuthority | MetadataProgram | Metadata | AssociatedTokenProgram | Rent
| ProgramAccount.

Inductive Kind := Create | Buy | Sell.

(** One position of an account list: who, and the two flags. *)
Record Slot := mkSlot { role : Role; signer : bool; writable : bool }.

Definition readonly (r : Role) : Slot := mkSlot r false false.
Definition writableOnly (r : Role) : Slot := mkSlot r false true.
Definition signerWritable (r : Role) : Slot := mkSlot r true true.

(** "create: mint[signer,writable], mint-authority, bonding-curve[writable],
    associated-bonding-curve[writable], global-config, metadata-program,
    metadata[writable], owner[signer,writable], system-program,
    token-program, associated-token-program, rent, program-account,
    program-id". *)
Definition spec_create : list Slot :=
  [ signerWritable Mint; readonly MintAuthority; writableOnly BondingCurve;
    writableOnly AssociatedBondingCurve; readonly GlobalConfig;
    readonly MetadataProgram; writableOnly Metadata; signerWritable Owner;
    readonly SystemProgram; readonly TokenProgram;
    readonly AssociatedTokenProgram; readonly Rent; readonly ProgramAccount;
    readonly ProgramId ].

(** "buy/sell: global-config, fee-recipient[writable], mint,
    bonding-curve[writable], associated-bonding-curve[writable],
    user-token-account[writable], owner[signer,writable], system-program,
    creator-vault[writable], token-program, event-authority, program-id,
    volume-accumulators[writable] (buy only), fee-config, fee-program". *)
Definition spec_buy_sell (volume : list Slot) : list Slot :=
  [ readonly GlobalConfig; writableOnly FeeRecipient; readonly Mint;
    writableOnly BondingCurve; writableOnly AssociatedBondingCurve;
    writableOnly UserTokenAccount; signerWritable Owner;
    readonly SystemProgram; writableOnly CreatorVault; readonly TokenProgram;
    readonly EventAuthority; readonly ProgramId ]
  ++ volume ++ [ readonly FeeConfig; readonly FeeProgram ].

Definition volume_accumulators : list Slot :=
  [ writableOnly GlobalVolumeAccumulator; writableOnly UserVolumeAccumulator ].

Definition spec_buy : list Slot := spec_buy_sell volume_accumulators.
Definition spec_sell : list Slot := spec_buy_sell [].

(** The order launch.ts gives the buy: the token program comes before the
    creator vault. *)
Definition launch_buy : list Slot :=
  [ readonly GlobalConfig; writableOnly FeeRecipient; readonly Mint;
    writableOnly BondingCurve; writableOnly AssociatedBondingCurve;
    writableOnly UserTokenAccount; signerWritable Owner;
    readonly SystemProgram; readonly TokenProgram; writableOnly CreatorVault;
    readonly EventAuthority; readonly ProgramId ]
  ++ volume_accumulators ++ [ readonly FeeConfig; readonly FeeProgram ].

Section WithLib.
Context {L : Lib}.

(** The address that plays a role in an instruction of kind [k]. *)
Definition address (k : Kind) (mint owner userTokenAccount : PublicKey)
    (r : Role) : PublicKey :=
  match r with
  | GlobalConfig => GLOBAL
  | FeeRecipient =>
      match k with
      | Sell => Sell.sellFeeRecipient
      | _ => Launch.buyFeeRecipient
      end
  | Mint => mint
  | BondingCurve => bondingCurveOf mint
  | AssociatedBondingCurve => associatedBondingCurveOf mint
  | UserTokenAccount => userTokenAccount
  | Owner => owner
  | SystemProgram => SYSTEM_PROGRAM
  | CreatorVault => creatorVaultOf owner
  | TokenProgram => TOKEN_PROGRAM_ID
  | EventAuthority => eventAuthority
  | ProgramId => PUMP_FUN_PROGRAM
  | GlobalVolumeAccumulator => globalVolumeAccumulator
  | UserVolumeAccumulator => userVolumeAccumulatorOf owner
  | FeeConfig =>
      match k with
      | Sell => feeConfigPDA
      | _ => FEE_CONFIG
      end
  | FeeProgram => FEE_PROGRAM
  | MintAuthority => MINT_AUTHORITY
  | MetadataProgram => MPL_TOKEN_METADATA
  | Metadata => metadataOf mint
  | AssociatedTokenProgram => ASSOCIATED_TOKEN_PROGRAM_ID
  | Rent => RENT
  | ProgramAccount => PUMP_FUN_ACCOUNT
  end.

Definition instantiate (k : Kind) (mint owner userTokenAccount : PublicKey)
    (schema : list Slot) : list AccountMeta :=
  map (fun s => mkMeta (address k mint owner userTokenAccount (role s))
                       (signer s) (writable s)) schema.

End WithLib.

(** The signer and writable flags of an account list, in order. *)
Definition flags (keys : list AccountMeta) : list (bool * bool) :=
  map (fun m => (isSigner m, isWritable m)) keys.
Definition slot_flags (schema : list Slot) : list (bool * bool) :=
  map (fun s => (signer s, writable s)) schema.

End Schema.

(** ** Reading an instruction list back *)

Module Wire.
Import Solana Encoding.

(** The program instructions of a transaction. *)
Fixpoint programInstructions (ixs : list Instruction)
    : list TransactionInstruction :=
  match ixs with
  | [] => []
  | Program ix :: rest => ix :: programInstructions rest
  | _ :: rest => programInstructions rest
  end.

(** The two 64-bit fields after the discriminator of a buy or a sell. *)
Definition amounts (ix : TransactionInstruction) : option (Z * Z) :=
  match readUInt64LE (data ix) 8, readUInt64LE (data ix) 16 with
  | Some a, Some b => Some (a, b)
  | _, _ => None
  end.

Definition discriminator (ix : TransactionInstruction) : option Z :=
  readUInt64LE (data ix) 0.

(** The instruction lists handed to [createTransaction] or to
    [sendAndConfirmTransactionWrapper]. *)
Fixpoint submitted (log : list Event) : list (list Instruction) :=
  match log with
  | [] => []
  | EvCreateTransaction ixs _ :: rest => ixs :: submitted rest
  | EvSendAndConfirm ixs _ :: rest => ixs :: submitted rest
  | _ :: rest => submitted rest
  end.

End Wire.

(** ** What a trace of launch.ts or sell.ts holds *)

Module Trace.
Import Solana.

(** The transactions handed to [sendAndConfirmTransactionWrapper], each
    with its signers. *)
Fixpoint sent (log : list Event)
    : list (list Instruction * list PublicKey) :=
  match log with
  | [] => []
  | EvSendAndConfirm ixs signers :: rest => (ixs, signers) :: sent rest
  | _ :: rest => sent rest
  end.

(** The accounts read with [getAccountInfo]. *)
Fixpoint polled (log : list Event) : list PublicKey :=
  match log with
  | [] => []
  | EvGetAccountInfo k :: rest => k :: polled rest
  | _ :: rest => polled rest
  end.

End Trace.

(** ** A small concrete environment, to run the code in *)

Module Demo.
Import Solana.

Definition seedText (s : Seed) : string :=
  match s with
  | SeedText t => t
  | SeedKey k => k
  end.

#[export] Instance lib : Lib := {|
  findProgramAddress seeds program :=
    ("pda:" ++ String.concat "/" (map seedText seeds) ++ "@" ++ program)%string;
  getAssociatedTokenAddress mint owner := ("ata:" ++ mint ++ "/" ++ owner)%string;
  toBuffer k := list_byte_of_string k;
  newPublicKey text := if Js.is_empty text then None else Some text;
  getKeyPairFromPrivateKey text :=
    if Js.is_empty text then None else Some (mkKeypair ("pub:" ++ text)%string);
  fromSecretKeyBase64 _ := None;
  generate := mkKeypair "MintGenerated"
|}.

Definition wallet : KeyInput := KeyObject (mkKeypair "Wallet").

(** A network on which everything is found and confirmed; the wallet holds
    [balance] tokens, and the confirmed sell moved its balance from [pre]
    to [post] lamports. *)
Definition rpc (balance pre post : Z) : Rpc :=
  mkRpc (fun _ _ => Ok true)
        (fun _ _ => Ok balance)
        (fun _ _ => Ok tt)
        (fun _ _ => Ok (Some "Signature"))
        (fun _ _ => Ok (Some (mkParsed ["Other"; "Wallet"]
                                       (Some ([7; pre], [7; post]))))).

End Demo.

(** ** services/queueManager.ts *)

Module Queue.
Import Js.

(** What the queue reads of the orchestrator's [LaunchResult]. *)
Record LaunchResult := mkResult {
  success : bool;
  solSpent : option Q
}.

(** How [await orchestrator.launchTokenFromTweet(tweetId)] ends. *)
Inductive Outcome :=
| Returned (result : LaunchResult)
| Threw.

(** The record [saveQueue] writes to queue.json. *)
Record QueueData := mkData {
  d_queue : list string;
  d_launchesThisHour : Z;
  d_hourResetTime : Z;
  d_budgetUsed : Q;
  d_budgetResetTime : Z;
  d_totalProcessed : Z;
  d_totalFailed : Z;
  d_lastSaved : Z
}.

(** The fields of [QueueManager]. *)
Record QueueManager := mkManager {
  queue : list string;
  processing : bool;
  paused : bool;
  launchesThisHour : Z;
  hourlyLimit : Z;
  hourResetTime : Z;
  budgetUsed : Q;
  budgetLimit : Q;
  budgetResetTime : Z;
  launchDelaySeconds : Z;
  totalProcessed : Z;
  totalFailed : Z
}.

(** The environment variables the constructor reads. *)
Record Settings := mkSettings {
  HOURLY_LAUNCH_LIMIT : Z;
  DAILY_BUDGET_SOL : Q;
  LAUNCH_DELAY_SECONDS : Z
}.

Definition default_settings : Settings :=
  mkSettings 10 (inject_Z 1) 120.

Inductive Wait := RateLimit | Budget | LaunchDelay.

(** Where [processQueue] is suspended: not running, in a [sleep] that ends
    at [wake], or awaiting the launch of [tweetId]. *)
Inductive Pc :=
| Idle
| Sleeping (why : Wait) (wake : Z)
| InFlight (tweetId : string).

(** The manager with what surrounds it: the suspended loop, the clock
    ([Date.now()]), queue.json, whether the disk takes a write, and the
    offset of local time from UTC (for [setHours]). *)
Record World := mkWorld {
  mgr : QueueManager;
  pc : Pc;
  clock : Z;
  file : option QueueData;
  diskOk : bool;
  utcOffset : Z
}.

Inductive Event :=
| EvSave (data : QueueData) (written : bool)
| EvLaunch (tweetId : string)
| EvSleep (why : Wait) (ms : Z).

(** *** Field updates *)

Definition set_queue (q : list string) (m : QueueManager) : QueueManager :=
  mkManager q (processing m) (paused m) (launchesThisHour m) (hourlyLimit m)
    (hourResetTime m) (budgetUsed m) (budgetLimit m) (budgetResetTime m)
    (launchDelaySeconds m) (totalProcessed m) (totalFailed m).
Definition set_processing (b : bool) (m : QueueManager) : QueueManager :=
  mkManager (queue m) b (paused m) (launchesThisHour m) (hourlyLimit m)
    (hourResetTime m) (budgetUsed m) (budgetLimit m) (budgetResetTime m)
    (launchDelaySeconds m) (totalProcessed m) (totalFailed m).
Definition set_paused (b : bool) (m : QueueManager) : QueueManager :=
  mkManager (queue m) (processing m) b (launchesThisHour m) (hourlyLimit m)
    (hourResetTime m) (budgetUsed m) (budgetLimit m) (budgetResetTime m)
    (launchDelaySeconds m) (totalProcessed m) (totalFailed m).
Definition set_launchesThisHour (n : Z) (m : QueueManager) : QueueManager :=
  mkManager (queue m) (processing m) (paused m) n (hourlyLimit m)
    (hourResetTime m) (budgetUsed m) (budgetLimit m) (budgetResetTime m)
    (launchDelaySeconds m) (totalProcessed m) (totalFailed m).
Definition set_hourResetTime (t : Z) (m : QueueManager) : QueueManager :=
  mkManager (queue m) (processing m) (paused m) (launchesThisHour m)
    (hourlyLimit m) t (budgetUsed m) (budgetLimit m) (budgetResetTime m)
    (launchDelaySeconds m) (totalProcessed m) (totalFailed m).
Definition set_budgetUsed (b : Q) (m : QueueManager) : QueueManager :=
  mkManager (queue m) (processing m) (paused m) (launchesThisHour m)
    (hourlyLimit m) (hourResetTime m) b (budgetLimit m) (budgetResetTime m)
    (launchDelaySeconds m) (totalProcessed m) (totalFailed m).
Definition set_budgetResetTime (t : Z) (m : QueueManager) : QueueManager :=
  mkManager (queue m) (processing m) (paused m) (launchesThisHour m)
    (hourlyLimit m) (hourResetTime m) (budgetUsed m) (budgetLimit m) t
    (launchDelaySeconds m) (totalProcessed m) (totalFailed m).
Definition set_totalProcessed (n : Z) (m : QueueManager) : QueueManager :=
  mkManager (queue m) (processing m) (paused m) (launchesThisHour m)
    (hourlyLimit m) (hourResetTime m) (budgetUsed m) (budgetLimit m)
    (budgetResetTime m) (launchDelaySeconds m) n (totalFailed m).
Definition set_totalFailed (n : Z) (m : QueueManager) : QueueManager :=
  mkManager (queue m) (processing m) (paused m) (launchesThisHour m)
    (hourlyLimit m) (hourResetTime m) (budgetUsed m) (budgetLimit m)
    (budgetResetTime m) (launchDelaySeconds m) (totalProcessed m) n.

Definition with_mgr (f : QueueManager -> QueueManager) (w : World) : World :=
  mkWorld (f (mgr w)) (pc w) (clock w) (file w) (diskOk w) (utcOffset w).
Definition set_pc (p : Pc) (w : World) : World :=
  mkWorld (mgr w) p (clock w) (file w) (diskOk w) (utcOffset w).
Definition set_clock (t : Z) (w : World) : World :=
  mkWorld (mgr w) (pc w) t (file w) (diskOk w) (utcOffset w).
Definition set_file (f : option QueueData) (w : World) : World :=
  mkWorld (mgr w) (pc w) (clock w) f (diskOk w) (utcOffset w).
Definition set_diskOk (b : bool) (w : World) : World :=
  mkWorld (mgr w) (pc w) (clock w) (file w) b (utcOffset w).

(** *** Actions: a method body changes the world and emits events *)

Definition Act : Type := World -> World * list Event.

Definition skip : Act := fun w => (w, []).
Definition andThen (a b : Act) : Act :=
  fun w =>
    let (w1, e1) := a w in
    let (w2, e2) := b w1 in
    (w2, e1 ++ e2).
Definition modify (f : World -> World) : Act := fun w => (f w, []).
Definition emit (e : Event) : Act := fun w => (w, [e]).

Declare Scope act_scope.
Delimit Scope act_scope with act.
Notation "a >> b" := (andThen a b)
  (at level 62, right associativity) : act_scope.
Local Open Scope act_scope.

Definition hourMs : Z := 3600000.
Definition dayMs : Z := 86400000.

(** [d = new Date(now); d.setHours(24, 0, 0, 0)]: the next local midnight. *)
Definition nextMidnight (utcOffset now : Z) : Z :=
  ((now + utcOffset) / dayMs + 1) * dayMs - utcOffset.

(** [this.queue.includes(tweetId)]. *)
Definition includes (q : list string) (tweetId : string) : bool :=
  existsb (String.eqb tweetId) q.

(** [checkAndResetCounters]. *)
Definition checkAndResetCounters : Act :=
  modify (fun w =>
    let now := clock w in
    let w1 :=
      if hourResetTime (mgr w) <=? now
      then with_mgr (fun m =>
             set_hourResetTime (now + hourMs) (set_launchesThisHour 0 m)) w
      else w in
    if budgetResetTime (mgr w1) <=? now
    then with_mgr (fun m =>
           set_budgetResetTime (nextMidnight (utcOffset w1) now)
             (set_budgetUsed 0%Q m)) w1
    else w1).

(** The [data] object of [saveQueue]. *)
Definition snapshot (w : World) : QueueData :=
  let m := mgr w in
  mkData (queue m) (launchesThisHour m) (hourResetTime m) (budgetUsed m)
         (budgetResetTime m) (totalProcessed m) (totalFailed m) (clock w).

(** [saveQueue]: a failed write is caught and logged, nothing else. *)
Definition saveQueue : Act :=
  fun w =>
    let data := snapshot w in
    ((if diskOk w then set_file (Some data) w else w),
     [EvSave data (diskOk w)]).

(** [loadQueue], on a file written by [saveQueue]. *)
Definition loadQueue (w : World) : World :=
  match file w with
  | Some data =>
      with_mgr (fun m =>
        set_totalFailed (d_totalFailed data)
          (set_totalProcessed (d_totalProcessed data)
             (set_budgetResetTime (d_budgetResetTime data)
                (set_budgetUsed (d_budgetUsed data)
                   (set_hourResetTime (d_hourResetTime data)
                      (set_launchesThisHour (d_launchesThisHour data)
                         (set_queue (d_queue data) m))))))) w
  | None => w
  end.

(** The constructor, in a process started at [clock w] over [file w]. *)
Definition construct (env : Settings) (w : World) : World :=
  let now := clock w in
  let fresh :=
    mkManager [] false false 0 (HOURLY_LAUNCH_LIMIT env) (now + hourMs)
      0%Q (DAILY_BUDGET_SOL env) (nextMidnight (utcOffset w) now)
      (LAUNCH_DELAY_SECONDS env) 0 0 in
  loadQueue (set_pc Idle (with_mgr (fun _ => fresh) w)).

(** [setTimeout(resolve, ms)]: a negative delay fires at once. *)
Definition sleep (why : Wait) (ms : Z) : Act :=
  fun w => (set_pc (Sleeping why (clock w + Z.max 0 ms)) w, [EvSleep why ms]).

(** The statistics update after the [await] of the launch, with its
    [try]/[catch]. *)
Definition settle (outcome : Outcome) (m : QueueManager) : QueueManager :=
  match outcome with
  | Returned result =>
      let m1 := set_launchesThisHour (launchesThisHour m + 1) m in
      let m2 := set_totalProcessed (totalProcessed m1 + 1) m1 in
      if success result then
        match solSpent result with
        | Some spent =>
            if truthy spent
            then set_budgetUsed (budgetUsed m2 + spent)%Q m2
            else m2
        | None => m2
        end
      else set_totalFailed (totalFailed m2 + 1) m2
  | Threw => set_totalFailed (totalFailed m + 1) m
  end.

(** One turn of [while (this.queue.length > 0 && !this.paused)], from the
    test to the next [await] or to the end of [processQueue]. *)
Definition loop : Act :=
  fun w =>
    match queue (mgr w), paused (mgr w) with
    | _ :: _, false =>
        (checkAndResetCounters >>
         (fun w =>
            let m := mgr w in
            if hourlyLimit m <=? launchesThisHour m then
              let waitTime := hourResetTime m - clock w in
              sleep RateLimit (Z.min waitTime 300000) w
            else if Qle_bool (budgetLimit m) (budgetUsed m) then
              let waitTime := budgetResetTime m - clock w in
              sleep Budget (Z.min waitTime 300000) w
            else
              match queue m with
              | tweetId :: rest =>
                  (modify (with_mgr (set_queue rest)) >>
                   saveQueue >>
                   emit (EvLaunch tweetId) >>
                   modify (set_pc (InFlight tweetId))) w
              | [] => (w, [])
              end)) w
    | _, _ => modify (fun w => set_pc Idle (with_mgr (set_processing false) w)) w
    end.

(** [processQueue], up to its first [await]. *)
Definition processQueue : Act :=
  fun w =>
    if processing (mgr w) then (w, [])
    else if paused (mgr w) then (w, [])
    else (modify (with_mgr (set_processing true)) >> loop) w.

(** [addToQueue]. *)
Definition addToQueue (tweetId : string) : Act :=
  fun w =>
    if includes (queue (mgr w)) tweetId then (w, [])
    else
      (modify (with_mgr (fun m => set_queue (queue m ++ [tweetId]) m)) >>
       saveQueue >>
       (fun w =>
          if negb (processing (mgr w)) && negb (paused (mgr w))
          then processQueue w else (w, []))) w.

Definition pauseQueue : Act := modify (with_mgr (set_paused true)).

Definition resumeQueue : Act :=
  modify (with_mgr (set_paused false)) >>
  (fun w =>
     match queue (mgr w) with
     | _ :: _ => if negb (processing (mgr w)) then processQueue w else (w, [])
     | [] => (w, [])
     end).

Definition clearQueue : Act :=
  modify (with_mgr (set_queue [])) >> saveQueue.

(** The loop resumes after the launch it awaited has settled. *)
Definition afterLaunch (outcome : Outcome) : Act :=
  modify (with_mgr (settle outcome)) >>
  (fun w =>
     let m := mgr w in
     match queue m with
     | _ :: _ =>
         if 0 <? launchDelaySeconds m
         then sleep LaunchDelay (launchDelaySeconds m * 1000) w
         else loop w
     | [] => loop w
     end).

(** What can happen to a manager: a call of one of its methods, time
    passing, a pending timer firing, the awaited launch settling, the disk
    changing, or the process being started anew. *)
Inductive Label :=
| AddToQueue (tweetId : string)
| ProcessQueue
| PauseQueue
| ResumeQueue
| ClearQueue
| Tick (ms : Z)
| TimerFires
| LaunchSettles (outcome : Outcome)
| Disk (ok : bool)
| Restart (env : Settings).

Definition step (l : Label) : Act :=
  fun w =>
    match l with
    | AddToQueue tweetId => addToQueue tweetId w
    | ProcessQueue => processQueue w
    | PauseQueue => pauseQueue w
    | ResumeQueue => resumeQueue w
    | ClearQueue => clearQueue w
    | Tick ms =>
        if 0 <=? ms then (set_clock (clock w + ms) w, []) else (w, [])
    | TimerFires =>
        match pc w with
        | Sleeping _ wake => if wake <=? clock w then loop w else (w, [])
        | _ => (w, [])
        end
    | LaunchSettles outcome =>
        match pc w with
        | InFlight _ => afterLaunch outcome w
        | _ => (w, [])
        end
    | Disk ok => (set_diskOk ok w, [])
    | Restart env => (construct env w, [])
    end.

(** A first start, with no queue.json. *)
Definition boot (env : Settings) (now utcOffset : Z) : World :=
  construct env
    (mkWorld (mkManager [] false false 0 0 0 0%Q 0%Q 0 0 0 0)
             Idle now None true utcOffset).

(** A run: the labels in order, with all the events emitted. *)
Fixpoint run (ls : list Label) (w : World) : World * list Event :=
  match ls with
  | [] => (w, [])
  | l :: rest =>
      let (w1, e1) := step l w in
      let (w2, e2) := run rest w1 in
      (w2, e1 ++ e2)
  end.

Inductive reachable : World -> Prop :=
| reach_boot env now utcOffset : reachable (boot env now utcOffset)
| reach_step l w : reachable w -> reachable (fst (step l w)).

(** *** The three ways one turn of the loop ends *)

Inductive loop_result (w : World) : World -> list Event -> Prop :=
| loop_exit :
    (queue (mgr w) = [] \/ paused (mgr w) = true) ->
    loop_result w (set_pc Idle (with_mgr (set_processing false) w)) []
| loop_sleep why ms :
    queue (mgr w) <> [] -> paused (mgr w) = false ->
    let w1 := fst (checkAndResetCounters w) in
    (why = RateLimit /\ hourlyLimit (mgr w1) <= launchesThisHour (mgr w1)
     \/ why = Budget /\ (budgetLimit (mgr w1) <= budgetUsed (mgr w1))%Q) ->
    loop_result w (set_pc (Sleeping why (clock w + Z.max 0 ms)) w1)
                [EvSleep why ms]
| loop_dispatch tweetId rest :
    paused (mgr w) = false ->
    let w1 := fst (checkAndResetCounters w) in
    queue (mgr w) = tweetId :: rest ->
    launchesThisHour (mgr w1) < hourlyLimit (mgr w1) ->
    (budgetUsed (mgr w1) < budgetLimit (mgr w1))%Q ->
    let w2 := with_mgr (set_queue rest) w1 in
    loop_result w
      (set_pc (InFlight tweetId)
         (if diskOk w then set_file (Some (snapshot w2)) w2 else w2))
      [EvSave (snapshot w2) (diskOk w); EvLaunch tweetId].


(** A list of events with no launch in it. *)
Definition silent (evs : list Event) : Prop :=
  forall tweetId, ~ In (EvLaunch tweetId) evs.

(** The ids launched, in order. *)
Fixpoint launched (evs : list Event) : list string :=
  match evs with
  | [] => []
  | EvLaunch tweetId :: rest => tweetId :: launched rest
  | _ :: rest => launched rest
  end.

(** *** The rate-limit scenario of the spec (section 8)

    Hourly limit 2; ids "a", "b", "c" are enqueued while "a" is in flight;
    "a" succeeds with the spend the orchestrator reports, "b" fails. *)
Definition spent_ok : Outcome :=
  Returned (mkResult true (Some Orchestrator.solSpent)).
Definition failed : Outcome := Returned (mkResult false None).

Definition limit_two : World :=
  boot (mkSettings 2 (inject_Z 1) 120) 1000000 0.

Definition enqueue_three_and_drain : list Label :=
  [ AddToQueue "a"; AddToQueue "b"; AddToQueue "c";
    LaunchSettles spent_ok; Tick 120000; TimerFires;
    LaunchSettles failed; Tick 120000; TimerFires ].

(** In a trace, every launch comes right after a save whose pending list
    lacks the id launched. *)
Definition saved_before_launch (evs : list Event) : Prop :=
  forall pre tweetId post,
    evs = pre ++ EvLaunch tweetId :: post ->
    exists pre' d ok, pre = pre' ++ [EvSave d ok] /\ ~ In tweetId (d_queue d).

(** What holds of every reachable world: no id is pending twice, in memory
    or in queue.json, and [processing] is set exactly while a loop is
    suspended. *)
Definition queue_invariant (w : World) : Prop :=
  NoDup (queue (mgr w))
  /\ (forall d, file w = Some d -> NoDup (d_queue d))
  /\ (processing (mgr w) = false <-> pc w = Idle).

(** *** What a run accepts

    The ids a label pushes to the pending list: [addToQueue] pushes its
    argument unless [this.queue.includes(tweetId)]. *)
Definition offered (l : Label) (w : World) : list string :=
  match l with
  | AddToQueue tweetId =>
      if includes (queue (mgr w)) tweetId then [] else [tweetId]
  | _ => []
  end.

(** The ids pushed during a run, in order. *)
Fixpoint accepted (ls : list Label) (w : World) : list string :=
  match ls with
  | [] => []
  | l :: rest => offered l w ++ accepted rest (fst (step l w))
  end.

(** The labels under which the pending list is only pushed to and shifted:
    all but [clearQueue] and a new process. *)
Definition keeps_queue (l : Label) : bool :=
  match l with
  | ClearQueue | Restart _ => false
  | _ => true
  end.

(** The labels that leave a paused manager paused. *)
Definition keeps_paused (l : Label) : bool :=
  match l with
  | ResumeQueue | Restart _ => false
  | _ => true
  end.

(** The labels of a run in which every write of queue.json succeeds. *)
Definition disk_holds (l : Label) : bool :=
  match l with
  | Disk false => false
  | _ => true
  end.

(** The pending list a new process would load from queue.json. *)
Definition on_disk (w : World) : list string :=
  match file w with
  | Some d => d_queue d
  | None => []
  end.

(** What holds along a run in which every write succeeds: queue.json
    lists exactly the pending ids and, while a launch is awaited, holds the
    counters as they are in memory. *)
Definition disk_in_step (w : World) : Prop :=
  diskOk w = true
  /\ on_disk w = queue (mgr w)
  /\ (forall tweetId, pc w = InFlight tweetId ->
        exists d, file w = Some d
          /\ d_launchesThisHour d = launchesThisHour (mgr w)
          /\ d_budgetUsed d = budgetUsed (mgr w)
          /\ d_totalProcessed d = totalProcessed (mgr w)
          /\ d_totalFailed d = totalFailed (mgr w)).

(** The labels that keep the hourly limit at [limit]: all but a new
    process configured with another one. *)
Definition keeps_limit (limit : Z) (l : Label) : bool :=
  match l with
  | Restart env => HOURLY_LAUNCH_LIMIT env =? limit
  | _ => true
  end.

(** The hourly counter, in memory and in queue.json, is between 0 and the
    limit, and below the limit while a launch is awaited. *)
Definition within_limit (limit : Z) (w : World) : Prop :=
  hourlyLimit (mgr w) = limit
  /\ 0 <= launchesThisHour (mgr w) <= Z.max 0 limit
  /\ (forall tweetId, pc w = InFlight tweetId ->
        launchesThisHour (mgr w) < limit)
  /\ (forall d, file w = Some d ->
        0 <= d_launchesThisHour d <= Z.max 0 limit).

End Queue.

(** ** Text, as the services handle it

    Case mapping and character classes are those of ASCII text: a
    character above code 127 is left as it is and is in no class. *)

Module JsText.
Import Js.

Definition code (c : ascii) : nat := nat_of_ascii c.

(** [[A-Z]], [[a-z]], [[0-9]] and [\w]. *)
Definition is_upper (c : ascii) : bool :=
  (65 <=? code c)%nat && (code c <=? 90)%nat.
Definition is_lower (c : ascii) : bool :=
  (97 <=? code c)%nat && (code c <=? 122)%nat.
Definition is_digit (c : ascii) : bool :=
  (48 <=? code c)%nat && (code c <=? 57)%nat.
Definition is_word (c : ascii) : bool :=
  is_upper c || is_lower c || is_digit c || (code c =? 95)%nat.

Definition upper (c : ascii) : ascii :=
  if is_lower c then ascii_of_nat (code c - 32) else c.
Definition lower (c : ascii) : ascii :=
  if is_upper c then ascii_of_nat (code c + 32) else c.

Fixpoint toUpperCase (s : string) : string :=
  match s with
  | String c rest => String (upper c) (toUpperCase rest)
  | EmptyString => EmptyString
  end.

Fixpoint toLowerCase (s : string) : string :=
  match s with
  | String c rest => String (lower c) (toLowerCase rest)
  | EmptyString => EmptyString
  end.

Fixpoint all_upper (s : string) : bool :=
  match s with
  | String c rest => is_upper c && all_upper rest
  | EmptyString => true
  end.

(** [/^[A-Z]+$/.test(s)]. *)
Definition only_capitals (s : string) : bool :=
  negb (is_empty s) && all_upper s.

(** [s.split(sep)] for a separator of one character. *)
Fixpoint split (sep : ascii) (s : string) : list string :=
  match s with
  | EmptyString => [EmptyString]
  | String c rest =>
      if Ascii.eqb c sep then EmptyString :: split sep rest
      else
        match split sep rest with
        | first :: others => String c first :: others
        | [] => [String c EmptyString]
        end
  end.

(** [`${n}`] for a length. *)
Definition decimal (n : nat) : string := NilZero.string_of_uint (Nat.to_uint n).

End JsText.

(** ** services/aiService.ts: the ticker *)

Module Ai.
Import Solana Js JsText.

Record TokenSuggestion := mkSuggestion {
  name : string;
  ticker : string;
  description : string;
  confidence : Z;
  reasoning : string
}.

(** [validateTicker]. *)
Definition validateTicker (ticker : string) : bool :=
  if is_empty ticker then false
  else if (String.length ticker <? 1)%nat || (10 <? String.length ticker)%nat
  then false
  else if negb (only_capitals ticker) then false
  else true.

(** The longest run of capitals at the head of [s], and what follows it. *)
Fixpoint span_upper (s : string) : string * string :=
  match s with
  | String c rest =>
      if is_upper c
      then let (run, after) := span_upper rest in (String c run, after)
      else (EmptyString, s)
  | EmptyString => (EmptyString, EmptyString)
  end.

Definition starts_with_word (s : string) : bool :=
  match s with
  | String c _ => is_word c
  | EmptyString => false
  end.

(** The first match of [/\b[A-Z]{3,}\b/g] in [s]; [prev] tells whether the
    character before [s] is a word character.  At each position the
    pattern asks for a word boundary, takes the longest run of capitals,
    and asks for a word boundary again; a shorter run would end between
    two capitals, where there is no boundary, so that backtracking never
    finds another match at the same position. *)
Fixpoint first_capital_word (prev : bool) (s : string) : option string :=
  match s with
  | EmptyString => None
  | String c rest =>
      let (run, after) := span_upper s in
      if negb prev && (3 <=? String.length run)%nat
         && negb (starts_with_word after)
      then Some run
      else first_capital_word (is_word c) rest
  end.

(** [getFallbackSuggestion]. *)
Definition getFallbackSuggestion (tweetContent : string) : TokenSuggestion :=
  let ticker :=
    match first_capital_word false (toUpperCase tweetContent) with
    | Some word =>
        let short := substring 0 6 word in
        if is_empty short then "MEME" else short
    | None => "MEME"
    end in
  mkSuggestion ticker ticker "A viral meme token from Twitter" 30
               "Fallback suggestion (AI failed)".

(** [analyzeImagesForToken].  [response] is what the [try] block obtains
    from the model: [None] when reading an image, the request or
    [JSON.parse] throws, or when the text of the response is empty. *)
Definition analyzeImagesForToken (initialized : bool)
    (response : option TokenSuggestion) (tweetContent : string)
    : Reply TokenSuggestion :=
  if negb initialized
  then Err "Gemini AI not initialized. Check your API key."
  else
    match response with
    | Some suggestion =>
        if validateTicker (ticker suggestion) then Ok suggestion
        else Ok (getFallbackSuggestion tweetContent)
    | None => Ok (getFallbackSuggestion tweetContent)
    end.

(** The fields [parseAIResponse] reads of the parsed object; a missing
    field is the empty string, a missing confidence is 0. *)
Record Parsed := mkParsed {
  p_name : string;
  p_ticker : string;
  p_description : string;
  p_confidence : Z;
  p_reasoning : string
}.

(** [text.replace(/[^A-Z]/g, '')]. *)
Fixpoint keep_capitals (s : string) : string :=
  match s with
  | String c rest =>
      if is_upper c then String c (keep_capitals rest) else keep_capitals rest
  | EmptyString => EmptyString
  end.

(** [parseAIResponse], after [JSON.parse]. *)
Definition cleanSuggestion (parsed : Parsed) : TokenSuggestion :=
  let ticker := keep_capitals (toUpperCase (p_ticker parsed)) in
  let ticker :=
    if (10 <? String.length ticker)%nat then substring 0 10 ticker
    else ticker in
  let description := p_description parsed in
  let description :=
    if (100 <? String.length description)%nat
    then (substring 0 97 description ++ "...")%string
    else description in
  mkSuggestion
    (if is_empty (p_name parsed) then ticker else p_name parsed)
    ticker description
    (if p_confidence parsed =? 0 then 50 else p_confidence parsed)
    (if is_empty (p_reasoning parsed) then "AI generated suggestion"
     else p_reasoning parsed).

End Ai.

(** ** services/metadataGenerator.ts *)

Module Metadata.
Import Solana Js JsText.

Record Creator := mkCreator {
  address : string;
  share : Z
}.

(** [TokenMetadata]; an attribute is its [trait_type] and [value], a file
    its [uri] and [type]. *)
Record TokenMetadata := mkMetadata {
  name : string;
  symbol : string;
  description : string;
  image : string;
  attributes : list (string * string);
  files : list (string * string);
  category : string;
  creators : list Creator
}.

(** [generateMetadata]; [today] is
    [new Date().toISOString().split('T')[0]]. *)
Definition generateMetadata (today : string)
    (ticker name description ipfsImageUrl creatorAddress : string)
    : TokenMetadata :=
  mkMetadata name ticker description ipfsImageUrl
    [ ("Category", "AI Generated Meme Token");
      ("Launch Date", today);
      ("Source", "Twitter");
      ("Launch Method", "Automated") ]
    [ (ipfsImageUrl, "image/png") ]
    "image"
    [ mkCreator creatorAddress 100 ].

(** [validateMetadata]: [Ok true], or the message of the error thrown. *)
Definition validateMetadata (metadata : TokenMetadata) : Reply bool :=
  if is_empty (name metadata)
  then Err "Metadata missing required field: name"
  else if is_empty (symbol metadata)
  then Err "Metadata missing required field: symbol"
  else if is_empty (description metadata)
  then Err "Metadata missing required field: description"
  else if is_empty (image metadata)
  then Err "Metadata missing required field: image"
  else if (10 <? String.length (symbol metadata))%nat
  then Err ("Symbol too long: " ++ decimal (String.length (symbol metadata))
            ++ " chars (max: 10)")%string
  else if negb (only_capitals (symbol metadata))
  then Err ("Invalid symbol format: " ++ symbol metadata
            ++ ". Must be uppercase letters only.")%string
  else if negb (prefix "http" (image metadata))
  then Err ("Invalid image URL: " ++ image metadata)%string
  else
    match creators metadata with
    | [] => Err "Metadata must have at least one creator"
    | creator :: _ =>
        if is_empty (address creator)
        then Err "Creator address missing or invalid"
        else if negb (share creator =? 100)
        then Err "Creator share must be 100 for single creator"
        else Ok true
    end.

(** [getCreatorAddress], from the value of CREATOR_WALLET_ADDRESS. *)
Definition getCreatorAddress (CREATOR_WALLET_ADDRESS : string) : string :=
  if is_empty CREATOR_WALLET_ADDRESS
  then "DT2CKYDuas49sJukYmHTbiBPjhH3pp48j5p52h6hTKQA"
  else CREATOR_WALLET_ADDRESS.

(** [ipfsService.getIPFSUrl]. *)
Definition getIPFSUrl (hash : string) : string :=
  ("https://ipfs.io/ipfs/" ++ hash)%string.

End Metadata.

(** ** services/supabaseService.ts: a tweet, and what the listener and the
    orchestrator do with its images *)

Module Tweets.
Import Solana Js JsText.

(** The fields of [Tweet] the code reads.  [images] is [None] when the
    column is null. *)
Record Tweet := mkTweet {
  tweet_id : string;
  username : string;
  content : string;
  images : option (list string);
  all_related_images : option (list string);
  coin_launched : bool;
  contract_address : string
}.

(** [list && list.length > 0]. *)
Definition has_items (list : option (list string)) : bool :=
  match list with
  | Some (_ :: _) => true
  | _ => false
  end.

(** [[...new Set(images)]]: the first occurrence of each element, in
    order. *)
Fixpoint unique (seen images : list string) : list string :=
  match images with
  | [] => []
  | x :: rest =>
      if existsb (String.eqb x) seen then unique seen rest
      else x :: unique (x :: seen) rest
  end.

(** orchestrator.ts, [getAllImages]. *)
Definition getAllImages (tweet : Tweet) : list string :=
  let images :=
    if has_items (all_related_images tweet)
    then match all_related_images tweet with Some l => l | None => [] end
    else if has_items (images tweet)
    then match images tweet with Some l => l | None => [] end
    else [] in
  unique [] images.

(** launchListener.ts, [getTargetUsers], from the value of TARGET_USERS. *)
Definition getTargetUsers (TARGET_USERS : string) : list string :=
  if is_empty TARGET_USERS then []
  else
    filter (fun u => (0 <? String.length u)%nat)
           (map (fun u => toLowerCase (trim u)) (split "," TARGET_USERS)).

(** launchListener.ts, [shouldProcessTweet]: the verdict, or the message of
    the [TypeError] of [tweet.images.length] in the last report. *)
Definition shouldProcessTweet (TARGET_USERS : string) (tweet : Tweet)
    : Reply bool :=
  let hasDirectImages := has_items (images tweet) in
  let hasRelatedImages := has_items (all_related_images tweet) in
  if negb hasDirectImages && negb hasRelatedImages then Ok false
  else if coin_launched tweet then Ok false
  else
    let targetUsers := getTargetUsers TARGET_USERS in
    if (0 <? List.length targetUsers)%nat
       && negb (existsb (String.eqb (toLowerCase (username tweet))) targetUsers)
    then Ok false
    else
      match images tweet with
      | Some _ => Ok true
      | None => Err "Cannot read properties of null (reading 'length')"
      end.

End Tweets.

(** ** orchestrator.ts: [launchTokenFromTweet] *)

Module Pipeline.
Import Solana Js JsText Tweets.

Inductive Status := Launched | Sold.

(** [LaunchedTokenData], as step 14 fills it.  [ai_response] is the
    suggestion that is serialised; the two timestamps are taken from the
    clock when the record is made. *)
Record LaunchedTokenData := mkData {
  tweet_id : string;
  contract_address : string;
  token_name : string;
  token_symbol : string;
  token_description : string;
  metadata_url : string;
  image_url : string;
  ipfs_image_hash : string;
  ipfs_metadata_hash : string;
  deploy_signature : option string;
  buy_signature : option string;
  sell_signature : string;
  initial_buy_amount : Q;
  sol_spent : Q;
  sol_received : Q;
  profit_loss : Q;
  ai_prompt : string;
  ai_response : Ai.TokenSuggestion;
  ai_model : string;
  ai_confidence : Z;
  status : Status;
  launch_timestamp : string;
  sell_timestamp : option string
}.

(** [LaunchResult] of the orchestrator. *)
Record LaunchResult := mkResult {
  success : bool;
  tokenAddress : option string;
  tokenSymbol : option string;
  tokenName : option string;
  deploySignature : option string;
  sellSignature : option string;
  solSpent : option Q;
  solReceived : option Q;
  profitLoss : option Q;
  error : option string
}.

(** What the queue reads of it. *)
Definition forQueue (result : LaunchResult) : Queue.LaunchResult :=
  Queue.mkResult (success result) (solSpent result).

(** The services, as the answers they give during one call.  A database
    function throws when the client is not initialised and otherwise
    answers as the row operation does; [aiResponse] is what the [try] block
    of [analyzeImagesForToken] obtains; an upload answers with the content
    identifier. *)
Record Services := mkServices {
  supabaseInitialized : bool;
  tweetRow : string -> option Tweet;
  insertToken : LaunchedTokenData -> Reply unit;
  updateTweet : string -> string -> Reply unit;
  downloadImage : string -> Reply string;
  aiInitialized : bool;
  aiResponse : list string -> string -> option Ai.TokenSuggestion;
  uploadImageToIPFS : string -> string -> Reply string;
  uploadMetadataToIPFS : Metadata.TokenMetadata -> string -> Reply string;
  today : string;
  isoNow : string;
  CREATOR_WALLET_ADDRESS : string;
  launchRpc : Rpc;
  sellRpc : Rpc
}.

Inductive Event :=
| EvGetTweet (tweetId : string)
| EvDownload (url : string)
| EvValidateImage (path : string)
| EvAnalyze (paths : list string) (content : string)
| EvCheckTicker (ticker : string)
| EvUploadImage (path name : string)
| EvUploadMetadata (metadata : Metadata.TokenMetadata) (name : string)
| EvLaunchToken (config : Launch.TokenLaunchConfig)
    (calls : list Solana.Event)
| EvSleep (ms : Z)
| EvSellToken (config : Sell.SellConfig) (calls : list Solana.Event)
| EvSaveLaunchedToken (data : LaunchedTokenData)
| EvUpdateTweet (tweetId contractAddress : string)
| EvMarkFailed (tweetId message : string)
| EvCleanup (paths : list string).

(** The calls that prepare a launch. *)
Definition preparing (e : Event) : bool :=
  match e with
  | EvGetTweet _ | EvDownload _ | EvValidateImage _ | EvAnalyze _ _
  | EvCheckTicker _ | EvUploadImage _ _ | EvUploadMetadata _ _ => true
  | _ => false
  end.

(** Code that logs its calls and may throw. *)
Definition M (A : Type) : Type := list Event -> Reply A * list Event.

Definition ret {A} (a : A) : M A := fun log => (Ok a, log).
Definition throw {A} (msg : string) : M A := fun log => (Err msg, log).
Definition bind {A B} (c : M A) (k : A -> M B) : M B :=
  fun log =>
    match c log with
    | (Ok a, log') => k a log'
    | (Err msg, log') => (Err msg, log')
    end.
(** A call to a service: logged, then answered. *)
Definition call {A} (e : Event) (answer : Reply A) : M A :=
  fun log => (answer, log ++ [e]).
Definition emit (es : list Event) : M unit :=
  fun log => (Ok tt, log ++ es).

Declare Scope pipe_scope.
Delimit Scope pipe_scope with pipe.
Notation "x <- c ;; k" := (bind c (fun x => k))
  (at level 61, c at next level, right associativity) : pipe_scope.
Notation "c ;;; k" := (bind c (fun _ => k))
  (at level 61, right associativity) : pipe_scope.
Local Open Scope pipe_scope.

Section WithServices.
Context {L : Lib} (S : Services).

(** supabaseService: [getTweetById], [getClient], [saveLaunchedToken] and
    [updateTweetLaunchStatus]. *)
Definition getTweetById (tweetId : string) : Reply (option Tweet) :=
  if negb (supabaseInitialized S) then Err "Supabase not initialized"
  else Ok (tweetRow S tweetId).
Definition getClient : Reply unit :=
  if negb (supabaseInitialized S) then Err "Supabase not initialized"
  else Ok tt.
Definition saveLaunchedToken (data : LaunchedTokenData) : Reply unit :=
  if negb (supabaseInitialized S) then Err "Supabase not initialized"
  else insertToken S data.
Definition updateTweetLaunchStatus (tweetId contractAddress : string)
    : Reply unit :=
  if negb (supabaseInitialized S) then Err "Supabase not initialized"
  else updateTweet S tweetId contractAddress.

(** imageService, [downloadAllImages]: a failed download is skipped. *)
Fixpoint downloadAllImages (urls : list string) : list string :=
  match urls with
  | [] => []
  | url :: rest =>
      match downloadImage S url with
      | Ok filepath => filepath :: downloadAllImages rest
      | Err _ => downloadAllImages rest
      end
  end.

(** Steps 1 to 3: the tweet and the images downloaded for it. *)
Definition collect (tweetId : string) : M (Tweet * list string) :=
  found <- call (EvGetTweet tweetId) (getTweetById tweetId) ;;
  match found with
  | None => throw ("Tweet " ++ tweetId ++ " not found in database")%string
  | Some tweet =>
      if coin_launched tweet
      then throw ("Tweet " ++ tweetId ++ " already has a token launched: "
                  ++ Tweets.contract_address tweet)%string
      else
        let allImageUrls := getAllImages tweet in
        match allImageUrls with
        | [] => throw "No images found in tweet"
        | _ :: _ =>
            emit (map EvDownload allImageUrls) ;;;
            ret (tweet, downloadAllImages allImageUrls)
        end
  end.

(** Steps 3 to 16, once [downloadedImages] holds [downloadedPaths]. *)
Definition proceed (privateKey tweetId : string) (tweet : Tweet)
    (downloadedPaths : list string) : M LaunchResult :=
  match downloadedPaths with
  | [] => throw "Failed to download any images"
  | firstImagePath :: _ =>
      emit (map EvValidateImage downloadedPaths) ;;;
      aiSuggestion <-
        call (EvAnalyze downloadedPaths (content tweet))
             (Ai.analyzeImagesForToken (aiInitialized S)
                (aiResponse S downloadedPaths (content tweet))
                (content tweet)) ;;
      let ticker := Ai.ticker aiSuggestion in
      let name := Ai.name aiSuggestion in
      let description := Ai.description aiSuggestion in
      (fun log => (getClient, log)) ;;;
      emit [EvCheckTicker ticker] ;;;
      imageHash <-
        call (EvUploadImage firstImagePath (ticker ++ "-image")%string)
             (uploadImageToIPFS S firstImagePath (ticker ++ "-image")%string) ;;
      let imageUrl := Metadata.getIPFSUrl imageHash in
      let creatorAddress :=
        Metadata.getCreatorAddress (CREATOR_WALLET_ADDRESS S) in
      let metadata :=
        Metadata.generateMetadata (today S) ticker name description
                                  imageUrl creatorAddress in
      match Metadata.validateMetadata metadata with
      | Err msg => throw msg
      | Ok _ =>
          metadataHash <-
            call (EvUploadMetadata metadata (ticker ++ "-metadata")%string)
                 (uploadMetadataToIPFS S metadata
                    (ticker ++ "-metadata")%string) ;;
          let metadataUrl := Metadata.getIPFSUrl metadataHash in
          let launchConfig := Orchestrator.launchConfig name ticker metadataUrl in
          let launched :=
            Launch.launchToken (launchRpc S) launchConfig (KeyText privateKey) in
          let launchResult := fst launched in
          emit [EvLaunchToken launchConfig (snd launched)] ;;;
          if negb (Launch.success launchResult)
          then throw ("Token launch failed: "
                      ++ match Launch.error launchResult with
                         | Some e => e
                         | None => "undefined"
                         end)%string
          else
            emit [EvSleep 15000] ;;;
            let tokenAddress :=
              match Launch.tokenAddress launchResult with
              | Some a => a
              | None => ""
              end in
            let sellConfig := Orchestrator.sellConfig tokenAddress in
            let sold :=
              Sell.sellToken (sellRpc S) sellConfig (KeyText privateKey) in
            let sellResult := fst sold in
            emit [EvSellToken sellConfig (snd sold)] ;;;
            let solReceived :=
              if Sell.success sellResult
              then match Sell.solReceived sellResult with
                   | Some q => q
                   | None => 0%Q
                   end
              else 0%Q in
            let sellSignature :=
              if Sell.success sellResult
              then match Sell.signature sellResult with
                   | Some s => s
                   | None => ""
                   end
              else "" in
            let solSpent := Orchestrator.solSpent in
            let profitLoss := (solReceived - solSpent)%Q in
            let launchedTokenData :=
              mkData tweetId tokenAddress name ticker description metadataUrl
                imageUrl imageHash metadataHash
                (Launch.signature launchResult) (Launch.signature launchResult)
                sellSignature (1 # 100)%Q solSpent solReceived profitLoss
                ("Analyzed " ++ decimal (List.length downloadedPaths)
                 ++ " images")%string
                aiSuggestion "gemini-2.5-flash" (Ai.confidence aiSuggestion)
                (if Sell.success sellResult then Sold else Launched)
                (isoNow S)
                (if Sell.success sellResult then Some (isoNow S) else None) in
            call (EvSaveLaunchedToken launchedTokenData)
                 (saveLaunchedToken launchedTokenData) ;;;
            call (EvUpdateTweet tweetId tokenAddress)
                 (updateTweetLaunchStatus tweetId tokenAddress) ;;;
            emit [EvCleanup downloadedPaths] ;;;
            ret (mkResult true (Launch.tokenAddress launchResult)
                   (Some ticker) (Some name)
                   (Launch.signature launchResult) (Some sellSignature)
                   (Some solSpent) (Some solReceived) (Some profitLoss) None)
      end
  end.

(** The [catch] block: the failure is recorded (an error of that call is
    caught and logged), the images downloaded so far are removed, and the
    message is returned. *)
Definition failed (tweetId : string) (downloadedImages : list string)
    (msg : string) (log : list Event) : LaunchResult * list Event :=
  (mkResult false None None None None None None None None (Some msg),
   log ++ [EvMarkFailed tweetId msg]
       ++ match downloadedImages with
          | [] => []
          | _ :: _ => [EvCleanup downloadedImages]
          end).

(** [launchTokenFromTweet]: the result and the calls made, in order. *)
Definition launchTokenFromTweet (privateKey tweetId : string)
    : LaunchResult * list Event :=
  match collect tweetId [] with
  | (Err msg, log) => failed tweetId [] msg log
  | (Ok (tweet, downloadedPaths), log) =>
      match proceed privateKey tweetId tweet downloadedPaths log with
      | (Ok result, log') => (result, log')
      | (Err msg, log') => failed tweetId downloadedPaths msg log'
      end
  end.

(** What has been established when [launchToken] is called. *)
Definition checked (tweetId : string) (tweet : Tweet) (paths : list string)
    (suggestion : Ai.TokenSuggestion) (metadataHash : string)
    (config : Launch.TokenLaunchConfig) : Prop :=
  getTweetById tweetId = Ok (Some tweet)
  /\ coin_launched tweet = false
  /\ paths = downloadAllImages (getAllImages tweet)
  /\ paths <> []
  /\ Ai.validateTicker (Ai.ticker suggestion) = true
  /\ is_empty (Ai.name suggestion) = false
  /\ is_empty (Ai.description suggestion) = false
  /\ config = Orchestrator.launchConfig (Ai.name suggestion)
                (Ai.ticker suggestion) (Metadata.getIPFSUrl metadataHash).

End WithServices.
(** The configurations handed to [launchToken] and to [sellToken], the
    tweets marked as launched and the failures recorded, as a trace has
    them. *)
Fixpoint launches (log : list Event) : list Launch.TokenLaunchConfig :=
  match log with
  | [] => []
  | EvLaunchToken config _ :: rest => config :: launches rest
  | _ :: rest => launches rest
  end.

Fixpoint sells (log : list Event) : list Sell.SellConfig :=
  match log with
  | [] => []
  | EvSellToken config _ :: rest => config :: sells rest
  | _ :: rest => sells rest
  end.

Fixpoint marked_launched (log : list Event) : list (string * string) :=
  match log with
  | [] => []
  | EvUpdateTweet tweetId contractAddress :: rest =>
      (tweetId, contractAddress) :: marked_launched rest
  | _ :: rest => marked_launched rest
  end.

Fixpoint cleanups (log : list Event) : list (list string) :=
  match log with
  | [] => []
  | EvCleanup paths :: rest => paths :: cleanups rest
  | _ :: rest => cleanups rest
  end.


Fixpoint failures (log : list Event) : list (string * string) :=
  match log with
  | [] => []
  | EvMarkFailed tweetId message :: rest => (tweetId, message) :: failures rest
  | _ :: rest => failures rest
  end.

Fixpoint saved (log : list Event) : list LaunchedTokenData :=
  match log with
  | [] => []
  | EvSaveLaunchedToken data :: rest => data :: saved rest
  | _ :: rest => saved rest
  end.

End Pipeline.

(** ** A small concrete set of services, to run the orchestrator in *)

Module DemoServices.
Import Solana Tweets Pipeline.

Definition tweet : Tweet :=
  mkTweet "1001" "alice" "much wow doge"
          (Some ["https://img/1.jpg"; "https://img/1.jpg"; "https://img/2.jpg"])
          None false "".

(** Everything works, but the second image cannot be downloaded; the
    insertion of the record answers [insert]. *)
Definition services (insert : Reply unit) : Services :=
  mkServices true
    (fun tweetId => if String.eqb tweetId "1001" then Some tweet else None)
    (fun _ => insert)
    (fun _ _ => Ok tt)
    (fun url =>
       if String.eqb url "https://img/2.jpg" then Err "timeout"
       else Ok ("/tmp/" ++ url)%string)
    true
    (fun _ _ => Some (Ai.mkSuggestion "Doge Moon" "DOGE" "To the moon" 85 "viral"))
    (fun _ _ => Ok "QmImage")
    (fun _ _ => Ok "QmMeta")
    "2025-01-01" "2025-01-01T00:00:00.000Z" ""
    (Demo.rpc 42 1000 2000) (Demo.rpc 42 1000 2000).

End DemoServices.

(* ================================================================== *)
(** * Part II: the properties *)
(* ================================================================== *)

Section CurveFacts.
Import Curve.

Lemma inject_Z_nonzero (a : Z) : a <> 0 -> ~ (inject_Z a == 0)%Q.
Proof. intros Ha E. apply Ha. unfold Qeq in E. simpl in E. lia. Qed.

(** The rational expression of the spec, with the fee cleared from the
    denominators. *)
Lemma quote_fraction (vtr vsr n : Z) :
  0 < 10000 * vsr + n ->
  (inject_Z vtr * (inject_Z n / inject_Z 10000)
     / (inject_Z vsr + inject_Z n / inject_Z 10000)
   == inject_Z (vtr * n) / inject_Z (10000 * vsr + n))%Q.
Proof.
  intros Hpos.
  assert (Hd : ~ (inject_Z (10000 * vsr + n) == 0)%Q)
    by (apply inject_Z_nonzero; lia).
  rewrite inject_Z_plus, !inject_Z_mult in *.
  assert (Hd2 : ~ (inject_Z vsr + inject_Z n / inject_Z 10000 == 0)%Q).
  { intro E. apply Hd.
    setoid_replace (inject_Z 10000 * inject_Z vsr + inject_Z n)%Q
      with (inject_Z 10000 * (inject_Z vsr + inject_Z n / inject_Z 10000))%Q
      by (field; discriminate).
    rewrite E. ring. }
  field. exact Hd.
Qed.

(** The quote is one integer division. *)
Lemma quote_as_Zdiv (solIn vtr vsr feeBps : Z) :
  0 < vsr ->
  0 <= solIn * (10000 - feeBps) ->
  calculateTokenAmountForBuy solIn (mkReserves vtr vsr) feeBps
  = Some ((vtr * (solIn * (10000 - feeBps)))
          / (10000 * vsr + solIn * (10000 - feeBps))).
Proof.
  intros Hv Hn. unfold calculateTokenAmountForBuy, effectiveIn.
  cbn [virtualSolReserves virtualTokenReserves].
  destruct (Z.leb_spec vsr 0) as [H|_]; [lia|].
  f_equal. rewrite Zdiv_Qdiv. apply Qfloor_comp.
  rewrite <- (inject_Z_mult solIn (10000 - feeBps)).
  apply quote_fraction. lia.
Qed.

Lemma Zdiv_le_cross (a b c d : Z) :
  0 < b -> 0 < d -> a * d <= c * b -> a / b <= c / d.
Proof.
  intros Hb Hd H. apply Z.div_le_lower_bound; [exact Hd|].
  pose proof (Z.mul_div_le a b Hb) as Hq.
  assert (b * (d * (a / b)) <= b * c) by nia.
  nia.
Qed.

(** C1.  On non-negative integer inputs with [virtualSolReserves > 0] the
    buy quote succeeds and is the floor of [virtualTokenReserves * effectiveIn
    / (virtualSolReserves + effectiveIn)], where [effectiveIn = solIn *
    (10000 - feeBps) / 10000]: it is [Qfloor] of that rational, which, for a
    fee of at most 10000 basis points, is the one integer [out] with
    [out * (virtualSolReserves + effectiveIn) <= virtualTokenReserves *
    effectiveIn < (out + 1) * (virtualSolReserves + effectiveIn)].  For
    reserves 1,000,000 / 1,000, [solIn = 100] and no fee the quote is
    90909. *)
Theorem C1_buy_quote_is_floor :
  (forall solIn vtr vsr feeBps,
      0 <= solIn -> 0 <= vtr -> 0 < vsr -> 0 <= feeBps ->
      let e := effectiveIn solIn feeBps in
      exists out,
        calculateTokenAmountForBuy solIn (mkReserves vtr vsr) feeBps = Some out
        /\ out = Qfloor (inject_Z vtr * e / (inject_Z vsr + e))%Q
        /\ (e == inject_Z solIn * inject_Z (10000 - feeBps) / inject_Z 10000)%Q
        /\ (feeBps <= 10000 ->
            (inject_Z out * (inject_Z vsr + e) <= inject_Z vtr * e)%Q
            /\ (inject_Z vtr * e < inject_Z (out + 1) * (inject_Z vsr + e))%Q))
  /\ calculateTokenAmountForBuy 100 (mkReserves 1000000 1000) 0 = Some 90909.
Proof.
  split; [|vm_compute; reflexivity].
  intros solIn vtr vsr feeBps Hs Ht Hv Hf e.
  eexists. split; [|split; [reflexivity|split; [reflexivity|]]].
  - unfold calculateTokenAmountForBuy. cbn [virtualSolReserves virtualTokenReserves].
    destruct (Z.leb_spec vsr 0) as [H|_]; [lia|]. reflexivity.
  - intros Hf'.
    assert (Hn : 0 <= solIn * (10000 - feeBps)) by nia.
    assert (He0 : (0 <= e)%Q).
    { unfold e, effectiveIn. rewrite <- inject_Z_mult.
      apply Qle_shift_div_l; [reflexivity|]. rewrite Qmult_0_l.
      rewrite <- (Zle_Qle 0). exact Hn. }
    assert (Hpos : (0 < inject_Z vsr + e)%Q).
    { apply Qlt_le_trans with (inject_Z vsr).
      - rewrite <- (Zlt_Qlt 0). exact Hv.
      - rewrite <- (Qplus_0_r (inject_Z vsr)) at 1.
        apply Qplus_le_r. exact He0. }
    fold e. set (x := (inject_Z vtr * e / (inject_Z vsr + e))%Q).
    split.
    + apply Qle_trans with (x * (inject_Z vsr + e))%Q.
      * apply Qmult_le_compat_r; [apply Qfloor_le | apply Qlt_le_weak, Hpos].
      * unfold x. apply Qle_lteq. right. field.
        intro E. rewrite E in Hpos. discriminate Hpos.
    + apply Qle_lt_trans with (x * (inject_Z vsr + e))%Q.
      * unfold x. apply Qle_lteq. right. field.
        intro E. rewrite E in Hpos. discriminate Hpos.
      * apply Qmult_lt_compat_r; [exact Hpos | apply Qlt_floor].
Qed.

Lemma C1_buy_quote_is_floor_witness :
  exists out,
    calculateTokenAmountForBuy 10000000 launch_reserves 100 = Some out
    /\ (inject_Z out * (inject_Z 30000000000 + effectiveIn 10000000 100)
        <= inject_Z 1073000000000000 * effectiveIn 10000000 100)%Q
    /\ (inject_Z 1073000000000000 * effectiveIn 10000000 100
        < inject_Z (out + 1)
          * (inject_Z 30000000000 + effectiveIn 10000000 100))%Q.
Proof.
  destruct (proj1 C1_buy_quote_is_floor 10000000 1073000000000000 30000000000
              100 ltac:(lia) ltac:(lia) ltac:(lia) ltac:(lia))
    as (out & H1 & _ & _ & H2).
  destruct (H2 ltac:(lia)) as (H3 & H4).
  exists out. split; [exact H1|]. split; [exact H3 | exact H4].
Defined.



End CurveFacts.

(** ** The launch queue *)

Section QueueFacts.
Import Queue.

(** *** What [checkAndResetCounters] leaves alone *)

Lemma check_emits_nothing w : snd (checkAndResetCounters w) = [].
Proof. reflexivity. Qed.

Lemma check_frame w :
  let w1 := fst (checkAndResetCounters w) in
  queue (mgr w1) = queue (mgr w)
  /\ processing (mgr w1) = processing (mgr w)
  /\ paused (mgr w1) = paused (mgr w)
  /\ hourlyLimit (mgr w1) = hourlyLimit (mgr w)
  /\ pc w1 = pc w /\ clock w1 = clock w /\ file w1 = file w
  /\ diskOk w1 = diskOk w /\ utcOffset w1 = utcOffset w.
Proof.
  unfold checkAndResetCounters, modify. cbn [fst].
  destruct (hourResetTime (mgr w) <=? clock w);
    cbn [with_mgr mgr clock set_hourResetTime set_launchesThisHour budgetResetTime];
    destruct (budgetResetTime (mgr w) <=? clock w); cbn;
    repeat split; reflexivity.
Qed.

(** After the check, the hour window lies in the future. *)
Lemma check_hour_ahead w :
  clock w < hourResetTime (mgr (fst (checkAndResetCounters w))).
Proof.
  unfold checkAndResetCounters, modify. cbn [fst].
  destruct (Z.leb_spec (hourResetTime (mgr w)) (clock w));
    cbn [with_mgr mgr clock set_hourResetTime set_launchesThisHour budgetResetTime];
    destruct (budgetResetTime (mgr w) <=? clock w); cbn; unfold hourMs; lia.
Qed.

Lemma loop_spec w : loop_result w (fst (loop w)) (snd (loop w)).
Proof.
  unfold loop.
  destruct (queue (mgr w)) as [|tweetId rest] eqn:Hq.
  { apply loop_exit. now left. }
  destruct (paused (mgr w)) eqn:Hp.
  { apply loop_exit. now right. }
  unfold andThen.
  pose proof (check_frame w) as Hf. cbv zeta in Hf.
  destruct Hf as (Fq & _ & _ & _ & _ & Fc & _ & Fd & _).
  pose proof (check_emits_nothing w) as He.
  destruct (checkAndResetCounters w) as [w1 e1] eqn:Hc. cbn [fst snd] in *.
  subst e1.
  destruct (Z.leb_spec (hourlyLimit (mgr w1)) (launchesThisHour (mgr w1))) as [Hl|Hl].
  { unfold sleep. cbn [fst snd app]. rewrite Fc.
    replace w1 with (fst (checkAndResetCounters w)) by now rewrite Hc.
    apply loop_sleep; [congruence | assumption |]. left. rewrite Hc. now split. }
  destruct (Qle_bool (budgetLimit (mgr w1)) (budgetUsed (mgr w1))) eqn:Hb.
  { unfold sleep. cbn [fst snd app]. rewrite Fc.
    replace w1 with (fst (checkAndResetCounters w)) by now rewrite Hc.
    apply loop_sleep; [congruence | assumption |]. right. rewrite Hc.
    split; [reflexivity|]. now apply Qle_bool_iff. }
  rewrite Fq, Hq. unfold modify, saveQueue, emit. cbn [fst snd app].
  cbn [with_mgr diskOk]. rewrite Fd.
  replace w1 with (fst (checkAndResetCounters w)) by now rewrite Hc.
  assert (Hlt : (budgetUsed (mgr w1) < budgetLimit (mgr w1))%Q).
  { apply Qnot_le_lt. intro H. apply Qle_bool_iff in H. congruence. }
  pose proof (loop_dispatch w tweetId rest Hp Hq) as R. cbv zeta in R.
  rewrite Hc in R. cbn [fst] in R. specialize (R Hl Hlt).
  rewrite Hc. cbn [fst].
  destruct (diskOk w); exact R.
Qed.


Lemma settle_frame o m :
  queue (settle o m) = queue m
  /\ processing (settle o m) = processing m
  /\ paused (settle o m) = paused m
  /\ hourlyLimit (settle o m) = hourlyLimit m
  /\ launchDelaySeconds (settle o m) = launchDelaySeconds m.
Proof.
  destruct o as [[ok spent]|]; cbn.
  - destruct ok; [destruct spent as [q|]; [destruct (Js.truthy q)|]|];
      cbn; repeat split; reflexivity.
  - repeat split; reflexivity.
Qed.

Lemma includes_false_not_in q tweetId :
  includes q tweetId = false -> ~ In tweetId q.
Proof.
  unfold includes. intros H Hin.
  assert (existsb (String.eqb tweetId) q = true).
  { apply existsb_exists. exists tweetId. split; [assumption|apply String.eqb_refl]. }
  congruence.
Qed.

Lemma NoDup_snoc (q : list string) x : NoDup q -> ~ In x q -> NoDup (q ++ [x]).
Proof.
  intros Hq Hx. induction Hq as [|y l Hy Hl IH]; cbn.
  - constructor; [intros []|constructor].
  - constructor.
    + rewrite in_app_iff. intros [H|[H|[]]]; [now apply Hy|].
      subst. apply Hx. now left.
    + apply IH. intro H. apply Hx. now right.
Qed.

(** *** The invariant *)

Lemma loop_invariant w :
  NoDup (queue (mgr w)) ->
  (forall d, file w = Some d -> NoDup (d_queue d)) ->
  processing (mgr w) = true ->
  queue_invariant (fst (loop w)).
Proof.
  intros Hq Hf Hp.
  pose proof (check_frame w) as F. cbv zeta in F.
  destruct F as (Fq & Fp & _ & _ & _ & _ & Ff & _ & _).
  destruct (loop_spec w) as [Hx | why ms Hne Hpa w1 Hc | tweetId rest Hpa w1 Hqq Hl Hb w2].
  - repeat split; cbn; try assumption; reflexivity.
  - subst w1. unfold queue_invariant, set_pc. cbn [mgr pc file].
    rewrite Fq, Ff, Fp, Hp. repeat split; try assumption; discriminate.
  - assert (Hrest : NoDup rest).
    { rewrite Hqq in Hq. now inversion Hq. }
    subst w2 w1. unfold queue_invariant, set_pc, set_file, with_mgr.
    destruct (diskOk w); cbn [mgr pc file queue set_queue processing];
      rewrite ?Ff, ?Fp, ?Hp; repeat split; try assumption; try discriminate.
    intros d [= <-]. exact Hrest.
Qed.

Lemma processQueue_invariant w :
  queue_invariant w -> queue_invariant (fst (processQueue w)).
Proof.
  intros Inv. pose proof Inv as (Hq & Hf & Hpc). unfold processQueue.
  destruct (processing (mgr w)) eqn:Hp; [exact Inv|].
  destruct (paused (mgr w)) eqn:Hpa; [exact Inv|].
  unfold andThen, modify.
  destruct (loop (with_mgr (set_processing true) w)) as [w' e] eqn:Hl. cbn [fst].
  change w' with (fst (w', e)). rewrite <- Hl.
  apply loop_invariant; cbn; auto.
Qed.

Lemma saveQueue_invariant w :
  NoDup (queue (mgr w)) ->
  (forall d, file w = Some d -> NoDup (d_queue d)) ->
  let w1 := fst (saveQueue w) in
  mgr w1 = mgr w /\ pc w1 = pc w
  /\ (forall d, file w1 = Some d -> NoDup (d_queue d)).
Proof.
  intros Hq Hf. unfold saveQueue. cbn [fst].
  destruct (diskOk w); cbn; repeat split; try assumption.
  intros d [= <-]. exact Hq.
Qed.

Lemma construct_facts env w :
  let w' := construct env w in
  file w' = file w /\ pc w' = Idle /\ processing (mgr w') = false
  /\ queue (mgr w') = match file w with Some d => d_queue d | None => [] end.
Proof.
  unfold construct, loadQueue.
  replace (file (set_pc Idle (with_mgr _ w))) with (file w) by reflexivity.
  destruct (file w) as [d|] eqn:Ef; cbv zeta; repeat split;
    try reflexivity; exact Ef.
Qed.

Theorem step_invariant l w :
  queue_invariant w -> queue_invariant (fst (step l w)).
Proof.
  intros Inv. pose proof Inv as (Hq & Hf & Hpc).
  destruct l as [tweetId| | | | |ms| |outcome|ok|env]; cbn [step].
  - (* addToQueue *)
    unfold addToQueue.
    destruct (includes (queue (mgr w)) tweetId) eqn:Hin; [exact Inv|].
    unfold andThen, modify.
    set (w1 := with_mgr (fun m => set_queue (queue m ++ [tweetId]) m) w).
    assert (Hq1 : NoDup (queue (mgr w1))).
    { cbn. apply NoDup_snoc; [assumption | now apply includes_false_not_in]. }
    destruct (saveQueue_invariant w1 Hq1 Hf) as (Sm & Spc & Sf).
    destruct (saveQueue w1) as [w2 e2]. cbn [fst] in *.
    assert (Inv2 : queue_invariant w2).
    { repeat split; rewrite ?Sm, ?Spc; try assumption; cbn; apply Hpc. }
    destruct (negb (processing (mgr w2)) && negb (paused (mgr w2))).
    + pose proof (processQueue_invariant w2 Inv2) as H.
      destruct (processQueue w2). exact H.
    + exact Inv2.
  - apply processQueue_invariant, Inv.
  - cbn. exact Inv.
  - (* resumeQueue *)
    unfold resumeQueue, andThen, modify.
    set (w1 := with_mgr (set_paused false) w).
    assert (Inv1 : queue_invariant w1) by exact Inv.
    destruct (queue (mgr w1)); [exact Inv1|].
    destruct (negb (processing (mgr w1))); [|exact Inv1].
    pose proof (processQueue_invariant w1 Inv1) as H.
    destruct (processQueue w1). exact H.
  - (* clearQueue *)
    unfold clearQueue, andThen, modify.
    set (w1 := with_mgr (set_queue []) w).
    assert (Hq1 : NoDup (queue (mgr w1))) by constructor.
    destruct (saveQueue_invariant w1 Hq1 Hf) as (Sm & Spc & Sf).
    destruct (saveQueue w1) as [w2 e2]. cbn [fst] in *.
    repeat split; rewrite ?Sm, ?Spc; try assumption; cbn; apply Hpc.
  - destruct (0 <=? ms); exact Inv.
  - (* a timer fires *)
    destruct (pc w) as [|why wake|id] eqn:Hp; try exact Inv.
    destruct (wake <=? clock w); [|exact Inv].
    apply loop_invariant; try assumption.
    destruct (processing (mgr w)) eqn:E; [reflexivity|].
    destruct Hpc as [Hpc _]. specialize (Hpc eq_refl). congruence.
  - (* the launch settles *)
    destruct (pc w) as [|why wake|id] eqn:Hp; try exact Inv.
    assert (Hproc : processing (mgr w) = true).
    { destruct (processing (mgr w)) eqn:E; [reflexivity|].
      destruct Hpc as [Hpc _]. specialize (Hpc eq_refl). congruence. }
    unfold afterLaunch, andThen, modify.
    set (w1 := with_mgr (settle outcome) w).
    destruct (settle_frame outcome (mgr w)) as (Sq & Sp & _).
    assert (Hq1 : NoDup (queue (mgr w1))) by (cbn; now rewrite Sq).
    assert (Hp1 : processing (mgr w1) = true) by (cbn; now rewrite Sp).
    assert (Hsleep : forall ms, queue_invariant (fst (sleep LaunchDelay ms w1))).
    { intros ms'. repeat split; cbn; try assumption.
      - rewrite Sp, Hproc. discriminate.
      - discriminate. }
    assert (Hloop : queue_invariant (fst (loop w1)))
      by (apply loop_invariant; assumption).
    destruct (queue (mgr w1)) eqn:Eq1.
    + destruct (loop w1). exact Hloop.
    + destruct (0 <? launchDelaySeconds (mgr w1)).
      * specialize (Hsleep (launchDelaySeconds (mgr w1) * 1000)).
        destruct (sleep LaunchDelay (launchDelaySeconds (mgr w1) * 1000) w1).
        exact Hsleep.
      * destruct (loop w1). exact Hloop.
  - exact Inv.
  - (* a new process *)
    destruct (construct_facts env w) as (Cf & Cpc & Cp & Cq).
    unfold queue_invariant. cbn [fst]. rewrite Cf, Cpc, Cp, Cq.
    repeat split; auto.
    destruct (file w) as [d|] eqn:Ef; [now apply Hf | constructor].
Qed.

Theorem reachable_invariant w : reachable w -> queue_invariant w.
Proof.
  induction 1 as [env now off | l w _ IH].
  - unfold boot, construct, loadQueue. cbn.
    repeat split; auto; try constructor; discriminate.
  - apply step_invariant, IH.
Qed.


(** *** Dispatching *)

Lemma snapshot_set_pc p w : snapshot (set_pc p w) = snapshot w.
Proof. reflexivity. Qed.

Lemma snapshot_set_file f w : snapshot (set_file f w) = snapshot w.
Proof. reflexivity. Qed.

(** A turn of the loop that launches [tweetId] took it from the head of the
    pending list, saved the shortened list, and only then launched. *)
Lemma loop_launch w tweetId :
  NoDup (queue (mgr w)) ->
  In (EvLaunch tweetId) (snd (loop w)) ->
  let w' := fst (loop w) in
  snd (loop w) = [EvSave (snapshot w') (diskOk w); EvLaunch tweetId]
  /\ queue (mgr w) = tweetId :: queue (mgr w')
  /\ ~ In tweetId (queue (mgr w'))
  /\ pc w' = InFlight tweetId
  /\ (diskOk w = true -> file w' = Some (snapshot w'))
  /\ launchesThisHour (mgr w') < hourlyLimit (mgr w')
  /\ (budgetUsed (mgr w') < budgetLimit (mgr w'))%Q.
Proof.
  intros Hq Hin. cbv zeta.
  destruct (loop_spec w) as [Hx | why ms Hne Hpa w1 Hc | id rest Hpa w1 Hqq Hl Hb w2].
  - destruct Hin.
  - destruct Hin as [H|[]]. discriminate H.
  - destruct Hin as [H|[H|[]]]; [discriminate H|]. injection H as ->.
    assert (Hnot : ~ In tweetId rest).
    { rewrite Hqq in Hq. now inversion Hq. }
    assert (Hsnap : snapshot (set_pc (InFlight tweetId)
               (if diskOk w then set_file (Some (snapshot w2)) w2 else w2))
            = snapshot w2) by (destruct (diskOk w); reflexivity).
    rewrite Hsnap.
    destruct (diskOk w) eqn:Hd; subst w2;
      unfold set_pc, set_file, with_mgr;
      cbn [mgr pc file queue set_queue launchesThisHour hourlyLimit
           budgetUsed budgetLimit];
      repeat split; try assumption; try reflexivity; try discriminate.
Qed.

Lemma loop_queue w :
  queue (mgr (fst (loop w))) = queue (mgr w)
  \/ exists tweetId, queue (mgr w) = tweetId :: queue (mgr (fst (loop w))).
Proof.
  pose proof (check_frame w) as F. cbv zeta in F. destruct F as (Fq & _).
  destruct (loop_spec w) as [Hx | why ms Hne Hpa w1 Hc | id rest Hpa w1 Hqq Hl Hb w2].
  - left. reflexivity.
  - left. subst w1. unfold set_pc. cbn [mgr]. exact Fq.
  - right. exists id. rewrite Hqq. f_equal.
    destruct (diskOk w); reflexivity.
Qed.

Lemma silent_nil : silent [].
Proof. intros id []. Qed.

Lemma silent_save d ok : silent [EvSave d ok].
Proof. intros id [H|[]]. discriminate H. Qed.

Lemma silent_sleep why ms : silent [EvSleep why ms].
Proof. intros id [H|[]]. discriminate H. Qed.

Lemma silent_app a b : silent a -> silent b -> silent (a ++ b).
Proof.
  intros Ha Hb id Hin. apply in_app_or in Hin.
  destruct Hin as [H|H]; [now apply Ha in H | now apply Hb in H].
Qed.

Lemma processQueue_shape w0 w3 e3 :
  processQueue w0 = (w3, e3) ->
  e3 = [] \/
  exists w1, queue (mgr w1) = queue (mgr w0) /\ diskOk w1 = diskOk w0
             /\ w3 = fst (loop w1) /\ e3 = snd (loop w1).
Proof.
  unfold processQueue.
  destruct (processing (mgr w0)); [intros [= <- <-]; now left|].
  destruct (paused (mgr w0)); [intros [= <- <-]; now left|].
  unfold andThen, modify.
  destruct (loop (with_mgr (set_processing true) w0)) as [w2 e2] eqn:E.
  intros [= <- <-]. right.
  exists (with_mgr (set_processing true) w0). rewrite E. now repeat split.
Qed.

(** Every step either launches nothing, or ends in one turn of the loop,
    run on a world [w1] that differs from [w] by at most one appended id. *)
Lemma step_shape l w w' evs :
  queue_invariant w ->
  step l w = (w', evs) ->
  silent evs
  \/ exists w1 pre,
       NoDup (queue (mgr w1)) /\ diskOk w1 = diskOk w /\ silent pre
       /\ w' = fst (loop w1) /\ evs = pre ++ snd (loop w1).
Proof.
  intros (Hq & Hf & Hpc).
  destruct l as [tweetId| | | | |ms| |outcome|ok|env]; cbn [step].
  - unfold addToQueue.
    destruct (includes (queue (mgr w)) tweetId) eqn:Hin;
      [intros [= <- <-]; left; apply silent_nil|].
    unfold andThen, modify, saveQueue.
    set (w1 := with_mgr (fun m => set_queue (queue m ++ [tweetId]) m) w).
    assert (Hq1 : NoDup (queue (mgr w1))).
    { cbn. apply NoDup_snoc; [assumption | now apply includes_false_not_in]. }
    set (w2 := if diskOk w1 then set_file (Some (snapshot w1)) w1 else w1).
    assert (Hm2 : mgr w2 = mgr w1 /\ diskOk w2 = diskOk w)
      by (subst w2; destruct (diskOk w1) eqn:E; split; try reflexivity; exact E).
    destruct Hm2 as [Hm2 Hd2].
    destruct (negb (processing (mgr w2)) && negb (paused (mgr w2))).
    + destruct (processQueue w2) as [w3 e3] eqn:E3.
      intros [= <- <-].
      destruct (processQueue_shape w2 w3 e3 E3) as [->|(w0 & Eq0 & Ed0 & -> & ->)].
      * left. cbn. apply silent_save.
      * right. exists w0, [EvSave (snapshot w1) (diskOk w1)].
        repeat split.
        -- now rewrite Eq0, Hm2.
        -- now rewrite Ed0.
        -- apply silent_save.
    + intros [= <- <-]. left. cbn. apply silent_save.
  - intros E3.
    destruct (processQueue_shape w w' evs E3) as [->|(w0 & Eq0 & Ed0 & -> & ->)].
    + left. apply silent_nil.
    + right. exists w0, []. repeat split; auto using silent_nil. now rewrite Eq0.
  - intros [= <- <-]. left. apply silent_nil.
  - unfold resumeQueue, andThen, modify.
    set (w1 := with_mgr (set_paused false) w).
    destruct (queue (mgr w1)) eqn:E1; [intros [= <- <-]; left; apply silent_nil|].
    destruct (negb (processing (mgr w1)));
      [|intros [= <- <-]; left; apply silent_nil].
    destruct (processQueue w1) as [w3 e3] eqn:E3.
    intros [= <- <-].
    destruct (processQueue_shape w1 w3 e3 E3) as [->|(w0 & Eq0 & Ed0 & -> & ->)].
    + left. apply silent_nil.
    + right. exists w0, []. repeat split; auto using silent_nil.
      rewrite Eq0. exact Hq.
  - unfold clearQueue, andThen, modify, saveQueue.
    intros [= <- <-]. left. cbn. apply silent_save.
  - destruct (0 <=? ms); intros [= <- <-]; left; apply silent_nil.
  - destruct (pc w) as [|why wake|id];
      try (intros [= <- <-]; left; apply silent_nil).
    destruct (wake <=? clock w); [|intros [= <- <-]; left; apply silent_nil].
    intros E. right. exists w, []. rewrite E. repeat split; auto using silent_nil.
  - destruct (pc w) as [|why wake|id];
      try (intros [= <- <-]; left; apply silent_nil).
    unfold afterLaunch, andThen, modify.
    set (w1 := with_mgr (settle outcome) w).
    destruct (settle_frame outcome (mgr w)) as (Sq & _).
    assert (Hq1 : NoDup (queue (mgr w1))) by (cbn; now rewrite Sq).
    assert (Hloop : forall w' evs,
               (let (w2, e2) := loop w1 in (w2, [] ++ e2)) = (w', evs) ->
               exists w0 pre,
                 NoDup (queue (mgr w0)) /\ diskOk w0 = diskOk w /\ silent pre
                 /\ w' = fst (loop w0) /\ evs = pre ++ snd (loop w0)).
    { intros w0' evs0. destruct (loop w1) as [w2 e2] eqn:E. intros [= <- <-].
      exists w1, []. rewrite E. repeat split; auto using silent_nil. }
    destruct (queue (mgr w1)); [intros E; right; now apply Hloop|].
    destruct (0 <? launchDelaySeconds (mgr w1)); [|intros E; right; now apply Hloop].
    intros [= <- <-]. left. cbn. apply silent_sleep.
  - intros [= <- <-]. left. apply silent_nil.
  - intros [= <- <-]. left. apply silent_nil.
Qed.

(** *** The loop only ever removes ids *)

Lemma loop_queue_incl w x :
  In x (queue (mgr (fst (loop w)))) -> In x (queue (mgr w)).
Proof.
  destruct (loop_queue w) as [E|[id E]]; rewrite E; [auto|]. now right.
Qed.

Lemma processQueue_queue_incl w x :
  In x (queue (mgr (fst (processQueue w)))) -> In x (queue (mgr w)).
Proof.
  unfold processQueue.
  destruct (processing (mgr w)); [auto|].
  destruct (paused (mgr w)); [auto|].
  unfold andThen, modify.
  pose proof (loop_queue_incl (with_mgr (set_processing true) w) x) as H.
  destruct (loop (with_mgr (set_processing true) w)). exact H.
Qed.

Lemma step_queue l w x :
  In x (queue (mgr (fst (step l w)))) ->
  In x (queue (mgr w)) \/ l = AddToQueue x \/ exists env, l = Restart env.
Proof.
  destruct l as [tweetId| | | | |ms| |outcome|ok|env]; cbn [step].
  - unfold addToQueue.
    destruct (includes (queue (mgr w)) tweetId); [now left|].
    unfold andThen, modify, saveQueue at 1.
    set (w1 := with_mgr (fun m => set_queue (queue m ++ [tweetId]) m) w).
    set (w2 := if diskOk w1 then set_file (Some (snapshot w1)) w1 else w1).
    assert (Hm2 : queue (mgr w2) = queue (mgr w) ++ [tweetId])
      by (subst w2; destruct (diskOk w1); reflexivity).
    assert (Hin : In x (queue (mgr w2)) ->
                  In x (queue (mgr w)) \/ AddToQueue tweetId = AddToQueue x
                  \/ exists env, AddToQueue tweetId = Restart env).
    { rewrite Hm2, in_app_iff. intros [H|[H|[]]]; [now left|].
      right. left. now subst. }
    destruct (negb (processing (mgr w2)) && negb (paused (mgr w2))).
    + pose proof (processQueue_queue_incl w2 x) as H.
      destruct (processQueue w2). cbn [fst] in *. tauto.
    + exact Hin.
  - intros H. left. now apply processQueue_queue_incl.
  - now left.
  - unfold resumeQueue, andThen, modify.
    set (w1 := with_mgr (set_paused false) w).
    change (queue (mgr w)) with (queue (mgr w1)).
    destruct (queue (mgr w1)) eqn:E; [cbn [fst]; rewrite E; now left|].
    destruct (negb (processing (mgr w1))); [|cbn [fst]; rewrite E; now left].
    pose proof (processQueue_queue_incl w1 x) as H.
    destruct (processQueue w1). cbn [fst] in *. rewrite E in H. tauto.
  - unfold clearQueue, andThen, modify, saveQueue.
    destruct (diskOk (with_mgr (set_queue []) w)); cbn; tauto.
  - destruct (0 <=? ms); now left.
  - destruct (pc w) as [|why wake|id]; try (now left).
    destruct (wake <=? clock w); [|now left].
    intros H. left. now apply loop_queue_incl.
  - destruct (pc w) as [|why wake|id]; try (now left).
    unfold afterLaunch, andThen, modify.
    set (w1 := with_mgr (settle outcome) w).
    destruct (settle_frame outcome (mgr w)) as (Sq & _).
    assert (E1 : queue (mgr w1) = queue (mgr w)) by (cbn; exact Sq).
    pose proof (loop_queue_incl w1 x) as Hl. rewrite E1 in Hl.
    destruct (queue (mgr w1)) eqn:E.
    + destruct (loop w1). cbn [fst] in *. tauto.
    + destruct (0 <? launchDelaySeconds (mgr w1)).
      * unfold sleep, set_pc. cbn [fst mgr]. rewrite E, <- E1. now left.
      * destruct (loop w1). cbn [fst] in *. tauto.
  - now left.
  - right. right. now exists env.
Qed.

(** What holds at every launch: the facts behind C3 and C4. *)
Lemma step_launch_facts l w w' evs tweetId :
  queue_invariant w ->
  step l w = (w', evs) ->
  In (EvLaunch tweetId) evs ->
  exists before d,
    evs = before ++ [EvSave d (diskOk w); EvLaunch tweetId]
    /\ silent before
    /\ d_queue d = queue (mgr w')
    /\ ~ In tweetId (queue (mgr w'))
    /\ (diskOk w = true -> file w' = Some d)
    /\ pc w' = InFlight tweetId
    /\ launchesThisHour (mgr w') < hourlyLimit (mgr w')
    /\ (budgetUsed (mgr w') < budgetLimit (mgr w'))%Q.
Proof.
  intros Inv Hstep Hin.
  destruct (step_shape l w w' evs Inv Hstep)
    as [Hs | (w1 & pre & Hq1 & Hd1 & Hpre & -> & ->)].
  - now apply Hs in Hin.
  - apply in_app_or in Hin. destruct Hin as [Hin | Hin]; [now apply Hpre in Hin|].
    destruct (loop_launch w1 tweetId Hq1 Hin)
      as (Ev & Eq & Hnot & Hpc & Hfile & Hl & Hb).
    exists pre, (snapshot (fst (loop w1))).
    rewrite Ev, Hd1. repeat split; auto.
    rewrite <- Hd1. exact Hfile.
Qed.



(** After a launch was issued with the disk writable, a process started
    anew from queue.json does not find the id pending. *)
Theorem restart_does_not_redeliver :
  forall w, reachable w ->
  forall l w' evs tweetId env, step l w = (w', evs) ->
    In (EvLaunch tweetId) evs -> diskOk w = true ->
    ~ In tweetId (queue (mgr (construct env w'))).
Proof.
  intros w Hr l w' evs tweetId env Hstep Hin Hd.
  pose proof (reachable_invariant w Hr) as Inv.
  destruct (step_launch_facts l w w' evs tweetId Inv Hstep Hin)
    as (before & d & _ & _ & Hq & Hnot & Hfile & _).
  specialize (Hfile Hd).
  destruct (construct_facts env w') as (_ & _ & _ & Cq).
  rewrite Cq, Hfile, Hq. exact Hnot.
Qed.

(** *** Whole runs *)

Lemma last_launch_only before d ok tweetId pre other post :
  silent before ->
  before ++ [EvSave d ok; EvLaunch tweetId] = pre ++ EvLaunch other :: post ->
  pre = before ++ [EvSave d ok] /\ other = tweetId /\ post = [].
Proof.
  intros Hs. revert pre. induction before as [|b bs IH]; intros pre E.
  - destruct pre as [|x [|y pre']]; cbn in E.
    + discriminate E.
    + inversion E; subst. now repeat split.
    + exfalso. inversion E as [[Hx Hy Hz]]. destruct pre'; discriminate Hz.
  - destruct pre as [|x pre']; cbn in E.
    + exfalso. inversion E as [[Hb Hrest]]. apply (Hs other). now left.
    + inversion E as [[Hb Hrest]].
      destruct (IH (fun id H => Hs id (or_intror H)) pre' Hrest) as (-> & -> & ->).
      now repeat split.
Qed.

Lemma step_saved_before_launch l w w' evs :
  queue_invariant w ->
  step l w = (w', evs) ->
  saved_before_launch evs
  /\ (forall tweetId rest, evs <> EvLaunch tweetId :: rest).
Proof.
  intros Inv Hstep. split.
  - intros pre tweetId post E.
    assert (Hin : In (EvLaunch tweetId) evs)
      by (rewrite E; apply in_or_app; right; now left).
    destruct (step_launch_facts l w w' evs tweetId Inv Hstep Hin)
      as (before & d & Ev & Hs & Hd & Hnot & _).
    rewrite Ev in E.
    destruct (last_launch_only before d (diskOk w) tweetId pre tweetId post Hs E)
      as (-> & _ & _).
    exists before, d, (diskOk w). split; [reflexivity|]. now rewrite Hd.
  - intros tweetId rest E.
    assert (Hin : In (EvLaunch tweetId) evs) by (rewrite E; now left).
    destruct (step_launch_facts l w w' evs tweetId Inv Hstep Hin)
      as (before & d & Ev & Hs & _).
    rewrite Ev in E. destruct before as [|b bs]; cbn in E; [discriminate E|].
    inversion E as [[Hb Hrest]]. apply (Hs tweetId). now left.
Qed.

Lemma saved_before_launch_app a b :
  saved_before_launch a -> saved_before_launch b ->
  (forall tweetId rest, b <> EvLaunch tweetId :: rest) ->
  saved_before_launch (a ++ b).
Proof.
  intros Ha Hb Hstart pre tweetId post E.
  apply app_eq_app in E. destruct E as (l & [[E1 E2]|[E1 E2]]).
  - destruct l as [|x l']; cbn in E2.
    + exfalso. now apply (Hstart tweetId post).
    + inversion E2 as [[Hx Hrest]]. subst x. now apply (Ha pre tweetId l').
  - destruct (Hb l tweetId post E2) as (pre' & d & ok & -> & Hnot).
    exists (a ++ pre'), d, ok. split; [|exact Hnot].
    now rewrite E1, app_assoc.
Qed.

(** Over any run from a reachable world, every launch in the trace comes
    right after a save of a pending list that lacks the id. *)
Theorem run_saved_before_launch ls :
  forall w, reachable w ->
    reachable (fst (run ls w))
    /\ saved_before_launch (snd (run ls w))
    /\ (forall tweetId rest, snd (run ls w) <> EvLaunch tweetId :: rest).
Proof.
  induction ls as [|l ls IH]; intros w Hr.
  - cbn. split; [exact Hr|]. split.
    + intros pre id post E. destruct pre; discriminate E.
    + intros id rest E. discriminate E.
  - cbn [run].
    pose proof (reach_step l w Hr) as Hr1.
    pose proof (step_saved_before_launch l w (fst (step l w)) (snd (step l w))
                  (reachable_invariant w Hr) (surjective_pairing _)) as (S1 & N1).
    destruct (step l w) as [w1 e1]. cbn [fst snd] in *.
    destruct (IH w1 Hr1) as (R2 & S2 & N2).
    destruct (run ls w1) as [w2 e2]. cbn [fst snd] in *.
    split; [exact R2|]. split.
    + now apply saved_before_launch_app.
    + intros id rest E. destruct e1 as [|x e1']; cbn in E.
      * now apply (N2 id rest).
      * inversion E as [[Hx Hrest]]. subst x. now apply (N1 id e1').
Qed.

(** *** The hourly limit *)

Lemma check_counter w :
  launchesThisHour (mgr (fst (checkAndResetCounters w)))
  = if hourResetTime (mgr w) <=? clock w then 0 else launchesThisHour (mgr w).
Proof.
  unfold checkAndResetCounters, modify. cbn [fst].
  destruct (hourResetTime (mgr w) <=? clock w);
    cbn [with_mgr mgr clock set_hourResetTime set_launchesThisHour budgetResetTime];
    destruct (budgetResetTime (mgr w) <=? clock w); reflexivity.
Qed.

(** A turn of the loop that starts at or above the limit launches only if
    the hour window has elapsed, and then the counter restarts from 0. *)
Lemma loop_blocked_until_reset w tweetId :
  In (EvLaunch tweetId) (snd (loop w)) ->
  hourlyLimit (mgr w) <= launchesThisHour (mgr w) ->
  hourResetTime (mgr w) <= clock w
  /\ launchesThisHour (mgr (fst (loop w))) = 0.
Proof.
  intros Hin Hlim.
  pose proof (check_frame w) as F. cbv zeta in F.
  destruct F as (_ & _ & _ & Fl & _).
  pose proof (check_counter w) as Hc.
  destruct (loop_spec w) as [Hx | why ms Hne Hpa w1 Hw | id rest Hpa w1 Hqq Hl Hb w2].
  - destruct Hin.
  - destruct Hin as [H|[]]. discriminate H.
  - subst w1. rewrite Fl in Hl.
    assert (Hreset : hourResetTime (mgr w) <= clock w).
    { rewrite Hc in Hl.
      destruct (hourResetTime (mgr w) <=? clock w) eqn:E;
        [now apply Z.leb_le | lia]. }
    split; [exact Hreset|].
    apply Z.leb_le in Hreset. rewrite Hreset in Hc.
    destruct (diskOk w); subst w2; exact Hc.
Qed.


(** C4.  No launch is dispatched while the hourly counter is at or above
    the hourly limit: at every launch of a reachable execution the counter is
    below the limit, and a turn of the loop that starts at or above the
    limit launches only once the hour-reset instant has elapsed, the counter
    restarting from 0.  With limit 2 and three ids enqueued, exactly "a" and
    "b" are dispatched before the loop begins to wait; a timer firing before
    the reset instant dispatches nothing; after the reset instant "c" is
    dispatched with the counter at 0, and the counter is 1 once "c" has
    settled. *)
Theorem C4_hourly_limit_never_exceeded :
  (forall w, reachable w ->
   forall l w' evs tweetId, step l w = (w', evs) ->
     In (EvLaunch tweetId) evs ->
     launchesThisHour (mgr w') < hourlyLimit (mgr w'))
  /\ (forall w tweetId,
        In (EvLaunch tweetId) (snd (loop w)) ->
        hourlyLimit (mgr w) <= launchesThisHour (mgr w) ->
        hourResetTime (mgr w) <= clock w
        /\ launchesThisHour (mgr (fst (loop w))) = 0)
  /\ (let (w1, e1) := run enqueue_three_and_drain limit_two in
      launched e1 = ["a"; "b"]
      /\ last e1 (EvLaunch "") = EvSleep RateLimit 300000
      /\ pc w1 = Sleeping RateLimit (clock w1 + 300000)
      /\ queue (mgr w1) = ["c"]
      /\ launchesThisHour (mgr w1) = 2
      /\ hourlyLimit (mgr w1) = 2
      /\ let (w2, e2) := run [Tick 300000; TimerFires] w1 in
         clock w2 < hourResetTime (mgr w2)
         /\ launched e2 = []
         /\ queue (mgr w2) = ["c"]
         /\ launchesThisHour (mgr w2) = 2
         /\ let (w3, e3) := run [Tick 3060000; TimerFires] w2 in
            hourResetTime (mgr w2) <= clock w3
            /\ launched e3 = ["c"]
            /\ launchesThisHour (mgr w3) = 0
            /\ hourResetTime (mgr w3) = clock w3 + 3600000
            /\ let (w4, e4) := run [LaunchSettles spent_ok] w3 in
               launchesThisHour (mgr w4) = 1
               /\ launched e4 = []
               /\ pc w4 = Idle).
Proof.
  split; [|split].
  - intros w Hr l w' evs tweetId Hstep Hin.
    pose proof (reachable_invariant w Hr) as Inv.
    destruct (step_launch_facts l w w' evs tweetId Inv Hstep Hin)
      as (before & d & _ & _ & _ & _ & _ & _ & Hl & _).
    exact Hl.
  - apply loop_blocked_until_reset.
  - vm_compute. repeat split; try reflexivity; discriminate.
Qed.

Lemma C4_hourly_limit_never_exceeded_witness :
  In (EvLaunch "a") (snd (step (AddToQueue "a") limit_two))
  /\ launchesThisHour (mgr (fst (step (AddToQueue "a") limit_two)))
     < hourlyLimit (mgr (fst (step (AddToQueue "a") limit_two))).
Proof.
  split.
  - vm_compute. right. right. left. reflexivity.
  - apply (proj1 C4_hourly_limit_never_exceeded
             limit_two (reach_boot (mkSettings 2 (inject_Z 1) 120) 1000000 0)
             (AddToQueue "a")
             (fst (step (AddToQueue "a") limit_two))
             (snd (step (AddToQueue "a") limit_two))
             "a").
    + now destruct (step (AddToQueue "a") limit_two).
    + vm_compute. right. right. left. reflexivity.
Defined.

(** *** The statistics after a launch *)


End QueueFacts.

(** ** The encoders *)

Section EncodingFacts.
Import Encoding.

Lemma Z_of_byte_of_Z z : Z_of_byte (byte_of_Z z) = z mod 256.
Proof.
  unfold Z_of_byte, byte_of_Z.
  assert (Hr : 0 <= z mod 256 < 256) by (apply Z.mod_pos_bound; lia).
  destruct (Byte.of_N (Z.to_N (z mod 256))) as [b|] eqn:E.
  - apply Byte.to_of_N in E. rewrite E. apply Z2N.id. lia.
  - apply Byte.of_N_None_iff in E. lia.
Qed.

Lemma le_bytes_length width v : List.length (le_bytes width v) = width.
Proof.
  revert v. induction width as [|w IH]; intros v; cbn; [reflexivity|].
  now rewrite IH.
Qed.

Lemma le_value_le_bytes width v :
  0 <= v < 256 ^ Z.of_nat width -> le_value (le_bytes width v) = v.
Proof.
  revert v. induction width as [|w IH]; intros v Hv.
  - cbn in *. lia.
  - cbn [le_bytes le_value]. rewrite Z_of_byte_of_Z.
    rewrite Z.mod_mod by lia.
    rewrite Nat2Z.inj_succ, Z.pow_succ_r in Hv by lia.
    rewrite IH.
    + pose proof (Z.div_mod v 256). lia.
    + split; [apply Z.div_pos; lia|].
      apply Z.div_lt_upper_bound; lia.
Qed.

(** What [bufferFromUInt64] returns is eight bytes that read back as the
    value. *)
Lemma bufferFromUInt64_spec v b :
  bufferFromUInt64 v = Some b ->
  List.length b = 8%nat /\ le_value b = v /\ 0 <= v < 2 ^ 64.
Proof.
  unfold bufferFromUInt64.
  destruct (Z.leb_spec 0 v) as [H0|H0]; cbn [andb]; [|discriminate].
  destruct (Z.ltb_spec v (2 ^ 64)) as [H1|H1]; [|discriminate].
  intros H. assert (E : b = le_bytes 8 v) by congruence. rewrite E.
  split; [apply le_bytes_length|]. split; [|lia].
  apply le_value_le_bytes. change (256 ^ Z.of_nat 8) with (2 ^ 64). lia.
Qed.

Lemma readUInt64LE_first (a rest : list Byte.byte) :
  List.length a = 8%nat -> readUInt64LE (a ++ rest) 0 = Some (le_value a).
Proof.
  intros Ha. unfold readUInt64LE. cbn [skipn].
  rewrite firstn_app, Ha, Nat.sub_diag, firstn_O, app_nil_r.
  rewrite <- Ha, firstn_all, Ha. reflexivity.
Qed.

Lemma readUInt64LE_skip (a rest : list Byte.byte) (offset : nat) :
  readUInt64LE (a ++ rest) (List.length a + offset) = readUInt64LE rest offset.
Proof.
  unfold readUInt64LE. rewrite skipn_app.
  rewrite skipn_all2 by lia.
  replace (List.length a + offset - List.length a)%nat with offset by lia.
  reflexivity.
Qed.

(** A payload of three 64-bit fields reads back field by field. *)
Lemma three_fields_read_back (code amount minimum : list Byte.byte) :
  List.length code = 8%nat -> List.length amount = 8%nat ->
  List.length minimum = 8%nat ->
  readUInt64LE (code ++ amount ++ minimum) 0 = Some (le_value code)
  /\ readUInt64LE (code ++ amount ++ minimum) 8 = Some (le_value amount)
  /\ readUInt64LE (code ++ amount ++ minimum) 16 = Some (le_value minimum).
Proof.
  intros Hc Ha Hm. split; [now apply readUInt64LE_first|]. split.
  - replace 8%nat with (List.length code + 0)%nat at 1 by lia.
    rewrite readUInt64LE_skip. now apply readUInt64LE_first.
  - replace 16%nat with (List.length code + 8)%nat at 1 by lia.
    rewrite readUInt64LE_skip.
    replace 8%nat with (List.length amount + 0)%nat at 1 by lia.
    rewrite readUInt64LE_skip.
    pose proof (readUInt64LE_first minimum [] Hm) as H.
    now rewrite app_nil_r in H.
Qed.

End EncodingFacts.

(** ** sell.ts *)

Section SellFacts.
Import Solana Encoding Js Accounts Sell Wire.
Context {L : Lib} (rpc : Rpc).

Lemma submitted_app a b : submitted (a ++ b) = submitted a ++ submitted b.
Proof.
  induction a as [|e a IH]; [reflexivity|].
  destruct e; cbn; rewrite ?IH; reflexivity.
Qed.

(** The poll for the mint only asks for account information and sleeps. *)
Lemma pollMint_log tokenMint attempts log :
  exists extra,
    snd (pollMint rpc tokenMint attempts log) = log ++ extra
    /\ submitted extra = [].
Proof.
  revert log. induction attempts as [|n IH]; intros log.
  - exists []. cbn. now rewrite app_nil_r.
  - cbn [pollMint]. unfold bind, call.
    destruct (getAccountInfo rpc (List.length log) tokenMint) as [[|]|msg].
    + exists [EvGetAccountInfo tokenMint]. now split.
    + destruct n as [|n'].
      * unfold ret at 1.
        destruct (IH (log ++ [EvGetAccountInfo tokenMint])) as (extra & E & S).
        exists (EvGetAccountInfo tokenMint :: extra).
        rewrite E, <- app_assoc. now split.
      * unfold sleep at 1.
        destruct (IH ((log ++ [EvGetAccountInfo tokenMint]) ++ [EvSleep 2000]))
          as (extra & E & S).
        exists (EvGetAccountInfo tokenMint :: EvSleep 2000 :: extra).
        rewrite E, <- !app_assoc. now split.
    + exists [EvGetAccountInfo tokenMint]. now split.
Qed.

(** A branch that ends before anything was submitted. *)
Ltac nothing_submitted :=
  let E := fresh "E" in
  let Hin := fresh "Hin" in
  intros E Hin; cbn in E; injection E as <- <-;
  rewrite ?submitted_app in Hin;
  repeat match goal with
         | S : submitted _ = [] |- _ => rewrite S in Hin
         end;
  cbn in Hin; contradiction.

Lemma validateSellConfig_true config valid :
  validateSellConfig config = Ok valid -> valid = true.
Proof.
  unfold validateSellConfig.
  repeat match goal with
         | |- context [if ?c then _ else _] => destruct c
         end; congruence.
Qed.

Lemma sellToken_submitted config privateKey result log ixs :
  sellToken rpc config privateKey = (result, log) ->
  In ixs (submitted log) ->
  exists payer tokenMint pre balance post,
    payerOf privateKey = Some payer
    /\ newPublicKey (Sell.tokenMint config) = Some tokenMint
    /\ validateSellConfig (withTokenAmount config (inject_Z 1)) = Ok true
    /\ let owner := publicKey payer in
       let account := getAssociatedTokenAddress tokenMint owner in
       log = pre ++ EvGetTokenAccountBalance account
                 :: EvCreateTransaction ixs owner :: post
       /\ submitted pre = []
       /\ getTokenAccountBalance rpc (List.length pre) account = Ok balance
       /\ sellInstructions tokenMint owner account balance = Some ixs
       /\ (forall other, In other (submitted post) -> other = ixs).
Proof.
  unfold sellToken, try_catch at 1, sellToken_try.
  unfold bind at 1.
  destruct (payerOf privateKey) as [payer|] eqn:Hpayer; [|nothing_submitted].
  cbn [orThrow ret].
  destruct (validateSellConfig (withTokenAmount config (inject_Z 1)))
    as [valid|msg] eqn:Hvalid; [|nothing_submitted].
  apply validateSellConfig_true in Hvalid as Hv. subst valid.
  unfold bind at 1.
  destruct (newPublicKey (Sell.tokenMint config)) as [tokenMint|] eqn:Hmint;
    [|nothing_submitted].
  cbn [orThrow ret].
  unfold bind at 1.
  destruct (pollMint_log tokenMint 5 []) as (pre & Hpre & Spre).
  destruct (pollMint rpc tokenMint 5 []) as [found log1].
  cbn [snd app] in Hpre. subst log1.
  destruct found as [found|msg]; [|nothing_submitted].
  unfold bind at 1.
  destruct found; [|nothing_submitted].
  cbn [ret].
  set (owner := publicKey payer).
  set (account := getAssociatedTokenAddress tokenMint owner).
  unfold bind at 1, call at 1.
  destruct (getTokenAccountBalance rpc (List.length pre) account)
    as [balance|msg] eqn:Hbal; [|nothing_submitted].
  unfold bind at 1.
  destruct (sellInstructions tokenMint owner account balance)
    as [instructions|] eqn:Hix; [|nothing_submitted].
  cbn [orThrow ret].
  revert result log.
  match goal with
  | |- forall result log, _ = (result, log) -> _ -> @?G log =>
      assert (Done : forall post,
                 (forall other, In other (submitted post) -> other = instructions) ->
                 forall log,
                   log = pre ++ EvGetTokenAccountBalance account
                             :: EvCreateTransaction instructions owner :: post ->
                   In ixs (submitted log) -> G log)
  end.
  { intros post Hpost log -> Hin. cbv beta.
    rewrite !submitted_app, Spre in Hin. cbn in Hin.
    assert (ixs = instructions) as ->.
    { destruct Hin as [H|H]; [now subst | now apply Hpost]. }
    exists payer, tokenMint, pre, balance, post.
    cbv zeta. fold owner. fold account. repeat split; assumption. }
  intros result log.
  unfold bind at 1, call at 1.
  destruct (createTransaction rpc
              (List.length (pre ++ [EvGetTokenAccountBalance account]))
              instructions) as [[]|msg].
  2: { intros E Hin. cbn in E. injection E as <- <-.
       apply (Done []); [intros other []| |exact Hin].
       now rewrite <- app_assoc. }
  unfold bind at 1, call at 1.
  destruct (sendAndConfirmTransactionWrapper rpc _ instructions)
    as [[sig|]|msg].
  - unfold bind at 1, try_catch, bind, sleep, call.
    destruct (getParsedTransaction rpc _ sig) as [txInfo|msg];
      intros E Hin; cbn in E; injection E as <- <-;
      (eapply Done; [| |exact Hin];
       [|rewrite <- !app_assoc; cbn [app]; reflexivity]);
      cbn; intros other [H|[]]; now subst.
  - intros E Hin. cbn in E. injection E as <- <-.
    eapply Done; [| |exact Hin];
      [|rewrite <- !app_assoc; cbn [app]; reflexivity].
    cbn. intros other [H|[]]; now subst.
  - intros E Hin. cbn in E. injection E as <- <-.
    eapply Done; [| |exact Hin];
      [|rewrite <- !app_assoc; cbn [app]; reflexivity].
    cbn. intros other [H|[]]; now subst.
Qed.

(** The instruction list [sellInstructions] builds: two compute-budget
    directives and one sell, whose fields read back as the balance and 0. *)
Lemma sellInstructions_fields tokenMint owner account balance ixs :
  sellInstructions tokenMint owner account balance = Some ixs ->
  exists ix,
    ixs = [SetComputeUnitLimit 100000; SetComputeUnitPrice 1000; Program ix]
    /\ programInstructions ixs = [ix]
    /\ keys ix = sellKeys tokenMint owner account
    /\ programId ix = PUMP_FUN_PROGRAM
    /\ discriminator ix = Some sell_discriminator
    /\ amounts ix = Some (balance, 0)
    /\ 0 <= balance < 2 ^ 64.
Proof.
  unfold sellInstructions.
  destruct (bufferFromUInt64 sell_discriminator) as [code|] eqn:Hcode;
    [|discriminate].
  destruct (bufferFromUInt64 balance) as [amount|] eqn:Hamount; [|discriminate].
  destruct (bufferFromUInt64 0) as [minimum|] eqn:Hmin; [|discriminate].
  intros [= <-].
  apply bufferFromUInt64_spec in Hcode as (Lc & Vc & _).
  apply bufferFromUInt64_spec in Hamount as (La & Va & Ra).
  apply bufferFromUInt64_spec in Hmin as (Lm & Vm & _).
  destruct (three_fields_read_back code amount minimum Lc La Lm) as (R0 & R8 & R16).
  eexists. split; [reflexivity|].
  unfold discriminator, amounts. cbn [programInstructions keys programId data].
  rewrite R0, R8, R16, Vc, Va, Vm. repeat split; try reflexivity; lia.
Qed.

Lemma sellToken_ignores_tokenAmount config privateKey amount :
  sellToken rpc (withTokenAmount config amount) privateKey
  = sellToken rpc config privateKey.
Proof. reflexivity. Qed.

Lemma validate_ignores_nonnegative_minimum config m :
  (0 <= minSolOut config)%Q -> (0 <= m)%Q ->
  validateSellConfig (withTokenAmount (withMinSolOut config m) (inject_Z 1))
  = validateSellConfig (withTokenAmount config (inject_Z 1)).
Proof.
  intros H0 Hm. unfold validateSellConfig.
  cbn [withTokenAmount withMinSolOut tokenMint tokenAmount minSolOut slippage
       priorityFee].
  assert (E1 : Qltb m 0 = false).
  { unfold Qltb. apply Qle_bool_iff in Hm. now rewrite Hm. }
  assert (E2 : Qltb (minSolOut config) 0 = false).
  { unfold Qltb. apply Qle_bool_iff in H0. now rewrite H0. }
  now rewrite E1, E2.
Qed.

Lemma sellToken_ignores_minSolOut config privateKey m :
  (0 <= minSolOut config)%Q -> (0 <= m)%Q ->
  sellToken rpc (withMinSolOut config m) privateKey
  = sellToken rpc config privateKey.
Proof.
  intros H0 Hm. unfold sellToken, sellToken_try.
  rewrite (validate_ignores_nonnegative_minimum config m H0 Hm).
  reflexivity.
Qed.

Lemma actualSolReceived_nonneg owner txInfo :
  (0 <= actualSolReceived owner txInfo)%Q.
Proof.
  unfold actualSolReceived.
  destruct txInfo as [tx|]; [|apply Qle_refl].
  destruct (meta tx) as [[preBalances postBalances]|]; [|apply Qle_refl].
  destruct (findIndex owner (accountKeys tx)) as [i|]; [|apply Qle_refl].
  destruct (nth_error preBalances i) as [a|]; [|apply Qle_refl].
  destruct (nth_error postBalances i) as [b|]; [|apply Qle_refl].
  destruct (Z.ltb_spec 0 (b - a)) as [H|H]; [|apply Qle_refl].
  apply Qle_shift_div_l; [reflexivity|]. rewrite Qmult_0_l.
  rewrite <- (Zle_Qle 0). lia.
Qed.

(** What a successful [sellToken] reports as received: the value of
    [actualSolReceived] on the record the network returned for the
    signature, or zero. *)
Lemma sellToken_received config privateKey result log :
  sellToken rpc config privateKey = (result, log) ->
  success result = true ->
  exists payer q,
    payerOf privateKey = Some payer
    /\ solReceived result = Some q
    /\ ((q == 0)%Q
        \/ exists calls sig txInfo,
             getParsedTransaction rpc calls sig = Ok txInfo
             /\ signature result = Some sig
             /\ q = actualSolReceived (publicKey payer) txInfo).
Proof.
  unfold sellToken, try_catch at 1, sellToken_try.
  unfold bind at 1.
  destruct (payerOf privateKey) as [payer|] eqn:Hpayer;
    [|cbn; intros [= <- <-]; discriminate].
  cbn [orThrow ret].
  destruct (validateSellConfig (withTokenAmount config (inject_Z 1)))
    as [valid|msg]; [|cbn; intros [= <- <-]; discriminate].
  unfold bind at 1.
  destruct (newPublicKey (Sell.tokenMint config)) as [tokenMint|];
    [|cbn; intros [= <- <-]; discriminate].
  cbn [orThrow ret].
  unfold bind at 1.
  destruct (pollMint rpc tokenMint 5 []) as [found log1].
  destruct found as [found|msg]; [|cbn; intros [= <- <-]; discriminate].
  unfold bind at 1.
  destruct found; [|cbn; intros [= <- <-]; discriminate].
  cbn [ret].
  set (owner := publicKey payer).
  set (account := getAssociatedTokenAddress tokenMint owner).
  unfold bind at 1, call at 1.
  destruct (getTokenAccountBalance rpc (List.length log1) account)
    as [balance|msg]; [|cbn; intros [= <- <-]; discriminate].
  unfold bind at 1.
  destruct (sellInstructions tokenMint owner account balance)
    as [instructions|]; [|cbn; intros [= <- <-]; discriminate].
  cbn [orThrow ret].
  unfold bind at 1, call at 1.
  destruct (createTransaction rpc _ instructions) as [[]|msg];
    [|cbn; intros [= <- <-]; discriminate].
  unfold bind at 1, call at 1.
  destruct (sendAndConfirmTransactionWrapper rpc _ instructions)
    as [[sig|]|msg]; try (cbn; intros [= <- <-]; discriminate).
  unfold bind at 1, try_catch, bind, sleep, call.
  destruct (getParsedTransaction rpc _ sig) as [txInfo|msg] eqn:Htx.
  - cbn [ret]. intros [= <- <-] _. cbn [solReceived signature].
    destruct (truthy (actualSolReceived owner txInfo)) eqn:Ht.
    + exists payer, (actualSolReceived owner txInfo).
      split; [reflexivity|]. split; [reflexivity|]. right.
      eexists _, sig, txInfo. repeat split. exact Htx.
    + eexists payer, _. split; [reflexivity|]. split; [reflexivity|].
      left. reflexivity.
  - cbn [ret]. intros [= <- <-] _. cbn [solReceived signature].
    eexists payer, _. split; [reflexivity|]. split; [reflexivity|].
    left. reflexivity.
Qed.

(** A config that fails validation is turned down with no call made. *)
Lemma sellToken_rejects config privateKey msg :
  validateSellConfig (withTokenAmount config (inject_Z 1)) = Err msg ->
  success (fst (sellToken rpc config privateKey)) = false
  /\ snd (sellToken rpc config privateKey) = []
  /\ exists text, error (fst (sellToken rpc config privateKey)) = Some text.
Proof.
  intros Hv. unfold sellToken, try_catch, sellToken_try, bind.
  destruct (payerOf privateKey) as [payer|]; cbn [orThrow ret throw].
  - rewrite Hv. cbn. repeat split. eexists. reflexivity.
  - cbn. repeat split. eexists. reflexivity.
Qed.

Lemma slippage_out_of_range_rejected config :
  ((slippage config < 0)%Q \/ (100 < slippage config)%Q) ->
  exists msg,
    validateSellConfig (withTokenAmount config (inject_Z 1)) = Err msg.
Proof.
  intros Hs. unfold validateSellConfig.
  cbn [withTokenAmount tokenMint tokenAmount minSolOut slippage priorityFee].
  assert (E : Qltb (slippage config) 0
              || Qltb (inject_Z 100) (slippage config) = true).
  { unfold Qltb. apply orb_true_iff.
    destruct Hs as [H|H]; [left|right];
      apply negb_true_iff; apply not_true_is_false;
      intro C; apply Qle_bool_iff in C;
      apply Qle_not_lt in C; now apply C. }
  destruct (is_empty (Sell.tokenMint config)); [eexists; reflexivity|].
  cbn.
  destruct (Qltb (minSolOut config) 0); [eexists; reflexivity|].
  rewrite E. eexists; reflexivity.
Qed.

End SellFacts.

(** C6.  Whatever instruction list [sellToken] hands to the network, it was
    built right after the balance of the owner's token account was fetched
    (the fetch is the call just before [createTransaction], and nothing was
    submitted earlier), it holds exactly one program instruction, the sell,
    and the amount field of that instruction reads back as the balance the
    network reported; the [tokenAmount] recorded in the config plays no part:
    any other recorded amount gives the same result and the same calls. *)
Theorem C6_sell_amount_is_live_balance
    (L : Solana.Lib) (rpc : Solana.Rpc) (config : Sell.SellConfig)
    (privateKey : Solana.KeyInput) (result : Sell.SellResult)
    (log : list Solana.Event) (ixs : list Solana.Instruction) :
  Sell.sellToken rpc config privateKey = (result, log) ->
  In ixs (Wire.submitted log) ->
  exists payer tokenMint pre balance post ix,
    Sell.payerOf privateKey = Some payer
    /\ Solana.newPublicKey (Sell.tokenMint config) = Some tokenMint
    /\ let owner := Solana.publicKey payer in
       let account := Solana.getAssociatedTokenAddress tokenMint owner in
       log = pre ++ Solana.EvGetTokenAccountBalance account
                 :: Solana.EvCreateTransaction ixs owner :: post
       /\ Wire.submitted pre = []
       /\ Solana.getTokenAccountBalance rpc (List.length pre) account
          = Solana.Ok balance
       /\ Wire.programInstructions ixs = [ix]
       /\ Wire.discriminator ix = Some Encoding.sell_discriminator
       /\ (exists minimum, Wire.amounts ix = Some (balance, minimum))
       /\ (forall recorded,
             Sell.sellToken rpc (Sell.withTokenAmount config recorded) privateKey
             = (result, log)).
Proof.
  intros Hrun Hin.
  destruct (sellToken_submitted rpc config privateKey result log ixs Hrun Hin)
    as (payer & tokenMint & pre & balance & post & Hp & Hm & _ & H).
  cbv zeta in H. destruct H as (Hlog & Hpre & Hbal & Hix & _).
  destruct (sellInstructions_fields _ _ _ _ _ Hix)
    as (ix & _ & Hprog & _ & _ & Hd & Ha & _).
  exists payer, tokenMint, pre, balance, post, ix.
  cbv zeta. repeat split; try assumption.
  - now exists 0.
  - intros recorded. now rewrite sellToken_ignores_tokenAmount.
Qed.

Lemma C6_sell_amount_is_live_balance_witness :
  let config := Sell.mkConfig "Mint" (inject_Z 153285714285714) 0%Q
                              (inject_Z 5) (1 # 10000)%Q in
  let run := Sell.sellToken (L := Demo.lib) (Demo.rpc 42 1000 2000) config Demo.wallet in
  exists ixs ix,
    In ixs (Wire.submitted (snd run))
    /\ Wire.programInstructions ixs = [ix]
    /\ exists minimum, Wire.amounts ix = Some (42, minimum).
Proof.
  cbv zeta.
  set (config := Sell.mkConfig "Mint" (inject_Z 153285714285714) 0%Q
                               (inject_Z 5) (1 # 10000)%Q).
  set (run := Sell.sellToken (L := Demo.lib) (Demo.rpc 42 1000 2000) config Demo.wallet).
  assert (Hin : exists ixs, In ixs (Wire.submitted (snd run)))
    by (eexists; vm_compute; left; reflexivity).
  destruct Hin as (ixs & Hin).
  destruct (C6_sell_amount_is_live_balance Demo.lib (Demo.rpc 42 1000 2000)
              config Demo.wallet (fst run) (snd run) ixs
              (surjective_pairing run) Hin)
    as (payer & tokenMint & pre & balance & post & ix & _ & _ & H).
  cbv zeta in H. destruct H as (_ & _ & Hbal & Hprog & _ & Hamt & _).
  exists ixs, ix. split; [exact Hin|]. split; [exact Hprog|].
  cbn in Hbal. injection Hbal as <-. exact Hamt.
Defined.

(** C10.  [sellToken] ignores the [tokenAmount] of its config, and ignores
    [minSolOut] beyond its sign: changing either (among non-negative
    minimums) changes neither the result nor the calls.  Every instruction
    list it submits holds one sell whose amount is the balance the network
    reported and whose minimum output is 0.  The orchestrator's config
    (tokenAmount 0, minSolOut 0.04) would fail [validateSellConfig] as it
    stands, passes it with the amount replaced by 1 as [sellToken] does, and
    has a positive minimum that the instruction does not carry. *)
Theorem C10_sell_ignores_amount_and_minimum
    (L : Solana.Lib) (rpc : Solana.Rpc) (config : Sell.SellConfig)
    (privateKey : Solana.KeyInput) :
  (forall amount,
      Sell.sellToken rpc (Sell.withTokenAmount config amount) privateKey
      = Sell.sellToken rpc config privateKey)
  /\ (forall m, (0 <= Sell.minSolOut config)%Q -> (0 <= m)%Q ->
        Sell.sellToken rpc (Sell.withMinSolOut config m) privateKey
        = Sell.sellToken rpc config privateKey)
  /\ (forall result log ixs,
        Sell.sellToken rpc config privateKey = (result, log) ->
        In ixs (Wire.submitted log) ->
        exists account calls balance ix,
          Solana.getTokenAccountBalance rpc calls account = Solana.Ok balance
          /\ Wire.programInstructions ixs = [ix]
          /\ Wire.amounts ix = Some (balance, 0))
  /\ (forall tokenAddress, Js.is_empty tokenAddress = false ->
        let c := Orchestrator.sellConfig tokenAddress in
        (0 < Sell.minSolOut c)%Q
        /\ Sell.validateSellConfig c
           = Solana.Err "Token amount must be greater than 0"
        /\ Sell.validateSellConfig (Sell.withTokenAmount c (inject_Z 1))
           = Solana.Ok true).
Proof.
  split; [|split; [|split]].
  - intros amount. apply sellToken_ignores_tokenAmount.
  - intros m H0 Hm. now apply sellToken_ignores_minSolOut.
  - intros result log ixs Hrun Hin.
    destruct (sellToken_submitted rpc config privateKey result log ixs Hrun Hin)
      as (payer & tokenMint & pre & balance & post & _ & _ & _ & H).
    cbv zeta in H. destruct H as (_ & _ & Hbal & Hix & _).
    destruct (sellInstructions_fields _ _ _ _ _ Hix)
      as (ix & _ & Hprog & _ & _ & _ & Ha & _).
    eexists _, _, balance, ix. repeat split; eassumption.
  - intros tokenAddress Hne. cbv zeta.
    unfold Orchestrator.sellConfig, Sell.validateSellConfig.
    cbn [Sell.withTokenAmount Sell.tokenMint Sell.tokenAmount Sell.minSolOut
         Sell.slippage Sell.priorityFee].
    rewrite Hne. repeat split.
Qed.

Lemma C10_sell_ignores_amount_and_minimum_witness :
  let config := Orchestrator.sellConfig "Mint" in
  let run := Sell.sellToken (L := Demo.lib) (Demo.rpc 42 1000 2000) config Demo.wallet in
  (0 < Sell.minSolOut config)%Q
  /\ Sell.success (fst run) = true
  /\ exists ixs ix,
       In ixs (Wire.submitted (snd run))
       /\ Wire.programInstructions ixs = [ix]
       /\ Wire.amounts ix = Some (42, 0).
Proof.
  cbv zeta.
  set (run := Sell.sellToken (L := Demo.lib) (Demo.rpc 42 1000 2000)
                (Orchestrator.sellConfig "Mint") Demo.wallet).
  split; [reflexivity|]. split; [vm_compute; reflexivity|].
  assert (Hin : exists ixs, In ixs (Wire.submitted (snd run)))
    by (eexists; vm_compute; left; reflexivity).
  destruct Hin as (ixs & Hin).
  destruct (proj1 (proj2 (proj2
              (C10_sell_ignores_amount_and_minimum Demo.lib
                 (Demo.rpc 42 1000 2000) (Orchestrator.sellConfig "Mint")
                 Demo.wallet)))
              (fst run) (snd run) ixs (surjective_pairing run) Hin)
    as (account & calls & balance & ix & Hbal & Hprog & Hamt).
  exists ixs, ix. split; [exact Hin|]. split; [exact Hprog|].
  cbn in Hbal. injection Hbal as <-. exact Hamt.
Defined.

(** ** launch.ts *)

Section LaunchFacts.
Import Solana Encoding Js Accounts Launch Wire.
Context {L : Lib} (rpc : Rpc).

Lemma programInstructions_app a b :
  programInstructions (a ++ b) = programInstructions a ++ programInstructions b.
Proof.
  induction a as [|i a IH]; [reflexivity|].
  destruct i; cbn; rewrite ?IH; reflexivity.
Qed.

Lemma priorityInstructions_no_program fee :
  programInstructions (priorityInstructions fee) = [].
Proof. unfold priorityInstructions. now destruct (Qltb 0 fee). Qed.

Lemma keyPairOf_log privateKey log :
  snd (keyPairOf privateKey log) = log.
Proof.
  destruct privateKey as [text|k]; cbn; [|reflexivity].
  destruct (fromSecretKeyBase64 text); [reflexivity|].
  now destruct (getKeyPairFromPrivateKey text).
Qed.

(** A config without a name, a symbol or a metadata URL is turned down
    first thing, with no call made. *)
Lemma launchToken_rejects_missing config privateKey :
  is_empty (name config) || is_empty (symbol config)
    || is_empty (metadataUrl config) = true ->
  launchToken rpc config privateKey
  = (mkResult false None None (Some "Token name and symbol are required"), []).
Proof.
  intros H. unfold launchToken, try_catch, launchToken_try, bind.
  rewrite H. reflexivity.
Qed.

(** The program instructions of every list [launchToken] submits: the
    create, then the buy when there is an initial buy. *)
Lemma launchToken_submitted config privateKey result log ixs :
  launchToken rpc config privateKey = (result, log) ->
  In ixs (submitted log) ->
  exists payer create,
    fst (keyPairOf privateKey []) = Ok payer
    /\ let owner := publicKey payer in
       let mint :=
         publicKey (match mintKeypair config with
                    | Some k => k
                    | None => generate
                    end) in
       programId create = PUMP_FUN_PROGRAM
       /\ keys create = createKeys mint owner
       /\ (programInstructions ixs = [create]
           \/ exists buy,
                programInstructions ixs = [create; buy]
                /\ programId buy = PUMP_FUN_PROGRAM
                /\ keys buy
                   = buyKeys mint owner (getAssociatedTokenAddress mint owner)).
Proof.
  unfold launchToken, try_catch at 1, launchToken_try.
  unfold bind at 1.
  destruct (is_empty (name config) || is_empty (symbol config)
            || is_empty (metadataUrl config));
    [cbn; intros [= <- <-] []|].
  cbn [ret].
  unfold bind at 1.
  pose proof (keyPairOf_log privateKey []) as Hklog.
  destruct (keyPairOf privateKey []) as [[payer|msg] log0];
    cbn [snd] in Hklog; subst log0; [|cbn; intros [= <- <-] []].
  set (owner := publicKey payer).
  set (mint := publicKey (match mintKeypair config with
                          | Some k => k
                          | None => generate
                          end)).
  unfold bind at 1.
  destruct (bufferFromString (name config)) as [nameBuffer|];
    [|cbn; intros [= <- <-] []].
  cbn [orThrow ret]. unfold bind at 1.
  destruct (bufferFromString (symbol config)) as [symbolBuffer|];
    [|cbn; intros [= <- <-] []].
  cbn [orThrow ret]. unfold bind at 1.
  destruct (bufferFromString (metadataUrl config)) as [uriBuffer|];
    [|cbn; intros [= <- <-] []].
  cbn [orThrow ret].
  set (create := mkIx (createKeys mint owner) PUMP_FUN_PROGRAM _).
  set (fee := priorityInstructions _).
  assert (Hfee : programInstructions fee = [])
    by apply priorityInstructions_no_program.
  assert (Hck : keys create = createKeys mint owner) by reflexivity.
  assert (Hcp : programId create = PUMP_FUN_PROGRAM) by reflexivity.
  clearbody create fee.
  assert (Done : forall buy,
             (programInstructions buy = []
              \/ exists b, programInstructions buy = [b]
                   /\ programId b = PUMP_FUN_PROGRAM
                   /\ keys b = buyKeys mint owner
                                 (getAssociatedTokenAddress mint owner)) ->
             ixs = fee ++ [Program create] ++ buy ->
             exists payer0 create0,
               fst (@Ok Keypair payer, @nil Event) = Ok payer0
               /\ let owner := publicKey payer0 in
                  let mint :=
                    publicKey (match mintKeypair config with
                               | Some k => k
                               | None => generate
                               end) in
                  programId create0 = PUMP_FUN_PROGRAM
                  /\ keys create0 = createKeys mint owner
                  /\ (programInstructions ixs = [create0]
                      \/ exists buy0,
                           programInstructions ixs = [create0; buy0]
                           /\ programId buy0 = PUMP_FUN_PROGRAM
                           /\ keys buy0
                              = buyKeys mint owner
                                  (getAssociatedTokenAddress mint owner))).
  { intros buy Hbuy ->. exists payer, create. split; [reflexivity|].
    cbv zeta. fold owner. fold mint. split; [exact Hcp|]. split; [exact Hck|].
    rewrite !programInstructions_app, Hfee. cbn [programInstructions app].
    destruct Hbuy as [E|(b & E & Hp & Hk)]; rewrite E.
    - now left.
    - right. now exists b. }
  unfold bind at 1.
  destruct (Qltb 0 match initialBuy config with Some b => b | None => 0%Q end).
  - (* with an initial buy *)
    unfold bind at 1, call at 1.
    destruct (getAccountInfo rpc _ _) as [tokenAccountInfo|msg];
      [|cbn; intros [= <- <-] []].
    destruct (buyAmounts _ _) as [quote maxSolCost].
    unfold bind at 1.
    destruct quote as [tokenOut|]; [|cbn; intros [= <- <-] []].
    cbn [orThrow ret]. unfold bind at 1.
    destruct (bufferFromUInt64 buy_discriminator) as [code|];
      [|cbn; intros [= <- <-] []].
    cbn [orThrow ret]. unfold bind at 1.
    destruct (bufferFromUInt64 tokenOut) as [amount|];
      [|cbn; intros [= <- <-] []].
    cbn [orThrow ret]. unfold bind at 1.
    destruct (bufferFromUInt64 maxSolCost) as [cost|];
      [|cbn; intros [= <- <-] []].
    cbn [orThrow ret].
    set (buyIx := mkIx (buyKeys mint owner (getAssociatedTokenAddress mint owner))
                       PUMP_FUN_PROGRAM _).
    assert (Hbk : keys buyIx
                  = buyKeys mint owner (getAssociatedTokenAddress mint owner))
      by reflexivity.
    assert (Hbp : programId buyIx = PUMP_FUN_PROGRAM) by reflexivity.
    clearbody buyIx.
    set (ensure := if tokenAccountInfo then [] else _).
    assert (Hbuy : programInstructions (ensure ++ [Program buyIx]) = [buyIx])
      by (subst ensure; destruct tokenAccountInfo; reflexivity).
    clearbody ensure.
    unfold bind at 1, call at 1.
    destruct (createTransaction rpc _ _) as [[]|msg].
    + unfold bind at 1, call at 1.
      destruct (sendAndConfirmTransactionWrapper rpc _ _) as [[sig|]|msg];
        cbn; intros [= <- <-] Hin;
        rewrite ?submitted_app in Hin; cbn in Hin;
        (apply (Done (ensure ++ [Program buyIx]));
         [right; now exists buyIx
         |destruct Hin as [H|[H|[]]]; now rewrite <- H]).
    + cbn. intros [= <- <-] Hin.
      rewrite ?submitted_app in Hin; cbn in Hin.
      apply (Done (ensure ++ [Program buyIx]));
        [right; now exists buyIx | destruct Hin as [H|[]]; now rewrite <- H].
  - (* no initial buy *)
    cbn [ret].
    unfold bind at 1, call at 1.
    destruct (createTransaction rpc _ _) as [[]|msg].
    + unfold bind at 1, call at 1.
      destruct (sendAndConfirmTransactionWrapper rpc _ _) as [[sig|]|msg];
        cbn; intros [= <- <-] Hin;
        (apply (Done []);
         [now left | destruct Hin as [H|[H|[]]]; now rewrite <- H]).
    + cbn. intros [= <- <-] Hin.
      apply (Done []); [now left | destruct Hin as [H|[]]; now rewrite <- H].
Qed.

End LaunchFacts.

(** ** The account lists *)

(** C5 (as the code has it).  The account lists are fixed per kind, in order
    and in flags.  The create list and the sell list are the ones of the
    spec.  The buy list is the spec's with two positions exchanged: after
    system-program come token-program and then creator-vault[writable]; the
    volume accumulators are two accounts, the global one and the user's.
    Every program instruction [launchToken] or [sellToken] submits carries
    one of these lists. *)
Theorem C5_account_lists_per_kind (L : Solana.Lib) (rpc : Solana.Rpc) :
  (forall mint owner account,
      Launch.createKeys mint owner
      = Schema.instantiate Schema.Create mint owner account Schema.spec_create
      /\ Sell.sellKeys mint owner account
         = Schema.instantiate Schema.Sell mint owner account Schema.spec_sell
      /\ Launch.buyKeys mint owner account
         = Schema.instantiate Schema.Buy mint owner account Schema.launch_buy)
  /\ (forall config privateKey result log ixs,
        Launch.launchToken rpc config privateKey = (result, log) ->
        In ixs (Wire.submitted log) ->
        exists mint owner account,
          Forall2 (fun ix schema =>
                     Solana.keys ix
                     = Schema.instantiate (fst schema) mint owner account
                                          (snd schema))
                  (Wire.programInstructions ixs)
                  (firstn (List.length (Wire.programInstructions ixs))
                          [ (Schema.Create, Schema.spec_create);
                            (Schema.Buy, Schema.launch_buy) ])
          /\ Wire.programInstructions ixs <> [])
  /\ (forall config privateKey result log ixs,
        Sell.sellToken rpc config privateKey = (result, log) ->
        In ixs (Wire.submitted log) ->
        exists mint owner account ix,
          Wire.programInstructions ixs = [ix]
          /\ Solana.keys ix
             = Schema.instantiate Schema.Sell mint owner account
                                  Schema.spec_sell).
Proof.
  split; [|split].
  - intros mint owner account. repeat split.
  - intros config privateKey result log ixs Hrun Hin.
    destruct (launchToken_submitted rpc config privateKey result log ixs Hrun Hin)
      as (payer & create & _ & H).
    cbv zeta in H. destruct H as (_ & Hck & Hprog).
    eexists _, _, _.
    destruct Hprog as [E|(buy & E & _ & Hbk)]; rewrite E; cbn [List.length firstn].
    + split; [|discriminate]. constructor; [|constructor]. exact Hck.
    + split; [|discriminate].
      constructor; [exact Hck|]. constructor; [|constructor]. exact Hbk.
  - intros config privateKey result log ixs Hrun Hin.
    destruct (sellToken_submitted rpc config privateKey result log ixs Hrun Hin)
      as (payer & tokenMint & pre & balance & post & _ & _ & _ & H).
    cbv zeta in H. destruct H as (_ & _ & _ & Hix & _).
    destruct (sellInstructions_fields _ _ _ _ _ Hix)
      as (ix & _ & Hprog & Hk & _).
    eexists _, _, _, ix. split; [exact Hprog|]. exact Hk.
Qed.

Lemma C5_account_lists_per_kind_witness :
  let run := Launch.launchToken (L := Demo.lib) (Demo.rpc 42 1000 2000)
               (Orchestrator.launchConfig "Token" "TKN" "https://meta")
               Demo.wallet in
  exists ixs, In ixs (Wire.submitted (snd run))
    /\ exists mint owner account,
         Forall2 (fun ix schema =>
                    Solana.keys ix
                    = Schema.instantiate (L := Demo.lib) (fst schema) mint owner account
                                         (snd schema))
                 (Wire.programInstructions ixs)
                 (firstn (List.length (Wire.programInstructions ixs))
                         [ (Schema.Create, Schema.spec_create);
                           (Schema.Buy, Schema.launch_buy) ])
         /\ Wire.programInstructions ixs <> [].
Proof.
  cbv zeta.
  set (run := Launch.launchToken (L := Demo.lib) (Demo.rpc 42 1000 2000)
                (Orchestrator.launchConfig "Token" "TKN" "https://meta")
                Demo.wallet).
  assert (Hin : exists ixs, In ixs (Wire.submitted (snd run)))
    by (eexists; vm_compute; left; reflexivity).
  destruct Hin as (ixs & Hin). exists ixs. split; [exact Hin|].
  exact (proj1 (proj2 (C5_account_lists_per_kind Demo.lib (Demo.rpc 42 1000 2000)))
           (Orchestrator.launchConfig "Token" "TKN" "https://meta")
           Demo.wallet (fst run) (snd run) ixs (surjective_pairing run) Hin).
Defined.

(** C5 as the spec states it fails for the buy: the ninth account of the
    list launch.ts builds is the token program, read-only, where the spec
    puts creator-vault[writable]; the tenth is the creator vault. *)
Lemma C5_buy_list_is_not_the_specs :
  let keys := Launch.buyKeys (L := Demo.lib) "Mint" "Wallet" "Account" in
  keys <> Schema.instantiate (L := Demo.lib) Schema.Buy "Mint" "Wallet" "Account"
            Schema.spec_buy
  /\ Schema.flags keys <> Schema.slot_flags Schema.spec_buy
  /\ nth_error keys 8 = Some (Solana.mkMeta Solana.TOKEN_PROGRAM_ID false false)
  /\ nth_error Schema.spec_buy 8 = Some (Schema.writableOnly Schema.CreatorVault)
  /\ nth_error keys 9
     = Some (Solana.mkMeta (Accounts.creatorVaultOf (L := Demo.lib) "Wallet")
                           false true).
Proof.
  cbv zeta. split; [|split; [|repeat split]].
  - intros H. apply (f_equal Schema.flags) in H. vm_compute in H. discriminate H.
  - vm_compute. discriminate.
Qed.

(** The quote launch.ts makes for the orchestrator's 0.01 SOL at 10 %
    slippage. *)
Example launch_quote_for_orchestrator :
  Launch.buyAmounts (1 # 100)%Q (inject_Z 10) = (Some 357547484171, 11000000).
Proof. vm_compute. reflexivity. Qed.

(** ** The settlement delta *)

(** C7 (as the code has it).  When the confirmed transaction lists the owner,
    the settlement computation yields the difference postBalance - preBalance
    of the owner's account, a net figure, in SOL (divided by 10^9), when that
    difference is positive, and 0 when it is zero or negative; it is never
    negative.  What a successful [sellToken] reports as received is that
    value for the record the network returned, or zero. *)
Theorem C7_settlement_delta_clamped_at_zero (L : Solana.Lib) (rpc : Solana.Rpc) :
  (forall owner tx preBalances postBalances i preBalance postBalance,
      Solana.meta tx = Some (preBalances, postBalances) ->
      Sell.findIndex owner (Solana.accountKeys tx) = Some i ->
      nth_error preBalances i = Some preBalance ->
      nth_error postBalances i = Some postBalance ->
      (preBalance < postBalance ->
       Sell.actualSolReceived owner (Some tx)
       = (inject_Z (postBalance - preBalance) / inject_Z 1000000000)%Q)
      /\ (postBalance <= preBalance ->
          Sell.actualSolReceived owner (Some tx) = 0%Q))
  /\ (forall owner txInfo, (0 <= Sell.actualSolReceived owner txInfo)%Q)
  /\ (forall config privateKey result log,
        Sell.sellToken rpc config privateKey = (result, log) ->
        Sell.success result = true ->
        exists payer q,
          Sell.payerOf privateKey = Some payer
          /\ Sell.solReceived result = Some q
          /\ ((q == 0)%Q
              \/ exists calls sig txInfo,
                   Solana.getParsedTransaction rpc calls sig = Solana.Ok txInfo
                   /\ Sell.signature result = Some sig
                   /\ q = Sell.actualSolReceived (Solana.publicKey payer) txInfo)).
Proof.
  split; [|split].
  - intros owner tx pre post i a b Hmeta Hidx Hpre Hpost.
    unfold Sell.actualSolReceived. rewrite Hmeta, Hidx, Hpre, Hpost.
    split; intros H.
    + destruct (Z.ltb_spec 0 (b - a)); [reflexivity|lia].
    + destruct (Z.ltb_spec 0 (b - a)); [lia|reflexivity].
  - apply actualSolReceived_nonneg.
  - apply sellToken_received.
Qed.

Lemma C7_settlement_delta_clamped_at_zero_witness :
  let tx := Solana.mkParsed ["Other"; "Wallet"] (Some ([7; 1000], [7; 4000])) in
  Sell.actualSolReceived "Wallet" (Some tx)
  = (inject_Z (4000 - 1000) / inject_Z 1000000000)%Q.
Proof.
  cbv zeta.
  apply (proj1 (proj1 (C7_settlement_delta_clamped_at_zero Demo.lib
                         (Demo.rpc 42 1000 4000))
                  "Wallet"
                  (Solana.mkParsed ["Other"; "Wallet"] (Some ([7; 1000], [7; 4000])))
                  [7; 1000] [7; 4000] 1%nat 1000 4000
                  eq_refl eq_refl eq_refl eq_refl)).
  lia.
Defined.

(** C7 as the spec states it fails on a negative difference: a sell that is
    confirmed while the owner's balance went from 2,000,000,000 to
    1,999,995,000 lamports (the fee, and no proceeds) reports 0 received, not
    -5000 lamports nor -0.000005 SOL. *)
Lemma C7_negative_difference_is_reported_as_zero :
  let run := Sell.sellToken (L := Demo.lib) (Demo.rpc 42 2000000000 1999995000)
               (Orchestrator.sellConfig "Mint") Demo.wallet in
  let tx := Solana.mkParsed ["Other"; "Wallet"]
              (Some ([7; 2000000000], [7; 1999995000])) in
  1999995000 - 2000000000 = -5000
  /\ Sell.success (fst run) = true
  /\ In (Solana.EvGetParsedTransaction "Signature") (snd run)
  /\ (exists q, Sell.solReceived (fst run) = Some q /\ (q == 0)%Q)
  /\ Sell.actualSolReceived "Wallet" (Some tx) = 0%Q
  /\ ~ (Sell.actualSolReceived "Wallet" (Some tx) == inject_Z (-5000))%Q
  /\ ~ (Sell.actualSolReceived "Wallet" (Some tx)
        == inject_Z (-5000) / inject_Z 1000000000)%Q.
Proof.
  cbv zeta. split; [reflexivity|]. split; [vm_compute; reflexivity|].
  split; [vm_compute; tauto|].
  split; [eexists; split; [vm_compute; reflexivity|reflexivity]|].
  split; [vm_compute; reflexivity|].
  split; vm_compute; discriminate.
Qed.

(** ** Validation *)

Lemma Qltb_true_iff a b : Js.Qltb a b = true <-> (a < b)%Q.
Proof.
  unfold Js.Qltb. rewrite negb_true_iff. split.
  - intros H. apply Qnot_le_lt. intros C. apply Qle_bool_iff in C. congruence.
  - intros H. apply not_true_is_false. intros C. apply Qle_bool_iff in C.
    now apply Qle_not_lt in C.
Qed.

Lemma truthy_out_of_range s :
  ((s < 0)%Q \/ (100 < s)%Q) -> Js.truthy s = true.
Proof.
  intros H. unfold Js.truthy. apply negb_true_iff, not_true_is_false.
  intros C. apply Qeq_bool_iff in C.
  destruct H as [H|H]; rewrite C in H; discriminate H.
Qed.

Lemma validateTokenConfig_rejects config :
  (Js.is_empty (Launch.name config) = true
   \/ Js.is_empty (Launch.symbol config) = true
   \/ (10 < String.length (Launch.symbol config))%nat
   \/ exists s, Launch.slippage config = Some s /\ ((s < 0)%Q \/ (100 < s)%Q)) ->
  exists msg, Launch.validateTokenConfig config = Solana.Err msg.
Proof.
  intros H. unfold Launch.validateTokenConfig.
  destruct (Js.is_empty (Launch.name config)
            || (String.length (Js.trim (Launch.name config)) =? 0)%nat) eqn:E1;
    [eexists; reflexivity|].
  destruct (Js.is_empty (Launch.symbol config)
            || (String.length (Js.trim (Launch.symbol config)) =? 0)%nat) eqn:E2;
    [eexists; reflexivity|].
  destruct (10 <? String.length (Launch.symbol config))%nat eqn:E3;
    [eexists; reflexivity|].
  destruct (Js.present_and (Launch.initialBuy config) (fun b => Js.Qltb b 0));
    [eexists; reflexivity|].
  apply orb_false_iff in E1 as [E1 _]. apply orb_false_iff in E2 as [E2 _].
  apply Nat.ltb_ge in E3.
  destruct H as [H|[H|[H|(s & Hs & Hr)]]]; try congruence; [lia|].
  rewrite Hs. unfold Js.present_and. rewrite (truthy_out_of_range s Hr).
  assert (E : Js.Qltb s 0 || Js.Qltb (inject_Z 100) s = true).
  { apply orb_true_iff. destruct Hr as [Hr|Hr]; [left|right];
      now apply Qltb_true_iff. }
  rewrite E. eexists; reflexivity.
Qed.




(* ================================================================== *)
(** * Part III: further properties of the code *)
(* ================================================================== *)

(** ** The queue: order, pause, waits, persistence *)

Section QueueCoverage.
Import Queue.
Local Open Scope act_scope.

Lemma andThen_fst (a b : Act) w : fst ((a >> b) w) = fst (b (fst (a w))).
Proof.
  unfold andThen. destruct (a w) as [w1 e1]. cbn [fst].
  now destruct (b w1).
Qed.

Lemma andThen_snd (a b : Act) w :
  snd ((a >> b) w) = snd (a w) ++ snd (b (fst (a w))).
Proof.
  unfold andThen. destruct (a w) as [w1 e1]. cbn [fst snd].
  now destruct (b w1).
Qed.

Lemma launched_app a b : launched (a ++ b) = launched a ++ launched b.
Proof.
  induction a as [|[d ok|tweetId|why ms] a IH]; cbn; rewrite ?IH; reflexivity.
Qed.

Lemma saveQueue_facts w :
  let w1 := fst (saveQueue w) in
  mgr w1 = mgr w /\ pc w1 = pc w /\ clock w1 = clock w
  /\ diskOk w1 = diskOk w /\ utcOffset w1 = utcOffset w
  /\ file w1 = (if diskOk w then Some (snapshot w) else file w)
  /\ snd (saveQueue w) = [EvSave (snapshot w) (diskOk w)].
Proof.
  unfold saveQueue. cbn [fst snd].
  destruct (diskOk w) eqn:E; cbn; rewrite ?E; repeat split; reflexivity.
Qed.

(** One turn of the loop takes the head of the pending list or nothing. *)
Lemma loop_conserves w :
  launched (snd (loop w)) ++ queue (mgr (fst (loop w))) = queue (mgr w).
Proof.
  pose proof (check_frame w) as F. cbv zeta in F. destruct F as (Fq & _).
  destruct (loop_spec w)
    as [Hx | why ms Hne Hpa w1 Hc | tweetId rest Hpa w1 Hqq Hl Hb w2].
  - reflexivity.
  - subst w1. unfold set_pc. cbn [mgr launched app]. exact Fq.
  - subst w2 w1. unfold set_pc, set_file, with_mgr.
    destruct (diskOk w); cbn [mgr queue set_queue launched app];
      symmetry; exact Hqq.
Qed.

Lemma processQueue_conserves w :
  launched (snd (processQueue w)) ++ queue (mgr (fst (processQueue w)))
  = queue (mgr w).
Proof.
  unfold processQueue.
  destruct (processing (mgr w)); [reflexivity|].
  destruct (paused (mgr w)); [reflexivity|].
  rewrite andThen_fst, andThen_snd. cbn [modify fst snd app].
  now rewrite loop_conserves.
Qed.

Lemma step_conserves l w :
  keeps_queue l = true ->
  queue (mgr w) ++ offered l w
  = launched (snd (step l w)) ++ queue (mgr (fst (step l w))).
Proof.
  intros Hk.
  destruct l as [tweetId| | | | |ms| |outcome|ok|env];
    try discriminate Hk; cbn [step offered]; rewrite ?app_nil_r.
  - unfold addToQueue.
    destruct (includes (queue (mgr w)) tweetId); [now rewrite app_nil_r|].
    rewrite !andThen_fst, !andThen_snd. cbn [modify fst snd app].
    set (w1 := with_mgr (fun m => set_queue (queue m ++ [tweetId]) m) w).
    destruct (saveQueue_facts w1) as (Sm & _ & _ & _ & _ & _ & Se).
    rewrite Se. cbn [app launched].
    set (w2 := fst (saveQueue w1)) in *.
    destruct (negb (processing (mgr w2)) && negb (paused (mgr w2))).
    + rewrite processQueue_conserves, Sm. reflexivity.
    + cbn [fst snd launched app]. rewrite Sm. reflexivity.
  - now rewrite processQueue_conserves.
  - reflexivity.
  - unfold resumeQueue. rewrite andThen_fst, andThen_snd.
    cbn [modify fst snd app].
    set (w1 := with_mgr (set_paused false) w).
    change (queue (mgr w)) with (queue (mgr w1)).
    destruct (queue (mgr w1)) eqn:Hq;
      [cbn [fst snd launched app]; now rewrite Hq|].
    destruct (negb (processing (mgr w1))).
    + rewrite processQueue_conserves. now rewrite Hq.
    + cbn [fst snd launched app]. now rewrite Hq.
  - destruct (0 <=? ms); reflexivity.
  - destruct (pc w) as [|why wake|x]; try reflexivity.
    destruct (wake <=? clock w); [now rewrite loop_conserves|reflexivity].
  - destruct (pc w) as [|why wake|x]; try reflexivity.
    unfold afterLaunch. rewrite andThen_fst, andThen_snd.
    cbn [modify fst snd app].
    set (w1 := with_mgr (settle outcome) w).
    assert (Hq : queue (mgr w1) = queue (mgr w)).
    { subst w1. cbn [with_mgr mgr]. apply settle_frame. }
    rewrite <- Hq.
    destruct (queue (mgr w1)) eqn:Hq1.
    + rewrite loop_conserves. now rewrite Hq1.
    + destruct (0 <? launchDelaySeconds (mgr w1)).
      * unfold sleep, set_pc. cbn [fst snd launched app mgr]. now rewrite Hq1.
      * rewrite loop_conserves. now rewrite Hq1.
  - reflexivity.
Qed.

(** A run keeps the order of arrival. *)
Lemma run_conserves (ls : list Label) :
  forall w,
    forallb keeps_queue ls = true ->
    queue (mgr w) ++ accepted ls w
    = launched (snd (run ls w)) ++ queue (mgr (fst (run ls w))).
Proof.
  induction ls as [|l rest IH]; intros w Hk.
  - cbn. now rewrite app_nil_r.
  - cbn [forallb] in Hk. apply andb_prop in Hk. destruct Hk as [Hl Hrest].
    cbn [run accepted].
    pose proof (step_conserves l w Hl) as S.
    specialize (IH (fst (step l w)) Hrest).
    destruct (step l w) as [w1 e1]. cbn [fst snd] in *.
    destruct (run rest w1) as [w2 e2]. cbn [fst snd] in *.
    rewrite launched_app, app_assoc, S, <- !app_assoc. f_equal. exact IH.
Qed.

Lemma in_launched tweetId evs :
  In (EvLaunch tweetId) evs <-> In tweetId (launched evs).
Proof.
  induction evs as [|[d ok|x|why ms] evs IH]; cbn.
  - tauto.
  - rewrite <- IH. split; [intros [H|H]; [discriminate|assumption]|tauto].
  - rewrite <- IH. split; intros [H|H]; try tauto; left; congruence.
  - rewrite <- IH. split; [intros [H|H]; [discriminate|assumption]|tauto].
Qed.

Lemma silent_launched evs : silent evs <-> launched evs = [].
Proof.
  unfold silent. split.
  - intros H. destruct (launched evs) as [|x rest] eqn:E; [reflexivity|].
    exfalso. apply (H x). apply in_launched. rewrite E. now left.
  - intros H x Hin. apply in_launched in Hin. rewrite H in Hin. contradiction.
Qed.

Lemma loop_stops w :
  queue (mgr w) = [] \/ paused (mgr w) = true ->
  loop w = (set_pc Idle (with_mgr (set_processing false) w), []).
Proof.
  unfold loop. intros [H|H]; rewrite H; [reflexivity|].
  destruct (queue (mgr w)); reflexivity.
Qed.

(** A turn of the loop starts at most one launch, and then awaits it. *)
Lemma loop_launched w :
  launched (snd (loop w)) = []
  \/ exists tweetId,
       launched (snd (loop w)) = [tweetId]
       /\ pc (fst (loop w)) = InFlight tweetId.
Proof.
  destruct (loop_spec w)
    as [Hx | why ms Hne Hpa w1 Hc | tweetId rest Hpa w1 Hqq Hl Hb w2].
  - now left.
  - now left.
  - right. exists tweetId. split; reflexivity.
Qed.

Lemma processQueue_launched w :
  launched (snd (processQueue w)) = []
  \/ exists tweetId,
       launched (snd (processQueue w)) = [tweetId]
       /\ pc (fst (processQueue w)) = InFlight tweetId.
Proof.
  unfold processQueue.
  destruct (processing (mgr w)); [now left|].
  destruct (paused (mgr w)); [now left|].
  rewrite andThen_fst, andThen_snd. cbn [modify fst snd app].
  apply loop_launched.
Qed.

Lemma step_launched l w :
  launched (snd (step l w)) = []
  \/ exists tweetId,
       launched (snd (step l w)) = [tweetId]
       /\ pc (fst (step l w)) = InFlight tweetId.
Proof.
  destruct l as [tweetId| | | | |ms| |outcome|ok|env]; cbn [step].
  - unfold addToQueue.
    destruct (includes (queue (mgr w)) tweetId); [now left|].
    rewrite !andThen_fst, !andThen_snd. cbn [modify fst snd app].
    set (w1 := with_mgr (fun m => set_queue (queue m ++ [tweetId]) m) w).
    destruct (saveQueue_facts w1) as (_ & _ & _ & _ & _ & _ & Se).
    rewrite Se. cbn [app launched].
    destruct (negb (processing (mgr (fst (saveQueue w1))))
              && negb (paused (mgr (fst (saveQueue w1)))));
      [apply processQueue_launched | now left].
  - apply processQueue_launched.
  - now left.
  - unfold resumeQueue. rewrite andThen_fst, andThen_snd.
    cbn [modify fst snd app].
    destruct (queue (mgr (with_mgr (set_paused false) w))); [now left|].
    destruct (negb (processing (mgr (with_mgr (set_paused false) w))));
      [apply processQueue_launched | now left].
  - unfold clearQueue. rewrite andThen_snd. cbn [modify fst snd app].
    now left.
  - destruct (0 <=? ms); now left.
  - destruct (pc w) as [|why wake|x]; try now left.
    destruct (wake <=? clock w); [apply loop_launched | now left].
  - destruct (pc w) as [|why wake|x]; try now left.
    unfold afterLaunch. rewrite andThen_fst, andThen_snd.
    cbn [modify fst snd app].
    destruct (queue (mgr (with_mgr (settle outcome) w)));
      [apply loop_launched|].
    destruct (0 <? launchDelaySeconds (mgr (with_mgr (settle outcome) w)));
      [now left | apply loop_launched].
  - now left.
  - now left.
Qed.

(** X3. First in, first out, and nothing lost: in a run without
    [clearQueue] and without a new process, the ids pending at the start
    followed by the ids [addToQueue] accepted are, in the same order, the
    ids launched followed by the ids still pending. *)
Theorem launches_follow_arrival_order (ls : list Label) (w : World) :
  forallb keeps_queue ls = true ->
  queue (mgr w) ++ accepted ls w
  = launched (snd (run ls w)) ++ queue (mgr (fst (run ls w))).
Proof. apply run_conserves. Qed.

Lemma launches_follow_arrival_order_witness :
  accepted enqueue_three_and_drain limit_two = ["a"; "b"; "c"]
  /\ launched (snd (run enqueue_three_and_drain limit_two)) = ["a"; "b"]
  /\ queue (mgr limit_two) ++ accepted enqueue_three_and_drain limit_two
     = launched (snd (run enqueue_three_and_drain limit_two))
       ++ queue (mgr (fst (run enqueue_three_and_drain limit_two))).
Proof.
  split; [vm_compute; reflexivity|].
  split; [vm_compute; reflexivity|].
  apply launches_follow_arrival_order. reflexivity.
Defined.


Lemma includes_true_in q tweetId : includes q tweetId = true -> In tweetId q.
Proof.
  unfold includes. intros H. apply existsb_exists in H.
  destruct H as (x & Hin & Heq). apply String.eqb_eq in Heq. now subst.
Qed.


(** X1. In every reachable state no id is pending twice, neither in memory
    nor in queue.json, and [processing] is set exactly while one run of
    [processQueue] is suspended at an [await]. *)
Theorem no_request_is_pending_twice (w : World) :
  reachable w ->
  NoDup (queue (mgr w))
  /\ NoDup (on_disk w)
  /\ (processing (mgr w) = false <-> pc w = Idle).
Proof.
  intros R. destruct (reachable_invariant w R) as (Hq & Hf & Hp).
  split; [exact Hq|]. split; [|exact Hp].
  unfold on_disk. destruct (file w) as [d|] eqn:E; [now apply Hf|constructor].
Qed.

Lemma no_request_is_pending_twice_witness :
  let w := fst (step (AddToQueue "b")
                 (fst (step (AddToQueue "b")
                         (fst (step (AddToQueue "a") limit_two))))) in
  queue (mgr w) = ["b"]
  /\ on_disk w = ["b"]
  /\ NoDup (queue (mgr w))
  /\ NoDup (on_disk w)
  /\ (processing (mgr w) = false <-> pc w = Idle).
Proof.
  split; [reflexivity|]. split; [reflexivity|].
  apply no_request_is_pending_twice.
  apply (reach_step (AddToQueue "b")).
  apply (reach_step (AddToQueue "b")).
  apply (reach_step (AddToQueue "a")).
  apply reach_boot.
Defined.

(** While a launch is awaited, only its settling makes the loop go on. *)
Lemma busy_step_silent l w tweetId :
  pc w = InFlight tweetId ->
  processing (mgr w) = true ->
  (forall outcome, l <> LaunchSettles outcome) ->
  launched (snd (step l w)) = [].
Proof.
  intros Hpc Hp Hl.
  destruct l as [x| | | | |ms| |outcome|ok|env]; cbn [step].
  - unfold addToQueue.
    destruct (includes (queue (mgr w)) x); [reflexivity|].
    rewrite !andThen_snd. cbn [modify fst snd app].
    set (w1 := with_mgr (fun m => set_queue (queue m ++ [x]) m) w).
    destruct (saveQueue_facts w1) as (Sm & _ & _ & _ & _ & _ & Se).
    rewrite Se, Sm. subst w1. cbn [with_mgr mgr set_queue processing].
    rewrite Hp. reflexivity.
  - unfold processQueue. now rewrite Hp.
  - reflexivity.
  - unfold resumeQueue. rewrite andThen_snd. cbn [modify fst snd app].
    cbn [with_mgr mgr set_paused queue processing]. rewrite Hp.
    now destruct (queue (mgr w)).
  - unfold clearQueue. rewrite andThen_snd. cbn [modify fst snd app].
    reflexivity.
  - now destruct (0 <=? ms).
  - now rewrite Hpc.
  - now destruct (Hl outcome).
  - reflexivity.
  - reflexivity.
Qed.

(** X7. Launches are strictly sequential: a step starts at most one launch,
    the loop then awaits it, and while a launch is awaited no call of
    [addToQueue], [processQueue] or [resumeQueue] and no timer starts
    another; only its settling does. *)
Theorem one_launch_at_a_time (w : World) (l : Label) (tweetId : string) :
  reachable w ->
  In (EvLaunch tweetId) (snd (step l w)) ->
  launched (snd (step l w)) = [tweetId]
  /\ pc (fst (step l w)) = InFlight tweetId
  /\ processing (mgr (fst (step l w))) = true
  /\ (forall other, pc w = InFlight other ->
        exists outcome, l = LaunchSettles outcome).
Proof.
  intros R Hin.
  assert (Hl : In tweetId (launched (snd (step l w)))) by now apply in_launched.
  destruct (step_launched l w) as [L | (x & L & P)].
  { rewrite L in Hl. contradiction. }
  rewrite L in Hl. destruct Hl as [<-|[]].
  split; [exact L|]. split; [exact P|]. split.
  - pose proof (reachable_invariant _ (reach_step l w R)) as (_ & _ & Hp).
    destruct (processing (mgr (fst (step l w)))); [reflexivity|].
    destruct Hp as [Hp _]. rewrite (Hp eq_refl) in P. discriminate.
  - intros other Hpc.
    destruct (reachable_invariant w R) as (_ & _ & Hp).
    assert (Hproc : processing (mgr w) = true).
    { destruct (processing (mgr w)); [reflexivity|].
      destruct Hp as [Hp _]. rewrite (Hp eq_refl) in Hpc. discriminate. }
    destruct l as [y| | | | |ms| |outcome|ok|env];
      try (rewrite (busy_step_silent _ w other Hpc Hproc) in L;
           [discriminate | intros o; discriminate]).
    now exists outcome.
Qed.

Lemma one_launch_at_a_time_witness :
  In (EvLaunch "a") (snd (step (AddToQueue "a") limit_two))
  /\ launched (snd (step (AddToQueue "a") limit_two)) = ["a"]
  /\ pc (fst (step (AddToQueue "a") limit_two)) = InFlight "a"
  /\ processing (mgr (fst (step (AddToQueue "a") limit_two))) = true
  /\ (forall other, pc limit_two = InFlight other ->
        exists outcome, AddToQueue "a" = LaunchSettles outcome).
Proof.
  assert (Hin : In (EvLaunch "a") (snd (step (AddToQueue "a") limit_two))).
  { apply (proj2 (in_launched _ _)). vm_compute. now left. }
  split; [exact Hin|].
  apply one_launch_at_a_time; [apply reach_boot | exact Hin].
Defined.

(** *** The daily budget *)

Lemma check_budget w :
  budgetUsed (mgr (fst (checkAndResetCounters w)))
  = (if budgetResetTime (mgr w) <=? clock w then 0%Q else budgetUsed (mgr w))
  /\ budgetLimit (mgr (fst (checkAndResetCounters w))) = budgetLimit (mgr w).
Proof.
  unfold checkAndResetCounters, modify. cbn [fst].
  destruct (hourResetTime (mgr w) <=? clock w);
    cbn [with_mgr mgr clock set_hourResetTime set_launchesThisHour budgetResetTime];
    destruct (budgetResetTime (mgr w) <=? clock w); split; reflexivity.
Qed.

(** A turn of the loop that starts at or above the budget launches only if
    the budget-reset instant has elapsed, and then spending restarts
    from 0. *)
Lemma loop_blocked_until_budget_reset w tweetId :
  In (EvLaunch tweetId) (snd (loop w)) ->
  (budgetLimit (mgr w) <= budgetUsed (mgr w))%Q ->
  budgetResetTime (mgr w) <= clock w
  /\ budgetUsed (mgr (fst (loop w))) = 0%Q.
Proof.
  intros Hin Hlim.
  destruct (check_budget w) as (Hu & Hl).
  destruct (loop_spec w)
    as [Hx | why ms Hne Hpa w1 Hw | id rest Hpa w1 Hqq Hlt Hb w2].
  - destruct Hin.
  - destruct Hin as [H|[]]. discriminate H.
  - subst w1. rewrite Hl in Hb.
    destruct (budgetResetTime (mgr w) <=? clock w) eqn:E.
    + split; [now apply Z.leb_le|].
      destruct (diskOk w); subst w2; exact Hu.
    + rewrite Hu in Hb. exfalso. exact (Qlt_not_le _ _ Hb Hlim).
Qed.

(** X4. No launch is dispatched while the spending recorded for the day is
    at or above the daily budget: at every launch of a reachable execution
    [budgetUsed] is below [budgetLimit], and a turn of the loop that starts
    at or above the budget launches only once the budget-reset instant has
    elapsed, spending restarting from 0. *)
Theorem budget_never_exceeded_at_launch :
  (forall w, reachable w ->
   forall l w' evs tweetId, step l w = (w', evs) ->
     In (EvLaunch tweetId) evs ->
     (budgetUsed (mgr w') < budgetLimit (mgr w'))%Q)
  /\ (forall w tweetId,
        In (EvLaunch tweetId) (snd (loop w)) ->
        (budgetLimit (mgr w) <= budgetUsed (mgr w))%Q ->
        budgetResetTime (mgr w) <= clock w
        /\ budgetUsed (mgr (fst (loop w))) = 0%Q).
Proof.
  split.
  - intros w R l w' evs tweetId Hs Hin.
    destruct (step_launch_facts l w w' evs tweetId
                (reachable_invariant w R) Hs Hin)
      as (before & d & _ & _ & _ & _ & _ & _ & _ & Hb).
    exact Hb.
  - exact loop_blocked_until_budget_reset.
Qed.

Lemma budget_never_exceeded_at_launch_witness :
  In (EvLaunch "a") (snd (step (AddToQueue "a") limit_two))
  /\ (budgetUsed (mgr (fst (step (AddToQueue "a") limit_two)))
      < budgetLimit (mgr (fst (step (AddToQueue "a") limit_two))))%Q.
Proof.
  assert (Hin : In (EvLaunch "a") (snd (step (AddToQueue "a") limit_two))).
  { apply (proj2 (in_launched _ _)). vm_compute. now left. }
  split; [exact Hin|].
  apply (proj1 budget_never_exceeded_at_launch limit_two
           (reach_boot _ _ _) (AddToQueue "a")
           (fst (step (AddToQueue "a") limit_two))
           (snd (step (AddToQueue "a") limit_two)) "a");
    [apply surjective_pairing | exact Hin].
Defined.

(** *** Pausing *)

Lemma paused_step_silent l w :
  paused (mgr w) = true ->
  keeps_paused l = true ->
  launched (snd (step l w)) = [] /\ paused (mgr (fst (step l w))) = true.
Proof.
  intros Hp Hk.
  destruct l as [x| | | | |ms| |outcome|ok|env]; try discriminate Hk;
    cbn [step].
  - unfold addToQueue.
    destruct (includes (queue (mgr w)) x); [now split|].
    rewrite !andThen_fst, !andThen_snd. cbn [modify fst snd app].
    set (w1 := with_mgr (fun m => set_queue (queue m ++ [x]) m) w).
    destruct (saveQueue_facts w1) as (Sm & _ & _ & _ & _ & _ & Se).
    rewrite Se, Sm. subst w1. cbn [with_mgr mgr set_queue processing paused].
    rewrite Hp, andb_false_r. cbn [fst snd app launched].
    rewrite Sm. now split.
  - unfold processQueue. rewrite Hp.
    destruct (processing (mgr w)); now split.
  - now split.
  - unfold clearQueue. rewrite andThen_fst, andThen_snd.
    cbn [modify fst snd app].
    destruct (saveQueue_facts (with_mgr (set_queue []) w))
      as (Sm & _ & _ & _ & _ & _ & Se).
    rewrite Se, Sm. now split.
  - destruct (0 <=? ms); now split.
  - destruct (pc w) as [|why wake|y]; try now split.
    destruct (wake <=? clock w); [|now split].
    rewrite loop_stops by now right. now split.
  - destruct (pc w) as [|why wake|y]; try now split.
    unfold afterLaunch. rewrite andThen_fst, andThen_snd.
    cbn [modify fst snd app].
    set (w1 := with_mgr (settle outcome) w).
    assert (Hp1 : paused (mgr w1) = true).
    { subst w1. cbn [with_mgr mgr].
      destruct (settle_frame outcome (mgr w)) as (_ & _ & Fp & _).
      now rewrite Fp. }
    destruct (queue (mgr w1)).
    + rewrite loop_stops by now right. now split.
    + destruct (0 <? launchDelaySeconds (mgr w1)).
      * unfold sleep, set_pc. now split.
      * rewrite loop_stops by now right. now split.
  - now split.
Qed.

(** X5. A paused queue launches nothing: from a state in which [paused]
    is set, no sequence of calls, timers and settling launches that has
    neither [resumeQueue] nor a new process in it starts a launch, and the
    queue stays paused.  With no [clearQueue] either, every request that
    was pending or is added in the meantime is pending at the end, in
    order. *)
Theorem paused_queue_launches_nothing (ls : list Label) (w : World) :
  paused (mgr w) = true ->
  forallb keeps_paused ls = true ->
  launched (snd (run ls w)) = []
  /\ paused (mgr (fst (run ls w))) = true
  /\ (forallb keeps_queue ls = true ->
      queue (mgr (fst (run ls w))) = queue (mgr w) ++ accepted ls w).
Proof.
  intros Hp Hk.
  assert (H : launched (snd (run ls w)) = []
              /\ paused (mgr (fst (run ls w))) = true).
  { revert w Hp Hk. induction ls as [|l rest IH]; intros w Hp Hk.
    - now split.
    - cbn [forallb] in Hk. apply andb_prop in Hk. destruct Hk as [Hl Hrest].
      cbn [run].
      destruct (paused_step_silent l w Hp Hl) as (S1 & P1).
      specialize (IH (fst (step l w)) P1 Hrest).
      destruct (step l w) as [w1 e1]. cbn [fst snd] in *.
      destruct (run rest w1) as [w2 e2]. cbn [fst snd] in *.
      rewrite launched_app, S1. exact IH. }
  destruct H as (S & P). split; [exact S|]. split; [exact P|].
  intros Hq. pose proof (run_conserves ls w Hq) as C.
  rewrite S in C. cbn [app] in C. now symmetry.
Qed.

Lemma paused_queue_launches_nothing_witness :
  let w := fst (run [AddToQueue "a"; PauseQueue] limit_two) in
  let ls := [AddToQueue "b"; LaunchSettles spent_ok; Tick 120000;
             TimerFires; ProcessQueue; AddToQueue "c"] in
  pc w = InFlight "a"
  /\ launched (snd (run ls w)) = []
  /\ paused (mgr (fst (run ls w))) = true
  /\ queue (mgr (fst (run ls w))) = ["b"; "c"].
Proof.
  split; [reflexivity|].
  destruct (paused_queue_launches_nothing
              [AddToQueue "b"; LaunchSettles spent_ok; Tick 120000;
               TimerFires; ProcessQueue; AddToQueue "c"]
              (fst (run [AddToQueue "a"; PauseQueue] limit_two))
              eq_refl eq_refl) as (S & P & Q).
  split; [exact S|]. split; [exact P|].
  rewrite (Q eq_refl). reflexivity.
Defined.

(** *** The waits of the loop *)

Lemma nextMidnight_ahead off now :
  now < nextMidnight off now <= now + dayMs.
Proof.
  unfold nextMidnight, dayMs.
  pose proof (Z.div_mod (now + off) 86400000 ltac:(lia)) as D.
  pose proof (Z.mod_pos_bound (now + off) 86400000 ltac:(lia)) as B.
  lia.
Qed.

(** After the check, the budget window lies in the future. *)
Lemma check_budget_ahead w :
  clock w < budgetResetTime (mgr (fst (checkAndResetCounters w))).
Proof.
  unfold checkAndResetCounters, modify. cbn [fst].
  destruct (hourResetTime (mgr w) <=? clock w);
    cbn [with_mgr mgr clock set_hourResetTime set_launchesThisHour
         budgetResetTime utcOffset];
    destruct (Z.leb_spec (budgetResetTime (mgr w)) (clock w)); cbn;
    try lia; apply nextMidnight_ahead.
Qed.

Lemma loop_sleeps w why ms :
  In (EvSleep why ms) (snd (loop w)) ->
  0 < ms <= 300000
  /\ why <> LaunchDelay
  /\ pc (fst (loop w)) = Sleeping why (clock w + ms).
Proof.
  unfold loop.
  destruct (queue (mgr w)) as [|tweetId rest] eqn:Hq; [intros []|].
  destruct (paused (mgr w)); [intros []|].
  rewrite andThen_fst, andThen_snd, check_emits_nothing. cbn [app].
  pose proof (check_hour_ahead w) as Hh.
  pose proof (check_budget_ahead w) as Hb.
  pose proof (check_frame w) as F. cbv zeta in F.
  destruct F as (Fq & _ & _ & _ & _ & Fc & _).
  set (w1 := fst (checkAndResetCounters w)) in *.
  destruct (hourlyLimit (mgr w1) <=? launchesThisHour (mgr w1)).
  { unfold sleep, set_pc. cbn [fst snd pc]. intros [E|[]].
    injection E as <- <-. rewrite Fc.
    split; [lia|]. split; [discriminate|]. f_equal. lia. }
  destruct (Qle_bool (budgetLimit (mgr w1)) (budgetUsed (mgr w1))).
  { unfold sleep, set_pc. cbn [fst snd pc]. intros [E|[]].
    injection E as <- <-. rewrite Fc.
    split; [lia|]. split; [discriminate|]. f_equal. lia. }
  rewrite Fq, Hq. rewrite !andThen_snd. cbn [modify emit fst snd app].
  destruct (saveQueue_facts (with_mgr (set_queue rest) w1))
    as (_ & _ & _ & _ & _ & _ & Se).
  rewrite Se. cbn [app]. intros [E|[E|[]]]; discriminate E.
Qed.

Lemma processQueue_sleeps w why ms :
  In (EvSleep why ms) (snd (processQueue w)) ->
  0 < ms <= 300000
  /\ why <> LaunchDelay
  /\ pc (fst (processQueue w)) = Sleeping why (clock w + ms).
Proof.
  unfold processQueue.
  destruct (processing (mgr w)); [intros []|].
  destruct (paused (mgr w)); [intros []|].
  rewrite andThen_fst, andThen_snd. cbn [modify fst snd app].
  intros H. exact (loop_sleeps _ _ _ H).
Qed.



(** *** queue.json along a run in which every write succeeds *)

Lemma loop_disk w :
  diskOk w = true ->
  on_disk w = queue (mgr w) ->
  disk_in_step (fst (loop w)).
Proof.
  intros Hd Hs.
  pose proof (check_frame w) as F. cbv zeta in F.
  destruct F as (Fq & _ & _ & _ & _ & _ & Ff & Fd & _).
  destruct (loop_spec w)
    as [Hx | why ms Hne Hpa w1 Hc | tweetId rest Hpa w1 Hqq Hl Hb w2].
  - split; [exact Hd|]. split; [exact Hs|]. intros x Hpc. discriminate Hpc.
  - subst w1. unfold disk_in_step, on_disk, set_pc. cbn [diskOk file mgr pc].
    rewrite Fd, Ff, Fq. split; [exact Hd|]. split; [exact Hs|].
    intros x Hpc. discriminate Hpc.
  - rewrite Hd. subst w2 w1.
    unfold disk_in_step, on_disk, set_pc, set_file, with_mgr.
    cbn [diskOk file mgr pc snapshot d_queue queue set_queue].
    rewrite Fd. split; [exact Hd|]. split; [reflexivity|].
    intros x _. eexists. split; [reflexivity|]. repeat split.
Qed.

Lemma processQueue_disk w :
  disk_in_step w -> disk_in_step (fst (processQueue w)).
Proof.
  intros H. unfold processQueue.
  destruct (processing (mgr w)); [exact H|].
  destruct (paused (mgr w)); [exact H|].
  rewrite andThen_fst. cbn [modify fst].
  destruct H as (Hd & Hs & _). now apply loop_disk.
Qed.

(** After a successful write the file is the snapshot just taken. *)
Lemma saveQueue_disk w :
  diskOk w = true -> disk_in_step (fst (saveQueue w)).
Proof.
  intros Hd. unfold saveQueue. cbn [fst]. rewrite Hd.
  unfold disk_in_step, on_disk, set_file.
  cbn [diskOk file mgr pc snapshot d_queue].
  split; [exact Hd|]. split; [reflexivity|].
  intros x _. eexists. split; [reflexivity|]. repeat split.
Qed.

Lemma construct_disk env w :
  diskOk (construct env w) = diskOk w
  /\ forall d, file w = Some d ->
       launchesThisHour (mgr (construct env w)) = d_launchesThisHour d
       /\ budgetUsed (mgr (construct env w)) = d_budgetUsed d
       /\ totalProcessed (mgr (construct env w)) = d_totalProcessed d
       /\ totalFailed (mgr (construct env w)) = d_totalFailed d.
Proof.
  unfold construct, loadQueue.
  replace (file (set_pc Idle (with_mgr _ w))) with (file w) by reflexivity.
  destruct (file w) as [d|] eqn:Ef; cbv zeta.
  - split; [reflexivity|]. intros d' [= <-]. repeat split.
  - split; [reflexivity|]. intros d' E. discriminate E.
Qed.

Lemma step_disk l w :
  disk_holds l = true -> disk_in_step w -> disk_in_step (fst (step l w)).
Proof.
  intros Hl H. pose proof H as (Hd & Hs & Hc).
  destruct l as [x| | | | |ms| |outcome|ok|env]; cbn [step].
  - unfold addToQueue.
    destruct (includes (queue (mgr w)) x); [exact H|].
    rewrite !andThen_fst. cbn [modify fst].
    set (w1 := with_mgr (fun m => set_queue (queue m ++ [x]) m) w).
    assert (S : disk_in_step (fst (saveQueue w1))).
    { apply saveQueue_disk. exact Hd. }
    destruct (negb (processing (mgr (fst (saveQueue w1))))
              && negb (paused (mgr (fst (saveQueue w1)))));
      [now apply processQueue_disk | exact S].
  - now apply processQueue_disk.
  - exact H.
  - unfold resumeQueue. rewrite andThen_fst. cbn [modify fst].
    set (w1 := with_mgr (set_paused false) w).
    assert (H1 : disk_in_step w1) by exact H.
    destruct (queue (mgr w1)); [exact H1|].
    destruct (negb (processing (mgr w1)));
      [now apply processQueue_disk | exact H1].
  - unfold clearQueue. rewrite andThen_fst. cbn [modify fst].
    apply saveQueue_disk. exact Hd.
  - destruct (0 <=? ms); exact H.
  - destruct (pc w) as [|why wake|y]; try exact H.
    destruct (wake <=? clock w); [now apply loop_disk | exact H].
  - destruct (pc w) as [|why wake|y]; try exact H.
    unfold afterLaunch. rewrite andThen_fst. cbn [modify fst].
    set (w1 := with_mgr (settle outcome) w).
    assert (Hq : queue (mgr w1) = queue (mgr w)).
    { subst w1. cbn [with_mgr mgr]. apply settle_frame. }
    assert (Hs1 : on_disk w1 = queue (mgr w1)).
    { rewrite Hq. exact Hs. }
    destruct (queue (mgr w1)) eqn:E;
      [apply loop_disk; [exact Hd | now rewrite E]|].
    destruct (0 <? launchDelaySeconds (mgr w1));
      [|apply loop_disk; [exact Hd | now rewrite E]].
    unfold sleep, set_pc. cbn [fst].
    split; [exact Hd|]. split; [rewrite <- E in Hs1; exact Hs1|].
    intros z Hpc. discriminate Hpc.
  - destruct ok; [|discriminate Hl]. exact (conj eq_refl (conj Hs Hc)).
  - cbn [fst].
    destruct (construct_facts env w) as (Cf & Cp & _ & Cq).
    destruct (construct_disk env w) as (Cd & _).
    split; [now rewrite Cd|]. split.
    + unfold on_disk. rewrite Cf, Cq. reflexivity.
    + intros z Hpc. rewrite Cp in Hpc. discriminate Hpc.
Qed.

Lemma run_disk ls :
  forall w, forallb disk_holds ls = true -> disk_in_step w ->
    disk_in_step (fst (run ls w)).
Proof.
  induction ls as [|l rest IH]; intros w Hk H; [exact H|].
  cbn [forallb] in Hk. apply andb_prop in Hk. destruct Hk as [Hl Hrest].
  cbn [run]. pose proof (step_disk l w Hl H) as H1.
  specialize (IH (fst (step l w)) Hrest H1).
  destruct (step l w) as [w1 e1]. cbn [fst] in *.
  destruct (run rest w1) as [w2 e2]. exact IH.
Qed.

Lemma boot_disk env now off : disk_in_step (boot env now off).
Proof.
  unfold boot.
  match goal with |- disk_in_step (construct _ ?w0) =>
    destruct (construct_facts env w0) as (Cf & Cp & _ & Cq);
    destruct (construct_disk env w0) as (Cd & _)
  end.
  split; [now rewrite Cd|]. split.
  - unfold on_disk. rewrite Cf, Cq. reflexivity.
  - intros z Hpc. rewrite Cp in Hpc. discriminate Hpc.
Qed.

(** X9. As long as every write of queue.json succeeds, the file lists
    exactly the pending ids at every moment, so a process started anew at
    any point resumes with the same pending list, in the same order. *)
Theorem restart_resumes_pending_list
    (env : Settings) (now utcOffset : Z) (ls : list Label) (env' : Settings) :
  forallb disk_holds ls = true ->
  let w := fst (run ls (boot env now utcOffset)) in
  on_disk w = queue (mgr w)
  /\ queue (mgr (construct env' w)) = queue (mgr w).
Proof.
  intros Hk w.
  destruct (run_disk ls (boot env now utcOffset) Hk (boot_disk _ _ _))
    as (_ & Hs & _).
  fold w in Hs. split; [exact Hs|].
  destruct (construct_facts env' w) as (_ & _ & _ & Cq).
  rewrite Cq. exact Hs.
Qed.

Lemma restart_resumes_pending_list_witness :
  let w := fst (run [AddToQueue "a"; AddToQueue "b"; AddToQueue "c"]
                    (boot default_settings 0 0)) in
  queue (mgr w) = ["b"; "c"]
  /\ on_disk w = queue (mgr w)
  /\ queue (mgr (construct default_settings w)) = queue (mgr w).
Proof.
  split; [reflexivity|].
  apply (restart_resumes_pending_list default_settings 0 0
           [AddToQueue "a"; AddToQueue "b"; AddToQueue "c"] default_settings).
  reflexivity.
Defined.

Lemma settle_returned_counts result m :
  launchesThisHour (settle (Returned result) m) = launchesThisHour m + 1
  /\ totalProcessed (settle (Returned result) m) = totalProcessed m + 1.
Proof.
  destruct result as [ok spent]. cbn.
  destruct ok; [destruct spent as [q|]; [destruct (Js.truthy q)|]|];
    split; reflexivity.
Qed.

(** X8. The outcome of a launch is not written to queue.json by itself.
    When a launch returns and no further launch is started at once (the
    pending list is empty, or the delay between two launches is awaited),
    no save is made and the file stays as it was.  Along a run in which
    every write succeeds, the launch is then counted in memory (hourly
    counter and total plus one), while a process started anew loads the
    counters and the spending recorded before that launch. *)
Theorem restart_forgets_settled_launch
    (env : Settings) (now utcOffset : Z) (ls : list Label)
    (tweetId : string) (result : LaunchResult) (env' : Settings) :
  forallb disk_holds ls = true ->
  let w := fst (run ls (boot env now utcOffset)) in
  pc w = InFlight tweetId ->
  (queue (mgr w) = [] \/ 0 < launchDelaySeconds (mgr w)) ->
  let w' := fst (step (LaunchSettles (Returned result)) w) in
  let evs := snd (step (LaunchSettles (Returned result)) w) in
  let r := construct env' w' in
  (forall d ok, ~ In (EvSave d ok) evs)
  /\ file w' = file w
  /\ launchesThisHour (mgr w') = launchesThisHour (mgr w) + 1
  /\ totalProcessed (mgr w') = totalProcessed (mgr w) + 1
  /\ launchesThisHour (mgr r) = launchesThisHour (mgr w)
  /\ totalProcessed (mgr r) = totalProcessed (mgr w)
  /\ totalFailed (mgr r) = totalFailed (mgr w)
  /\ budgetUsed (mgr r) = budgetUsed (mgr w).
Proof.
  intros Hk w Hpc Hwait.
  destruct (run_disk ls (boot env now utcOffset) Hk (boot_disk _ _ _))
    as (_ & _ & Hc).
  fold w in Hc. destruct (Hc tweetId Hpc) as (d & Hf & D1 & D2 & D3 & D4).
  clearbody w. clear Hc Hk.
  destruct (settle_returned_counts result (mgr w)) as (S1 & S2).
  destruct (settle_frame (Returned result) (mgr w)) as (Fq & _ & _ & _ & Fd).
  assert (Shape :
    let w1 := with_mgr (settle (Returned result)) w in
    step (LaunchSettles (Returned result)) w
    = (set_pc Idle (with_mgr (set_processing false) w1), [])
    \/ exists wake ms,
         step (LaunchSettles (Returned result)) w
         = (set_pc (Sleeping LaunchDelay wake) w1, [EvSleep LaunchDelay ms])).
  { cbv zeta. cbn [step]. rewrite Hpc. unfold afterLaunch, andThen, modify.
    cbn [with_mgr mgr]. rewrite Fq, Fd.
    destruct (queue (mgr w)) as [|x q] eqn:Hq.
    - left. rewrite loop_stops; [reflexivity|].
      left. cbn [with_mgr mgr]. exact Fq.
    - destruct Hwait as [E|Hpos]; [discriminate E|].
      apply Z.ltb_lt in Hpos. rewrite Hpos.
      right. eexists. eexists. reflexivity. }
  cbv zeta in Shape.
  assert (G : forall w' evs,
            step (LaunchSettles (Returned result)) w = (w', evs) ->
            mgr w' = settle (Returned result) (mgr w)
            \/ mgr w' = set_processing false (settle (Returned result) (mgr w)) ->
            file w' = file w ->
            (forall d0 ok, ~ In (EvSave d0 ok) evs) ->
            (forall d0 ok, ~ In (EvSave d0 ok) evs)
            /\ file w' = file w
            /\ launchesThisHour (mgr w') = launchesThisHour (mgr w) + 1
            /\ totalProcessed (mgr w') = totalProcessed (mgr w) + 1
            /\ launchesThisHour (mgr (construct env' w')) = launchesThisHour (mgr w)
            /\ totalProcessed (mgr (construct env' w')) = totalProcessed (mgr w)
            /\ totalFailed (mgr (construct env' w')) = totalFailed (mgr w)
            /\ budgetUsed (mgr (construct env' w')) = budgetUsed (mgr w)).
  { intros w' evs _ Hm Hfile Hev.
    split; [exact Hev|]. split; [exact Hfile|].
    split; [destruct Hm as [-> | ->]; exact S1|].
    split; [destruct Hm as [-> | ->]; exact S2|].
    destruct (construct_disk env' w') as (_ & Cc).
    rewrite Hfile in Cc. destruct (Cc d Hf) as (C1 & C2 & C3 & C4).
    rewrite C1, C2, C3, C4. repeat split; assumption. }
  cbv zeta.
  destruct Shape as [E | (wake & ms & E)]; rewrite E; cbn [fst snd];
    apply (G _ _ E).
  - right. reflexivity.
  - reflexivity.
  - intros d0 ok [].
  - left. reflexivity.
  - reflexivity.
  - intros d0 ok [H|[]]. discriminate H.
Qed.

Lemma restart_forgets_settled_launch_witness :
  let w := fst (run [AddToQueue "a"] (boot default_settings 0 0)) in
  let result := mkResult true (Some Orchestrator.solSpent) in
  let w' := fst (step (LaunchSettles (Returned result)) w) in
  let evs := snd (step (LaunchSettles (Returned result)) w) in
  let r := construct default_settings w' in
  (pc w = InFlight "a" /\ queue (mgr w) = []
   /\ launchesThisHour (mgr w') = 1 /\ launchesThisHour (mgr r) = 0)
  /\ (forall d ok, ~ In (EvSave d ok) evs)
  /\ file w' = file w
  /\ launchesThisHour (mgr w') = launchesThisHour (mgr w) + 1
  /\ totalProcessed (mgr w') = totalProcessed (mgr w) + 1
  /\ launchesThisHour (mgr r) = launchesThisHour (mgr w)
  /\ totalProcessed (mgr r) = totalProcessed (mgr w)
  /\ totalFailed (mgr r) = totalFailed (mgr w)
  /\ budgetUsed (mgr r) = budgetUsed (mgr w).
Proof.
  cbv zeta. split; [repeat split; reflexivity|].
  exact (restart_forgets_settled_launch default_settings 0 0
           [AddToQueue "a"] "a" (mkResult true (Some Orchestrator.solSpent))
           default_settings eq_refl eq_refl (or_introl eq_refl)).
Defined.

(** *** The hourly counter as a state invariant *)

Lemma loop_within limit w :
  hourlyLimit (mgr w) = limit ->
  0 <= launchesThisHour (mgr w) <= Z.max 0 limit ->
  (forall d, file w = Some d -> 0 <= d_launchesThisHour d <= Z.max 0 limit) ->
  within_limit limit (fst (loop w)).
Proof.
  intros Hl Hn Hf.
  pose proof (check_frame w) as F. cbv zeta in F.
  destruct F as (_ & _ & _ & Fl & _ & _ & Ff & _).
  pose proof (check_counter w) as Hc.
  assert (Hn1 : 0 <= launchesThisHour (mgr (fst (checkAndResetCounters w)))
                <= Z.max 0 limit).
  { rewrite Hc. destruct (hourResetTime (mgr w) <=? clock w); lia. }
  destruct (loop_spec w)
    as [Hx | why ms Hne Hpa w1 Hw | tweetId rest Hpa w1 Hqq Hlt Hb w2].
  - split; [exact Hl|]. split; [exact Hn|]. split; [|exact Hf].
    intros x Hpc. discriminate Hpc.
  - subst w1. unfold within_limit, set_pc. cbn [mgr pc file].
    rewrite Fl, Ff. split; [exact Hl|]. split; [exact Hn1|].
    split; [|exact Hf]. intros x Hpc. discriminate Hpc.
  - subst w2 w1. rewrite Fl, Hl in Hlt.
    unfold within_limit, set_pc, set_file, with_mgr.
    destruct (diskOk w);
      cbn [mgr pc file hourlyLimit launchesThisHour set_queue];
      rewrite ?Fl, ?Ff;
      (split; [exact Hl|]); (split; [exact Hn1|]);
      (split; [intros x _; exact Hlt|]); [|exact Hf].
    intros d [= <-]. exact Hn1.
Qed.

Lemma processQueue_within limit w :
  within_limit limit w -> within_limit limit (fst (processQueue w)).
Proof.
  intros H. unfold processQueue.
  destruct (processing (mgr w)); [exact H|].
  destruct (paused (mgr w)); [exact H|].
  rewrite andThen_fst. cbn [modify fst].
  destruct H as (Hl & Hn & _ & Hf). now apply loop_within.
Qed.

Lemma saveQueue_within limit w :
  within_limit limit w -> within_limit limit (fst (saveQueue w)).
Proof.
  intros (Hl & Hn & Hp & Hf). unfold saveQueue. cbn [fst].
  destruct (diskOk w); [|exact (conj Hl (conj Hn (conj Hp Hf)))].
  unfold within_limit, set_file. cbn [mgr pc file].
  split; [exact Hl|]. split; [exact Hn|]. split; [exact Hp|].
  intros d [= <-]. exact Hn.
Qed.

Lemma settle_counter outcome m :
  launchesThisHour (settle outcome m) = launchesThisHour m
  \/ launchesThisHour (settle outcome m) = launchesThisHour m + 1.
Proof.
  destruct outcome as [result|].
  - right. apply settle_returned_counts.
  - now left.
Qed.

Lemma step_within limit l w :
  keeps_limit limit l = true ->
  within_limit limit w -> within_limit limit (fst (step l w)).
Proof.
  intros Hk H. pose proof H as (Hl & Hn & Hp & Hf).
  destruct l as [x| | | | |ms| |outcome|ok|env]; cbn [step].
  - unfold addToQueue.
    destruct (includes (queue (mgr w)) x); [exact H|].
    rewrite !andThen_fst. cbn [modify fst].
    set (w1 := with_mgr (fun m => set_queue (queue m ++ [x]) m) w).
    assert (S : within_limit limit (fst (saveQueue w1))).
    { apply saveQueue_within. exact H. }
    destruct (negb (processing (mgr (fst (saveQueue w1))))
              && negb (paused (mgr (fst (saveQueue w1)))));
      [now apply processQueue_within | exact S].
  - now apply processQueue_within.
  - exact H.
  - unfold resumeQueue. rewrite andThen_fst. cbn [modify fst].
    set (w1 := with_mgr (set_paused false) w).
    assert (H1 : within_limit limit w1) by exact H.
    destruct (queue (mgr w1)); [exact H1|].
    destruct (negb (processing (mgr w1)));
      [now apply processQueue_within | exact H1].
  - unfold clearQueue. rewrite andThen_fst. cbn [modify fst].
    apply saveQueue_within. exact H.
  - destruct (0 <=? ms); exact H.
  - destruct (pc w) as [|why wake|y]; try exact H.
    destruct (wake <=? clock w); [now apply loop_within | exact H].
  - destruct (pc w) as [|why wake|y] eqn:Hpc; try exact H.
    unfold afterLaunch. rewrite andThen_fst. cbn [modify fst].
    set (w1 := with_mgr (settle outcome) w).
    assert (Hl1 : hourlyLimit (mgr w1) = limit).
    { subst w1. cbn [with_mgr mgr].
      destruct (settle_frame outcome (mgr w)) as (_ & _ & _ & Fl & _).
      now rewrite Fl. }
    assert (Hn1 : 0 <= launchesThisHour (mgr w1) <= Z.max 0 limit).
    { subst w1. cbn [with_mgr mgr]. specialize (Hp y eq_refl).
      destruct (settle_counter outcome (mgr w)) as [E|E]; rewrite E; lia. }
    assert (Hf1 : forall d, file w1 = Some d ->
                    0 <= d_launchesThisHour d <= Z.max 0 limit) by exact Hf.
    destruct (queue (mgr w1)); [now apply loop_within|].
    destruct (0 <? launchDelaySeconds (mgr w1)); [|now apply loop_within].
    unfold sleep, set_pc. cbn [fst].
    split; [exact Hl1|]. split; [exact Hn1|]. split; [|exact Hf1].
    intros z Hz. discriminate Hz.
  - exact H.
  - cbn [fst]. cbn [keeps_limit] in Hk. apply Z.eqb_eq in Hk.
    destruct (construct_facts env w) as (Cf & Cp & _ & _).
    unfold within_limit. rewrite Cf, Cp.
    assert (C : hourlyLimit (mgr (construct env w)) = HOURLY_LAUNCH_LIMIT env
                /\ launchesThisHour (mgr (construct env w))
                   = match file w with
                     | Some d => d_launchesThisHour d
                     | None => 0
                     end).
    { unfold construct, loadQueue.
      replace (file (set_pc Idle (with_mgr _ w))) with (file w) by reflexivity.
      destruct (file w); split; reflexivity. }
    destruct C as (C1 & C2). rewrite C1, C2.
    split; [exact Hk|]. split; [|split; [|exact Hf]].
    + destruct (file w) as [d|] eqn:E; [now apply Hf | lia].
    + intros z Hz. discriminate Hz.
Qed.

Lemma run_within limit ls :
  forall w, forallb (keeps_limit limit) ls = true -> within_limit limit w ->
    within_limit limit (fst (run ls w)).
Proof.
  induction ls as [|l rest IH]; intros w Hk H; [exact H|].
  cbn [forallb] in Hk. apply andb_prop in Hk. destruct Hk as [Hl Hrest].
  cbn [run]. pose proof (step_within limit l w Hl H) as H1.
  specialize (IH (fst (step l w)) Hrest H1).
  destruct (step l w) as [w1 e1]. cbn [fst] in *.
  destruct (run rest w1) as [w2 e2]. exact IH.
Qed.

(** X10. The hourly counter never passes the limit: in a process started
    with hourly limit [n], and in every process started anew with the same
    limit over its queue.json, [launchesThisHour] stays between 0 and [n]
    (0 when [n] is negative), and is below [n] for as long as a launch is
    awaited, whatever the launches return or throw. *)
Theorem hourly_counter_stays_within_limit
    (env : Settings) (now utcOffset : Z) (ls : list Label) :
  forallb (keeps_limit (HOURLY_LAUNCH_LIMIT env)) ls = true ->
  let w := fst (run ls (boot env now utcOffset)) in
  hourlyLimit (mgr w) = HOURLY_LAUNCH_LIMIT env
  /\ 0 <= launchesThisHour (mgr w) <= Z.max 0 (HOURLY_LAUNCH_LIMIT env)
  /\ (forall tweetId, pc w = InFlight tweetId ->
        launchesThisHour (mgr w) < HOURLY_LAUNCH_LIMIT env).
Proof.
  intros Hk w.
  assert (B : within_limit (HOURLY_LAUNCH_LIMIT env) (boot env now utcOffset)).
  { unfold boot.
    match goal with |- within_limit _ (construct _ ?w0) =>
      destruct (construct_facts env w0) as (Cf & Cp & _ & _)
    end.
    unfold within_limit. rewrite Cf, Cp. cbn [file].
    split; [reflexivity|]. split; [cbn; lia|].
    split; intros z Hz; discriminate Hz. }
  destruct (run_within _ ls _ Hk B) as (Hl & Hn & Hp & _).
  fold w in Hl, Hn, Hp. split; [exact Hl|]. split; [exact Hn|exact Hp].
Qed.

Lemma hourly_counter_stays_within_limit_witness :
  let w := fst (run enqueue_three_and_drain
                    (boot (mkSettings 2 (inject_Z 1) 120) 1000000 0)) in
  launchesThisHour (mgr w) = 2
  /\ hourlyLimit (mgr w) = 2
  /\ 0 <= launchesThisHour (mgr w) <= Z.max 0 2
  /\ (forall tweetId, pc w = InFlight tweetId -> launchesThisHour (mgr w) < 2).
Proof.
  split; [vm_compute; reflexivity|].
  apply (hourly_counter_stays_within_limit
           (mkSettings 2 (inject_Z 1) 120) 1000000 0 enqueue_three_and_drain).
  reflexivity.
Defined.
End QueueCoverage.

(** ** Tickers, metadata and tweets *)

Section TextFacts.
Import Solana Js JsText.

Lemma substring_length n s :
  String.length (substring 0 n s) = Nat.min n (String.length s).
Proof.
  revert s. induction n as [|n IH]; intros [|c s]; cbn; try reflexivity.
  now rewrite IH.
Qed.

Lemma all_upper_substring n s :
  all_upper s = true -> all_upper (substring 0 n s) = true.
Proof.
  revert s. induction n as [|n IH]; intros [|c s]; cbn; try reflexivity.
  intros H. apply andb_prop in H. destruct H as [Hc Hs].
  now rewrite Hc, IH.
Qed.

Lemma is_empty_length s : is_empty s = true <-> String.length s = 0%nat.
Proof. destruct s; cbn; split; intros H; congruence. Qed.

Lemma is_empty_false_length s :
  is_empty s = false <-> (1 <= String.length s)%nat.
Proof. destruct s; cbn; split; intros H; try congruence; lia. Qed.

Lemma upper_is_word c : is_upper c = true -> is_word c = true.
Proof. unfold is_word. now intros ->. Qed.

Lemma upper_is_not_space c : is_upper c = true -> is_space c = false.
Proof.
  unfold is_upper, is_space, code. intros H.
  apply andb_prop in H. destruct H as [H1 H2].
  apply Nat.leb_le in H1. apply Nat.leb_le in H2.
  apply orb_false_intro.
  - apply andb_false_intro2. apply Nat.leb_gt. lia.
  - apply Nat.eqb_neq. lia.
Qed.

End TextFacts.

Section AiFacts.
Import Solana Js JsText Ai.

Lemma validateTicker_iff ticker :
  validateTicker ticker = true
  <-> (1 <= String.length ticker <= 10)%nat /\ all_upper ticker = true.
Proof.
  unfold validateTicker, only_capitals.
  destruct ticker as [|c rest]; cbn [is_empty negb andb].
  - cbn. split; [discriminate | intros [[H _] _]; lia].
  - cbn [orb]. replace (String.length (String c rest) <? 1)%nat with false
      by (symmetry; apply Nat.ltb_ge; cbn; lia).
    cbn [orb].
    destruct (Nat.ltb_spec 10 (String.length (String c rest))) as [Hl|Hl].
    + split; [discriminate | intros [[_ H] _]; lia].
    + destruct (all_upper (String c rest)); cbn [negb].
      * split; [intros _; split; [cbn in *; lia | reflexivity] | reflexivity].
      * split; [discriminate | intros [_ H]; discriminate H].
Qed.

Lemma span_upper_spec s :
  all_upper (fst (span_upper s)) = true
  /\ s = (fst (span_upper s) ++ snd (span_upper s))%string.
Proof.
  induction s as [|c rest IH]; cbn [span_upper].
  - now split.
  - destruct (is_upper c) eqn:Hc.
    + destruct (span_upper rest) as [run after]. cbn [fst snd] in *.
      destruct IH as (Hu & Hs). cbn. rewrite Hc, Hu.
      split; [reflexivity | now rewrite <- Hs].
    + now split.
Qed.

Lemma first_capital_word_spec s :
  forall prev word,
    first_capital_word prev s = Some word ->
    all_upper word = true /\ (3 <= String.length word)%nat.
Proof.
  induction s as [|c rest IH]; intros prev word.
  - discriminate.
  - unfold first_capital_word; fold first_capital_word.
    pose proof (span_upper_spec (String c rest)) as (Hu & _).
    destruct (span_upper (String c rest)) as [run after]. cbn [fst] in Hu.
    destruct (negb prev && (3 <=? String.length run)%nat
              && negb (starts_with_word after)) eqn:E.
    + intros [= <-]. split; [exact Hu|].
      apply andb_prop in E. destruct E as [E _].
      apply andb_prop in E. destruct E as [_ E].
      now apply Nat.leb_le.
    + apply IH.
Qed.

Lemma fallback_ticker_facts tweetContent :
  let suggestion := getFallbackSuggestion tweetContent in
  validateTicker (ticker suggestion) = true
  /\ (3 <= String.length (ticker suggestion) <= 6)%nat
  /\ name suggestion = ticker suggestion
  /\ match first_capital_word false (toUpperCase tweetContent) with
     | Some word => ticker suggestion = substring 0 6 word
     | None => ticker suggestion = "MEME"
     end.
Proof.
  cbv zeta. unfold getFallbackSuggestion. cbn [ticker name].
  destruct (first_capital_word false (toUpperCase tweetContent))
    as [word|] eqn:E.
  - destruct (first_capital_word_spec _ _ _ E) as (Hu & Hl).
    pose proof (substring_length 6 word) as L.
    pose proof (all_upper_substring 6 word Hu) as U.
    destruct (is_empty (substring 0 6 word)) eqn:Ee.
    { apply is_empty_length in Ee. lia. }
    split; [apply validateTicker_iff; split; [lia | exact U]|].
    split; [lia|]. split; reflexivity.
  - split; [reflexivity|]. split; [cbn; lia|]. split; reflexivity.
Qed.


Lemma analyzeImagesForToken_facts
    (initialized : bool) (response : option TokenSuggestion)
    (tweetContent : string) :
  match analyzeImagesForToken initialized response tweetContent with
  | Ok suggestion =>
      initialized = true
      /\ validateTicker (ticker suggestion) = true
      /\ (1 <= String.length (ticker suggestion) <= 10)%nat
      /\ all_upper (ticker suggestion) = true
      /\ (response = Some suggestion
          \/ suggestion = getFallbackSuggestion tweetContent)
  | Err _ => initialized = false
  end.
Proof.
  unfold analyzeImagesForToken.
  destruct initialized; cbn [negb]; [|reflexivity].
  assert (F : forall suggestion,
             suggestion = getFallbackSuggestion tweetContent ->
             true = true
             /\ validateTicker (ticker suggestion) = true
             /\ (1 <= String.length (ticker suggestion) <= 10)%nat
             /\ all_upper (ticker suggestion) = true
             /\ (response = Some suggestion
                 \/ suggestion = getFallbackSuggestion tweetContent)).
  { intros suggestion ->.
    destruct (fallback_ticker_facts tweetContent) as (V & L & _).
    apply validateTicker_iff in V as V'. destruct V' as (_ & U).
    repeat split; try assumption; try lia. now right. }
  destruct response as [suggestion|]; [|now apply F].
  destruct (validateTicker (ticker suggestion)) eqn:V; [|now apply F].
  apply validateTicker_iff in V as V'. destruct V' as (L & U).
  repeat split; try assumption; try lia. now left.
Qed.


End AiFacts.

Section CleaningFacts.
Import Solana Js JsText Ai.

Lemma all_upper_keep_capitals s : all_upper (keep_capitals s) = true.
Proof.
  induction s as [|c rest IH]; cbn; [reflexivity|].
  destruct (is_upper c) eqn:E; [cbn; now rewrite E, IH | exact IH].
Qed.

Lemma string_length_app (a b : string) :
  String.length (a ++ b)%string = (String.length a + String.length b)%nat.
Proof. induction a as [|c a IH]; cbn; [reflexivity | now rewrite IH]. Qed.

(** X16. What [parseAIResponse] makes of the parsed answer: the ticker
    is made of capital letters only and has at most ten of them; it
    passes [validateTicker] exactly when the raw ticker holds at least one
    letter, and is empty otherwise; the description has at most 100
    characters; the name is missing only when both the raw name and the
    ticker are. *)
Theorem cleaned_suggestion_is_bounded (parsed : Parsed) :
  let suggestion := cleanSuggestion parsed in
  all_upper (ticker suggestion) = true
  /\ (String.length (ticker suggestion) <= 10)%nat
  /\ (validateTicker (ticker suggestion) = true
      <-> is_empty (keep_capitals (toUpperCase (p_ticker parsed))) = false)
  /\ (is_empty (ticker suggestion) = true
      <-> is_empty (keep_capitals (toUpperCase (p_ticker parsed))) = true)
  /\ (String.length (description suggestion) <= 100)%nat
  /\ (is_empty (name suggestion) = true
      <-> is_empty (p_name parsed) = true
          /\ is_empty (ticker suggestion) = true).
Proof.
  cbv zeta. unfold cleanSuggestion. cbn [ticker description name].
  set (raw := keep_capitals (toUpperCase (p_ticker parsed))).
  assert (Hraw : all_upper raw = true) by apply all_upper_keep_capitals.
  set (t := if (10 <? String.length raw)%nat then substring 0 10 raw else raw).
  assert (Ht : all_upper t = true
               /\ (String.length t <= 10)%nat
               /\ (is_empty t = true <-> is_empty raw = true)).
  { subst t. destruct (Nat.ltb_spec 10 (String.length raw)) as [H|H].
    - split; [now apply all_upper_substring|].
      pose proof (substring_length 10 raw) as L. split; [lia|].
      rewrite !is_empty_length. lia.
    - split; [exact Hraw|]. split; [exact H | reflexivity]. }
  destruct Ht as (Hu & Hl & He).
  split; [exact Hu|]. split; [exact Hl|]. split; [|split; [exact He|split]].
  - rewrite validateTicker_iff. split.
    + intros [[H _] _]. destruct (is_empty raw) eqn:E; [|reflexivity].
      assert (Et : is_empty t = true) by (apply He; reflexivity).
      apply is_empty_length in Et. lia.
    + intros E. split; [split; [|exact Hl] | exact Hu].
      apply is_empty_false_length.
      destruct (is_empty t) eqn:Et; [|reflexivity].
      assert (Er : is_empty raw = true) by (apply He; reflexivity).
      congruence.
  - destruct (Nat.ltb_spec 100 (String.length (p_description parsed))) as [H|H];
      [|exact H].
    rewrite string_length_app, substring_length.
    change (String.length "...") with 3%nat. lia.
  - destruct (is_empty (p_name parsed)) eqn:En.
    + split; [intros H; now split | intros [_ H]; exact H].
    + split; [intros H; congruence | intros [H _]; discriminate H].
Qed.

End CleaningFacts.

Section MetadataFacts.
Import Solana Js JsText Metadata.

Lemma validateMetadata_true metadata valid :
  validateMetadata metadata = Ok valid -> valid = true.
Proof.
  unfold validateMetadata.
  repeat match goal with
         | |- context [if ?c then _ else _] => destruct c
         end; try congruence.
  destruct (creators metadata) as [|creator rest]; [congruence|].
  repeat match goal with
         | |- context [if ?c then _ else _] => destruct c
         end; congruence.
Qed.

Lemma generated_metadata_facts today ticker name description url creator :
  validateMetadata
    (generateMetadata today ticker name description url creator) = Ok true
  <-> is_empty name = false
      /\ is_empty description = false
      /\ Ai.validateTicker ticker = true
      /\ prefix "http" url = true
      /\ is_empty creator = false.
Proof.
  unfold validateMetadata, generateMetadata, Ai.validateTicker.
  cbn [Metadata.name symbol Metadata.description image creators address share].
  destruct (is_empty name); [split; [discriminate | intros (H & _); discriminate H]|].
  destruct (is_empty ticker) eqn:Et;
    [split; [discriminate | intros (_ & _ & H & _); discriminate H]|].
  destruct (is_empty description);
    [split; [discriminate | intros (_ & H & _); discriminate H]|].
  replace (String.length ticker <? 1)%nat with false
    by (symmetry; apply Nat.ltb_ge; now apply is_empty_false_length).
  cbn [orb].
  destruct (is_empty url) eqn:Eu.
  { split; [discriminate|]. intros (_ & _ & _ & H & _).
    destruct url; [discriminate H | discriminate Eu]. }
  destruct (10 <? String.length ticker)%nat;
    [split; [discriminate | intros (_ & _ & H & _); discriminate H]|].
  destruct (only_capitals ticker); cbn [negb];
    [|split; [discriminate | intros (_ & _ & H & _); discriminate H]].
  destruct (prefix "http" url); cbn [negb];
    [|split; [discriminate | intros (_ & _ & _ & H & _); discriminate H]].
  destruct (is_empty creator);
    [split; [discriminate | intros (_ & _ & _ & _ & H); discriminate H]|].
  cbn. split; [intros _; repeat split | reflexivity].
Qed.

(** X13. Metadata made by [generateMetadata] passes [validateMetadata]
    exactly when the name and the description are not empty, the ticker
    passes [validateTicker] (one to ten capital letters), the image URL
    starts with http and the creator address is not empty.  With the URL
    that [ipfsService] returns and the creator address that
    [getCreatorAddress] returns, this is when name and description are not
    empty and the ticker is valid.  [validateMetadata] never returns
    false: it returns true or throws. *)
Theorem generated_metadata_is_valid_iff
    (today ticker name description url creator : string) :
  (validateMetadata
     (generateMetadata today ticker name description url creator) = Ok true
   <-> is_empty name = false
       /\ is_empty description = false
       /\ Ai.validateTicker ticker = true
       /\ prefix "http" url = true
       /\ is_empty creator = false)
  /\ (forall hash CREATOR_WALLET_ADDRESS,
        validateMetadata
          (generateMetadata today ticker name description
             (getIPFSUrl hash) (getCreatorAddress CREATOR_WALLET_ADDRESS))
        = Ok true
        <-> is_empty name = false
            /\ is_empty description = false
            /\ Ai.validateTicker ticker = true)
  /\ (forall metadata valid,
        validateMetadata metadata = Ok valid -> valid = true).
Proof.
  split; [apply generated_metadata_facts|]. split; [|apply validateMetadata_true].
  intros hash env. rewrite generated_metadata_facts.
  assert (Hu : prefix "http" (getIPFSUrl hash) = true) by reflexivity.
  assert (Hc : is_empty (getCreatorAddress env) = false).
  { unfold getCreatorAddress. destruct (is_empty env) eqn:E; [reflexivity|exact E]. }
  rewrite Hu, Hc. tauto.
Qed.

End MetadataFacts.

Section TweetFacts.
Import Solana Js JsText Tweets.

Lemma existsb_eqb_in x (l : list string) :
  existsb (String.eqb x) l = true <-> In x l.
Proof.
  rewrite existsb_exists. split.
  - intros (y & Hin & E). apply String.eqb_eq in E. now subst.
  - intros Hin. exists x. split; [exact Hin | apply String.eqb_refl].
Qed.

Lemma unique_in images :
  forall seen x, In x (unique seen images) <-> In x images /\ ~ In x seen.
Proof.
  induction images as [|y rest IH]; intros seen x; cbn [unique].
  - cbn. tauto.
  - destruct (existsb (String.eqb y) seen) eqn:E.
    + apply existsb_eqb_in in E. rewrite IH. cbn. split.
      * intros [H1 H2]. tauto.
      * intros [[H|H] H2]; [subst; contradiction | tauto].
    + assert (Hy : ~ In y seen).
      { intros H. apply existsb_eqb_in in H. congruence. }
      cbn. rewrite IH. cbn. split.
      * intros [H|[H1 H2]]; [subst; tauto | tauto].
      * intros [[H|H] H2]; [now left|].
        destruct (String.eqb_spec y x) as [->|Hne]; [now left|].
        right. split; [exact H|]. intros [H3|H3]; [congruence | contradiction].
Qed.

Lemma unique_NoDup images : forall seen, NoDup (unique seen images).
Proof.
  induction images as [|y rest IH]; intros seen; cbn [unique].
  - constructor.
  - destruct (existsb (String.eqb y) seen); [apply IH|].
    constructor; [|apply IH].
    rewrite unique_in. intros [_ H]. apply H. now left.
Qed.

(** The first image is kept first. *)
Lemma unique_head x rest : unique [] (x :: rest) = x :: unique [x] rest.
Proof. reflexivity. Qed.

Lemma getAllImages_facts tweet :
  NoDup (getAllImages tweet)
  /\ (forall url,
        In url (getAllImages tweet)
        <-> match all_related_images tweet with
            | Some (first :: others) => In url (first :: others)
            | _ =>
                match images tweet with
                | Some direct => In url direct
                | None => False
                end
            end)
  /\ (getAllImages tweet = []
      <-> has_items (all_related_images tweet) = false
          /\ has_items (images tweet) = false).
Proof.
  unfold getAllImages. split; [apply unique_NoDup|]. split.
  - intros url. rewrite unique_in.
    destruct (all_related_images tweet) as [[|a l]|];
      destruct (images tweet) as [[|b m]|]; cbn; tauto.
  - destruct (all_related_images tweet) as [[|a l]|];
      destruct (images tweet) as [[|b m]|]; cbn;
      split; try tauto; try discriminate;
      intros [H1 H2]; discriminate.
Qed.


Ltac settle_cases :=
  try match goal with |- _ <> _ => intro end;
  repeat match goal with
         | H : exists _, _ |- _ => destruct H
         | H : _ /\ _ |- _ => destruct H
         | H : getAllImages _ = [], K : getAllImages _ = [] -> _ |- _ =>
             apply K in H; cbn in H
         | H : ?x <> ?x |- _ => now destruct H
         | H : _ = _ |- _ => discriminate H
         end;
  try reflexivity; try assumption; try discriminate; try tauto;
  try (eexists; reflexivity).

(** X14. [shouldProcessTweet] accepts a tweet exactly when it has an
    image of its own or a related one, its [images] column is present, it is
    not marked as launched, and its author, in lower case, is among the
    target users or no target user is configured.  An accepted tweet passes
    the first checks of the orchestrator: it is not launched and
    [getAllImages] finds an image.  A tweet whose [images] column is null
    and that passes the other filters through a related image makes the
    function throw. *)
Theorem accepted_tweet_can_be_launched (TARGET_USERS : string) (tweet : Tweet) :
  let wanted :=
    getTargetUsers TARGET_USERS = []
    \/ In (toLowerCase (username tweet)) (getTargetUsers TARGET_USERS) in
  (shouldProcessTweet TARGET_USERS tweet = Ok true
   <-> has_items (images tweet) || has_items (all_related_images tweet) = true
       /\ images tweet <> None
       /\ coin_launched tweet = false
       /\ wanted)
  /\ (shouldProcessTweet TARGET_USERS tweet = Ok true ->
      coin_launched tweet = false /\ getAllImages tweet <> [])
  /\ ((exists msg, shouldProcessTweet TARGET_USERS tweet = Err msg)
      <-> images tweet = None
          /\ has_items (all_related_images tweet) = true
          /\ coin_launched tweet = false
          /\ wanted).
Proof.
  cbv zeta.
  destruct (getAllImages_facts tweet) as (_ & _ & Hempty).
  unfold shouldProcessTweet.
  set (users := getTargetUsers TARGET_USERS) in *.
  set (who := toLowerCase (username tweet)).
  assert (Hw : (0 <? List.length users)%nat && negb (existsb (String.eqb who) users)
               = false
               <-> users = [] \/ In who users).
  { destruct users as [|u rest]; [cbn; tauto|].
    cbn [List.length Nat.ltb Nat.leb andb].
    rewrite negb_false_iff, existsb_eqb_in.
    split; [intros H; now right | intros [H|H]; [discriminate H | exact H]]. }
  assert (Hne : has_items (all_related_images tweet) = false
                /\ has_items (images tweet) = false
                -> getAllImages tweet = []) by apply Hempty.
  assert (Hen : getAllImages tweet = []
                -> has_items (all_related_images tweet) = false
                   /\ has_items (images tweet) = false) by apply Hempty.
  clear Hempty.
  destruct ((0 <? List.length users)%nat
            && negb (existsb (String.eqb who) users)) eqn:Ew.
  - assert (Hno : ~ (users = [] \/ In who users)).
    { intros H. apply Hw in H. discriminate H. }
    clear Hw.
    destruct (images tweet) as [[|b m]|];
      destruct (all_related_images tweet) as [[|a l]|];
      destruct (coin_launched tweet); cbn;
      repeat split; intros; settle_cases.
  - assert (Hyes : users = [] \/ In who users) by now apply Hw.
    clear Hw.
    destruct (images tweet) as [[|b m]|] eqn:Ei;
      destruct (all_related_images tweet) as [[|a l]|] eqn:Er;
      destruct (coin_launched tweet); cbn in *;
      repeat split; intros; settle_cases.
Qed.

End TweetFacts.

Section ConfigFacts.
Import Solana Js JsText.

Lemma rev_string_all_upper s :
  forall acc, all_upper acc = true -> all_upper s = true ->
    all_upper (rev_string acc s) = true.
Proof.
  induction s as [|c rest IH]; intros acc Ha Hs; cbn; [exact Ha|].
  cbn in Hs. apply andb_prop in Hs. destruct Hs as [Hc Hr].
  apply IH; [cbn; now rewrite Hc, Ha | exact Hr].
Qed.

Lemma rev_string_length s :
  forall acc,
    String.length (rev_string acc s)
    = (String.length s + String.length acc)%nat.
Proof.
  induction s as [|c rest IH]; intros acc; cbn; [reflexivity|].
  rewrite IH. cbn. lia.
Qed.

Lemma trim_start_upper s : all_upper s = true -> trim_start s = s.
Proof.
  destruct s as [|c rest]; cbn; [reflexivity|].
  intros H. apply andb_prop in H. destruct H as [Hc _].
  now rewrite (upper_is_not_space c Hc).
Qed.

(** Capital letters have no white space to trim. *)
Lemma trim_upper_length s :
  all_upper s = true -> String.length (trim s) = String.length s.
Proof.
  intros H. unfold trim. rewrite (trim_start_upper s H).
  rewrite (trim_start_upper (rev_string "" s))
    by (apply rev_string_all_upper; [reflexivity | exact H]).
  rewrite !rev_string_length. cbn. lia.
Qed.

(** X17. The configuration the orchestrator hands to [launchToken], made
    of a ticker that passed [validateTicker], a name that is not empty and
    the URL of the uploaded metadata, passes the guard of [launchToken];
    its symbol has at most ten characters; and unless the name is
    blank, [validateTokenConfig] accepts it. *)
Theorem orchestrator_launch_config_is_valid (name ticker hash : string) :
  Ai.validateTicker ticker = true ->
  is_empty name = false ->
  let config :=
    Orchestrator.launchConfig name ticker (Metadata.getIPFSUrl hash) in
  is_empty (Launch.name config) || is_empty (Launch.symbol config)
    || is_empty (Launch.metadataUrl config) = false
  /\ (1 <= String.length (Launch.symbol config) <= 10)%nat
  /\ ((String.length (trim name) =? 0)%nat = false ->
      Launch.validateTokenConfig config = Ok true).
Proof.
  intros Hv Hn. apply validateTicker_iff in Hv. destruct Hv as (Hl & Hu).
  cbv zeta. unfold Orchestrator.launchConfig.
  cbn [Launch.name Launch.symbol Launch.metadataUrl].
  assert (Ht : is_empty ticker = false) by (apply is_empty_false_length; lia).
  split; [rewrite Hn, Ht; reflexivity|]. split; [exact Hl|].
  intros Hb. unfold Launch.validateTokenConfig.
  cbn [Launch.name Launch.symbol Launch.initialBuy Launch.slippage].
  rewrite Hn, Hb, Ht, (trim_upper_length ticker Hu). cbn [orb].
  replace (String.length ticker =? 0)%nat with false
    by (symmetry; apply Nat.eqb_neq; lia).
  replace (10 <? String.length ticker)%nat with false
    by (symmetry; apply Nat.ltb_ge; lia).
  reflexivity.
Qed.

Lemma orchestrator_launch_config_is_valid_witness :
  let config :=
    Orchestrator.launchConfig "Doge Moon" "DOGE" (Metadata.getIPFSUrl "Qm1") in
  Ai.validateTicker "DOGE" = true
  /\ Launch.validateTokenConfig config = Ok true.
Proof.
  split; [reflexivity|].
  apply (orchestrator_launch_config_is_valid "Doge Moon" "DOGE" "Qm1");
    reflexivity.
Defined.

End ConfigFacts.

(** ** sell.ts and launch.ts: what is sent and what is reported *)

Section SellShape.
Import Solana Encoding Js Accounts Sell Wire Trace.
Context {L : Lib} (rpc : Rpc).

Lemma sent_app a b : sent (a ++ b) = sent a ++ sent b.
Proof.
  induction a as [|e a IH]; [reflexivity|].
  destruct e; cbn; rewrite ?IH; reflexivity.
Qed.

Lemma pollMint_sent tokenMint attempts log :
  exists extra,
    snd (pollMint rpc tokenMint attempts log) = log ++ extra
    /\ sent extra = [].
Proof.
  revert log. induction attempts as [|remaining IH]; intros log.
  - exists []. cbn. now rewrite app_nil_r.
  - cbn [pollMint]. unfold bind at 1, call at 1.
    destruct (getAccountInfo rpc (List.length log) tokenMint) as [found|msg].
    + destruct found.
      * exists [EvGetAccountInfo tokenMint]. now split.
      * unfold bind at 1.
        destruct remaining as [|remaining'].
        -- cbn. exists [EvGetAccountInfo tokenMint]. now split.
        -- unfold sleep at 1.
           destruct (IH ((log ++ [EvGetAccountInfo tokenMint]) ++ [EvSleep 2000]))
             as (extra & Hlog & Hs).
           exists ([EvGetAccountInfo tokenMint] ++ [EvSleep 2000] ++ extra).
           split.
           ++ rewrite Hlog. now rewrite <- !app_assoc.
           ++ rewrite !sent_app, Hs. reflexivity.
    + exists [EvGetAccountInfo tokenMint]. now split.
Qed.

Lemma sellToken_shape config privateKey :
  let r := sellToken rpc config privateKey in
  (List.length (sent (snd r)) <= 1)%nat
  /\ (success (fst r) = true ->
      exists payer ixs calls sig received,
        payerOf privateKey = Some payer
        /\ sent (snd r) = [(ixs, [publicKey payer])]
        /\ sendAndConfirmTransactionWrapper rpc calls ixs = Ok (Some sig)
        /\ fst r = mkResult true (Some sig) (Some received) None
        /\ (0 <= received)%Q)
  /\ (success (fst r) = false ->
      signature (fst r) = None /\ solReceived (fst r) = None
      /\ exists msg, error (fst r) = Some msg)
  /\ (sent (snd r) = [] -> success (fst r) = false).
Proof.
  cbv zeta. pattern (sellToken rpc config privateKey).
  match goal with |- ?P _ => set (Goal := P) end.
  assert (Fail : forall msg log,
             (List.length (sent log) <= 1)%nat ->
             Goal (mkResult false None None (Some msg), log)).
  { intros msg log Hs. subst Goal.
    cbn [fst snd success signature solReceived error].
    split; [exact Hs|]. split; [discriminate|].
    split; [intros _; repeat split; eexists; reflexivity | reflexivity]. }
  assert (Win : forall payer ixs calls sig received log,
             payerOf privateKey = Some payer ->
             sent log = [(ixs, [publicKey payer])] ->
             sendAndConfirmTransactionWrapper rpc calls ixs = Ok (Some sig) ->
             (0 <= received)%Q ->
             Goal (mkResult true (Some sig) (Some received) None, log)).
  { intros payer ixs calls sig received log Hp Hs Hc Hr. subst Goal.
    cbn [fst snd success signature solReceived error].
    rewrite Hs. split; [cbn; lia|]. split.
    - intros _. exists payer, ixs, calls, sig, received. now repeat split.
    - split; [discriminate | discriminate]. }
  clearbody Goal.
  unfold sellToken, try_catch at 1, sellToken_try.
  unfold bind at 1.
  destruct (payerOf privateKey) as [payer|] eqn:Hpayer;
    [|apply Fail; cbn; lia].
  cbn [orThrow ret].
  destruct (validateSellConfig (withTokenAmount config (inject_Z 1)))
    as [valid|msg]; [|apply Fail; cbn; lia].
  unfold bind at 1.
  destruct (newPublicKey (Sell.tokenMint config)) as [tokenMint|];
    [|apply Fail; cbn; lia].
  cbn [orThrow ret].
  unfold bind at 1.
  destruct (pollMint_sent tokenMint 5 []) as (pre & Hpre & Spre).
  destruct (pollMint rpc tokenMint 5 []) as [found log1].
  cbn [snd app] in Hpre. subst log1.
  destruct found as [found|msg]; [|apply Fail; rewrite Spre; cbn; lia].
  unfold bind at 1.
  destruct found; [|apply Fail; rewrite Spre; cbn; lia].
  cbn [ret].
  set (owner := publicKey payer).
  set (account := getAssociatedTokenAddress tokenMint owner).
  unfold bind at 1, call at 1.
  destruct (getTokenAccountBalance rpc (List.length pre) account)
    as [balance|msg];
    [|apply Fail; rewrite sent_app, Spre; cbn; lia].
  unfold bind at 1.
  destruct (sellInstructions tokenMint owner account balance)
    as [instructions|];
    [|apply Fail; rewrite sent_app, Spre; cbn; lia].
  cbn [orThrow ret].
  unfold bind at 1, call at 1.
  destruct (createTransaction rpc
              (List.length (pre ++ [EvGetTokenAccountBalance account]))
              instructions) as [[]|msg];
    [|apply Fail; rewrite !sent_app, Spre; cbn; lia].
  unfold bind at 1, call at 1.
  destruct (sendAndConfirmTransactionWrapper rpc _ instructions)
    as [[sig|]|msg] eqn:Hsend;
    [| apply Fail; rewrite !sent_app, Spre; cbn; lia
     | apply Fail; rewrite !sent_app, Spre; cbn; lia].
  unfold bind at 1, try_catch, bind, sleep, call.
  destruct (getParsedTransaction rpc _ sig) as [txInfo|msg]; cbn [ret].
  - eapply Win; [reflexivity | | exact Hsend |].
    + rewrite !sent_app, Spre. reflexivity.
    + destruct (truthy (actualSolReceived owner txInfo));
        [apply actualSolReceived_nonneg | discriminate].
  - eapply Win; [reflexivity | | exact Hsend |].
    + rewrite !sent_app, Spre. reflexivity.
    + cbn. discriminate.
Qed.



(** X18. When the mint is not visible, [sellToken] reads it five times,
    two seconds apart, and gives up: nothing else is read, nothing is sent,
    and the failure names the mint. *)
Theorem sell_gives_up_after_five_polls
    (config : SellConfig) (privateKey : KeyInput)
    (payer : Keypair) (mint : PublicKey) :
  payerOf privateKey = Some payer ->
  validateSellConfig (withTokenAmount config (inject_Z 1)) = Ok true ->
  newPublicKey (Sell.tokenMint config) = Some mint ->
  (forall calls, getAccountInfo rpc calls mint = Ok false) ->
  sellToken rpc config privateKey
  = (mkResult false None None
       (Some ("Token mint " ++ Sell.tokenMint config
              ++ " does not exist after 5 attempts")%string),
     [ EvGetAccountInfo mint; EvSleep 2000;
       EvGetAccountInfo mint; EvSleep 2000;
       EvGetAccountInfo mint; EvSleep 2000;
       EvGetAccountInfo mint; EvSleep 2000;
       EvGetAccountInfo mint ]).
Proof.
  intros Hp Hv Hm Hno.
  unfold sellToken, try_catch, sellToken_try.
  unfold bind at 1. rewrite Hp. cbn [orThrow ret]. rewrite Hv.
  unfold bind at 1. rewrite Hm. cbn [orThrow ret].
  unfold bind at 1.
  assert (Poll : pollMint rpc mint 5 []
                 = (Ok false,
                    [ EvGetAccountInfo mint; EvSleep 2000;
                      EvGetAccountInfo mint; EvSleep 2000;
                      EvGetAccountInfo mint; EvSleep 2000;
                      EvGetAccountInfo mint; EvSleep 2000;
                      EvGetAccountInfo mint ])).
  { cbn [pollMint]. unfold bind, call, sleep, ret.
    repeat (cbv beta iota; rewrite Hno). reflexivity. }
  rewrite Poll. unfold bind at 1. cbn. reflexivity.
Qed.

Lemma sellToken_only_mint c1 c2 privateKey :
  Sell.tokenMint c1 = Sell.tokenMint c2 ->
  validateSellConfig (withTokenAmount c1 (inject_Z 1)) = Ok true ->
  validateSellConfig (withTokenAmount c2 (inject_Z 1)) = Ok true ->
  sellToken rpc c1 privateKey = sellToken rpc c2 privateKey.
Proof.
  intros Hm H1 H2. unfold sellToken, sellToken_try.
  rewrite H1, H2, Hm. reflexivity.
Qed.

(** X20. Once the configuration has passed validation, the mint is all
    [sellToken] takes from it: two configurations for the same mint that
    both pass give the same result and the same calls, whatever their
    slippage, priority fee, amount and minimum.  The transaction always
    asks for 100000 compute units at a price of 1000
    micro-lamports. *)
Theorem sell_reads_only_the_mint
    (c1 c2 : SellConfig) (privateKey : KeyInput) :
  Sell.tokenMint c1 = Sell.tokenMint c2 ->
  validateSellConfig (withTokenAmount c1 (inject_Z 1)) = Ok true ->
  validateSellConfig (withTokenAmount c2 (inject_Z 1)) = Ok true ->
  sellToken rpc c1 privateKey = sellToken rpc c2 privateKey
  /\ (forall ixs,
        In ixs (submitted (snd (sellToken rpc c1 privateKey))) ->
        exists ix,
          ixs = [SetComputeUnitLimit 100000; SetComputeUnitPrice 1000;
                 Program ix]).
Proof.
  intros Hm H1 H2. split; [now apply sellToken_only_mint|].
  intros ixs Hin.
  destruct (sellToken_submitted rpc c1 privateKey _ _ ixs
              (surjective_pairing _) Hin)
    as (payer & tokenMint & pre & balance & post & _ & _ & _ & Hfields).
  cbv zeta in Hfields. destruct Hfields as (_ & _ & _ & Hix & _).
  destruct (sellInstructions_fields _ _ _ _ _ Hix) as (ix & E & _).
  now exists ix.
Qed.

End SellShape.

Lemma sell_gives_up_after_five_polls_witness :
  let rpc :=
    Solana.mkRpc (fun _ _ => Solana.Ok false) (fun _ _ => Solana.Ok 42)
                 (fun _ _ => Solana.Ok tt)
                 (fun _ _ => Solana.Ok (Some "Signature"))
                 (fun _ _ => Solana.Ok None) in
  let r := Sell.sellToken (L := Demo.lib) rpc
             (Orchestrator.sellConfig "Mint") Demo.wallet in
  Trace.polled (snd r) = ["Mint"; "Mint"; "Mint"; "Mint"; "Mint"]
  /\ Trace.sent (snd r) = []
  /\ Sell.error (fst r)
     = Some "Token mint Mint does not exist after 5 attempts".
Proof.
  cbv zeta.
  rewrite (sell_gives_up_after_five_polls (L := Demo.lib)
             (Solana.mkRpc (fun _ _ => Solana.Ok false)
                (fun _ _ => Solana.Ok 42) (fun _ _ => Solana.Ok tt)
                (fun _ _ => Solana.Ok (Some "Signature"))
                (fun _ _ => Solana.Ok None))
             (Orchestrator.sellConfig "Mint") Demo.wallet
             (Solana.mkKeypair "Wallet") "Mint"
             eq_refl eq_refl eq_refl (fun _ => eq_refl)).
  repeat split.
Defined.

Lemma sell_reads_only_the_mint_witness :
  let c1 := Orchestrator.sellConfig "Mint" in
  let c2 := Sell.mkConfig "Mint" (inject_Z 7) 0%Q (inject_Z 100) 0%Q in
  Sell.sellToken (L := Demo.lib) (Demo.rpc 42 1000 2000) c1 Demo.wallet
  = Sell.sellToken (L := Demo.lib) (Demo.rpc 42 1000 2000) c2 Demo.wallet.
Proof.
  apply (sell_reads_only_the_mint (L := Demo.lib) (Demo.rpc 42 1000 2000)
           (Orchestrator.sellConfig "Mint")
           (Sell.mkConfig "Mint" (inject_Z 7) 0%Q (inject_Z 100) 0%Q)
           Demo.wallet); reflexivity.
Defined.

Section LaunchShape.
Import Solana Encoding Js Accounts Launch Wire Trace.
Context {L : Lib} (rpc : Rpc).

Lemma launchToken_paths config privateKey :
  let r := launchToken rpc config privateKey in
  let mint :=
    publicKey (match mintKeypair config with
               | Some k => k
               | None => generate
               end) in
  let fee :=
    match priorityFee config with Some f => f | None => (1 # 1000)%Q end in
  let buying :=
    Qltb 0 (match initialBuy config with Some b => b | None => 0%Q end) in
  ((List.length (sent (snd r)) <= 1)%nat
   /\ (success (fst r) = true ->
       exists payer ixs calls sig,
         fst (keyPairOf privateKey []) = Ok payer
         /\ sent (snd r) = [(ixs, [publicKey payer; mint])]
         /\ sendAndConfirmTransactionWrapper rpc calls ixs = Ok (Some sig)
         /\ fst r = mkResult true (Some sig) (Some mint) None)
   /\ (success (fst r) = false ->
       signature (fst r) = None /\ tokenAddress (fst r) = None
       /\ exists msg, error (fst r) = Some msg)
   /\ (sent (snd r) = [] -> success (fst r) = false))
  /\ (forall ixs, In ixs (submitted (snd r)) ->
      exists payer create buyPart,
        fst (keyPairOf privateKey []) = Ok payer
        /\ let owner := publicKey payer in
           let account := getAssociatedTokenAddress mint owner in
           ixs = priorityInstructions fee ++ [Program create] ++ buyPart
           /\ keys create = createKeys mint owner
           /\ programId create = PUMP_FUN_PROGRAM
           /\ if buying
              then exists found buy,
                     getAccountInfo rpc 0 account = Ok found
                     /\ polled (snd r) = [account]
                     /\ buyPart
                        = (if (found : bool) then []
                           else [CreateAssociatedTokenAccount
                                   owner account owner mint])
                          ++ [Program buy]
                     /\ keys buy = buyKeys mint owner account
                     /\ programId buy = PUMP_FUN_PROGRAM
              else buyPart = [] /\ polled (snd r) = []).
Proof.
  cbv zeta.
  set (mint := publicKey (match mintKeypair config with
                          | Some k => k
                          | None => generate
                          end)).
  set (fee := match priorityFee config with
              | Some f => f
              | None => (1 # 1000)%Q
              end).
  pattern (launchToken rpc config privateKey).
  match goal with |- ?P _ => set (Goal := P) end.
  assert (Early : forall msg log,
             sent log = [] -> submitted log = [] ->
             Goal (mkResult false None None (Some msg), log)).
  { intros msg log Hs Hsub. subst Goal.
    cbn [fst snd success signature tokenAddress error].
    rewrite Hs, Hsub. split.
    - split; [cbn; lia|]. split; [discriminate|].
      split; [intros _; repeat split; eexists; reflexivity | reflexivity].
    - intros ixs []. }
  assert (Late : forall payer create buyPart log result,
             fst (keyPairOf privateKey []) = Ok payer ->
             keys create = createKeys mint (publicKey payer) ->
             programId create = PUMP_FUN_PROGRAM ->
             (if Qltb 0 (match initialBuy config with
                         | Some b => b
                         | None => 0%Q
                         end)
              then exists found buy,
                     getAccountInfo rpc 0
                       (getAssociatedTokenAddress mint (publicKey payer))
                     = Ok found
                     /\ polled log
                        = [getAssociatedTokenAddress mint (publicKey payer)]
                     /\ buyPart
                        = (if (found : bool) then []
                           else [CreateAssociatedTokenAccount
                                   (publicKey payer)
                                   (getAssociatedTokenAddress mint
                                      (publicKey payer))
                                   (publicKey payer) mint])
                          ++ [Program buy]
                     /\ keys buy
                        = buyKeys mint (publicKey payer)
                            (getAssociatedTokenAddress mint (publicKey payer))
                     /\ programId buy = PUMP_FUN_PROGRAM
              else buyPart = [] /\ polled log = []) ->
             (forall x, In x (submitted log) ->
                x = priorityInstructions fee ++ [Program create] ++ buyPart) ->
             (sent log = [] /\ exists msg, result = mkResult false None None (Some msg))
             \/ (sent log
                 = [(priorityInstructions fee ++ [Program create] ++ buyPart,
                     [publicKey payer; mint])]
                 /\ ((exists msg, result = mkResult false None None (Some msg))
                     \/ exists calls sig,
                          sendAndConfirmTransactionWrapper rpc calls
                            (priorityInstructions fee ++ [Program create]
                             ++ buyPart) = Ok (Some sig)
                          /\ result = mkResult true (Some sig) (Some mint) None)) ->
             Goal (result, log)).
  { intros payer create buyPart log result Hp Hk Hid Hbuy Hsub Hres.
    subst Goal. cbn [fst snd]. split.
    - destruct Hres as [(Hs & msg & ->) | (Hs & [(msg & ->) | (calls & sig & Hc & ->)])];
        rewrite Hs; cbn [success signature tokenAddress error].
      + split; [cbn; lia|]. split; [discriminate|].
        split; [intros _; repeat split; eexists; reflexivity | reflexivity].
      + split; [cbn; lia|]. split; [discriminate|].
        split; [intros _; repeat split; eexists; reflexivity | discriminate].
      + split; [cbn; lia|]. split.
        * intros _. exists payer. eexists. exists calls, sig.
          split; [exact Hp|]. split; [reflexivity|]. split; [exact Hc|reflexivity].
        * split; discriminate.
    - intros ixs Hin. apply Hsub in Hin. subst ixs.
      exists payer, create, buyPart. split; [exact Hp|]. cbv zeta.
      split; [reflexivity|]. split; [exact Hk|]. split; [exact Hid|exact Hbuy]. }
  clearbody Goal.
  unfold launchToken, try_catch at 1, launchToken_try.
  unfold bind at 1.
  destruct (is_empty (name config) || is_empty (symbol config)
            || is_empty (metadataUrl config));
    [now apply Early|].
  cbn [ret].
  unfold bind at 1.
  pose proof (keyPairOf_log privateKey []) as Hklog.
  destruct (keyPairOf privateKey []) as [[payer|msg] log0] eqn:Hkey;
    cbn [snd] in Hklog; subst log0; [|now apply Early].
  assert (Hp : fst (@Ok Keypair payer, @nil Event) = Ok payer) by reflexivity.
  set (owner := publicKey payer) in *.
  fold mint.
  unfold bind at 1.
  destruct (bufferFromString (name config)) as [nameBuffer|];
    [|now apply Early].
  cbn [orThrow ret]. unfold bind at 1.
  destruct (bufferFromString (symbol config)) as [symbolBuffer|];
    [|now apply Early].
  cbn [orThrow ret]. unfold bind at 1.
  destruct (bufferFromString (metadataUrl config)) as [uriBuffer|];
    [|now apply Early].
  cbn [orThrow ret].
  set (create := mkIx (createKeys mint owner) PUMP_FUN_PROGRAM _).
  assert (Hck : keys create = createKeys mint owner) by reflexivity.
  assert (Hcp : programId create = PUMP_FUN_PROGRAM) by reflexivity.
  clearbody create.
  fold fee.
  specialize (Late payer create).
  unfold bind at 1.
  destruct (Qltb 0 match initialBuy config with Some b => b | None => 0%Q end).
  - (* with an initial buy *)
    set (account := getAssociatedTokenAddress mint owner) in *.
    unfold bind at 1, call at 1. cbn [List.length app].
    destruct (getAccountInfo rpc 0 account) as [found|msg] eqn:Hfound;
      [|now apply Early].
    destruct (buyAmounts _ _) as [quote maxSolCost].
    unfold bind at 1.
    destruct quote as [tokenOut|]; [|now apply Early].
    cbn [orThrow ret]. unfold bind at 1.
    destruct (bufferFromUInt64 buy_discriminator) as [code|];
      [|now apply Early].
    cbn [orThrow ret]. unfold bind at 1.
    destruct (bufferFromUInt64 tokenOut) as [amount|]; [|now apply Early].
    cbn [orThrow ret]. unfold bind at 1.
    destruct (bufferFromUInt64 maxSolCost) as [cost|]; [|now apply Early].
    cbn [orThrow ret].
    set (buyIx := mkIx (buyKeys mint owner account) PUMP_FUN_PROGRAM _).
    assert (Hbk : keys buyIx = buyKeys mint owner account) by reflexivity.
    assert (Hbp : programId buyIx = PUMP_FUN_PROGRAM) by reflexivity.
    clearbody buyIx.
    set (ensure := if found then [] else _).
    specialize (Late (ensure ++ [Program buyIx])).
    assert (Hbuy : exists found0 buy,
               getAccountInfo rpc 0 account = Ok found0
               /\ [account] = [account]
               /\ ensure ++ [Program buyIx]
                  = (if (found0 : bool) then []
                     else [CreateAssociatedTokenAccount owner account owner mint])
                    ++ [Program buy]
               /\ keys buy = buyKeys mint owner account
               /\ programId buy = PUMP_FUN_PROGRAM).
    { exists found, buyIx. now repeat split. }
    clearbody ensure.
    unfold bind at 1, call at 1.
    destruct (createTransaction rpc _ _) as [[]|msg].
    2: { cbn. apply Late; [exact Hp | exact Hck | exact Hcp | exact Hbuy | |].
         - intros x [H|[]]. now subst.
         - left. split; [reflexivity | eexists; reflexivity]. }
    unfold bind at 1, call at 1.
    destruct (sendAndConfirmTransactionWrapper rpc _ _) as [[sig|]|msg] eqn:Hsend;
      cbn; (apply Late; [exact Hp | exact Hck | exact Hcp | exact Hbuy | |]);
      try (intros x [H|[H|[]]]; now subst);
      right; (split; [reflexivity|]).
    + right. eexists. exists sig. split; [exact Hsend | reflexivity].
    + left. eexists. reflexivity.
    + left. eexists. reflexivity.
  - (* no initial buy *)
    cbn [ret]. specialize (Late []).
    unfold bind at 1, call at 1.
    destruct (createTransaction rpc _ _) as [[]|msg].
    2: { cbn. apply Late; [exact Hp | exact Hck | exact Hcp | now split | |].
         - intros x [H|[]]. now subst.
         - left. split; [reflexivity | eexists; reflexivity]. }
    unfold bind at 1, call at 1.
    destruct (sendAndConfirmTransactionWrapper rpc _ _) as [[sig|]|msg] eqn:Hsend;
      cbn; (apply Late; [exact Hp | exact Hck | exact Hcp | now split | |]);
      try (intros x [H|[H|[]]]; now subst);
      right; (split; [reflexivity|]).
    + right. eexists. exists sig. split; [exact Hsend | reflexivity].
    + left. eexists. reflexivity.
    + left. eexists. reflexivity.
Qed.




End LaunchShape.


(** ** orchestrator.ts: from a tweet to a token *)

Section PipelineFacts.
Import Solana Js JsText Tweets Pipeline.
Context {L : Lib} (S : Services).

Lemma preparing_downloads urls : forallb preparing (map EvDownload urls) = true.
Proof. induction urls; cbn; [reflexivity | assumption]. Qed.

Lemma preparing_validations paths :
  forallb preparing (map EvValidateImage paths) = true.
Proof. induction paths; cbn; [reflexivity | assumption]. Qed.

Ltac stop_here :=
  left; eexists _, _, _; split; [reflexivity|];
  rewrite ?forallb_app, ?preparing_downloads, ?preparing_validations;
  reflexivity.

(** The five ways [launchTokenFromTweet] ends: before the launch, at a
    launch that failed, at the insertion of the record, at the update of
    the tweet, or with everything done. *)
Lemma launchTokenFromTweet_cases privateKey tweetId :
  let r := launchTokenFromTweet S privateKey tweetId in
  (exists msg downloaded before,
     r = failed tweetId downloaded msg before
     /\ forallb preparing before = true
     /\ (downloaded = []
         /\ (forall tweet,
               getTweetById S tweetId = Ok (Some tweet) ->
               coin_launched tweet = false ->
               downloadAllImages S (getAllImages tweet) = [])
         \/ exists tweet,
              getTweetById S tweetId = Ok (Some tweet)
              /\ coin_launched tweet = false
              /\ downloaded = downloadAllImages S (getAllImages tweet)))
  \/ exists tweet paths suggestion imageHash metadataHash config before,
       checked S tweetId tweet paths suggestion metadataHash config
       /\ forallb preparing before = true
       /\ let launched :=
            Launch.launchToken (launchRpc S) config (KeyText privateKey) in
          let atLaunch := before ++ [EvLaunchToken config (snd launched)] in
          (Launch.success (fst launched) = false
           /\ exists msg, r = failed tweetId paths msg atLaunch)
          \/ (Launch.success (fst launched) = true
              /\ let tokenAddress :=
                   match Launch.tokenAddress (fst launched) with
                   | Some a => a
                   | None => ""
                   end in
                 let sold :=
                   Sell.sellToken (sellRpc S)
                     (Orchestrator.sellConfig tokenAddress)
                     (KeyText privateKey) in
                 let received :=
                   if Sell.success (fst sold)
                   then match Sell.solReceived (fst sold) with
                        | Some q => q
                        | None => 0%Q
                        end
                   else 0%Q in
                 exists data sellSignature,
                   tweet_id data = tweetId
                   /\ contract_address data = tokenAddress
                   /\ token_symbol data = Ai.ticker suggestion
                   /\ ipfs_image_hash data = imageHash
                   /\ ipfs_metadata_hash data = metadataHash
                   /\ sol_spent data = Orchestrator.solSpent
                   /\ sol_received data = received
                   /\ profit_loss data = (received - Orchestrator.solSpent)%Q
                   /\ status data
                      = (if Sell.success (fst sold) then Sold else Launched)
                   /\ let atSave :=
                        atLaunch
                        ++ [ EvSleep 15000;
                             EvSellToken (Orchestrator.sellConfig tokenAddress)
                                         (snd sold);
                             EvSaveLaunchedToken data ] in
                      (exists msg,
                         saveLaunchedToken S data = Err msg
                         /\ r = failed tweetId paths msg atSave)
                      \/ (saveLaunchedToken S data = Ok tt
                          /\ exists msg,
                               updateTweetLaunchStatus S tweetId tokenAddress
                               = Err msg
                               /\ r = failed tweetId paths msg
                                        (atSave
                                         ++ [EvUpdateTweet tweetId tokenAddress]))
                      \/ (saveLaunchedToken S data = Ok tt
                          /\ updateTweetLaunchStatus S tweetId tokenAddress
                             = Ok tt
                          /\ r = (mkResult true
                                    (Launch.tokenAddress (fst launched))
                                    (Some (Ai.ticker suggestion))
                                    (Some (Ai.name suggestion))
                                    (Launch.signature (fst launched))
                                    (Some sellSignature)
                                    (Some Orchestrator.solSpent)
                                    (Some received)
                                    (Some (received - Orchestrator.solSpent)%Q)
                                    None,
                                  atSave
                                  ++ [ EvUpdateTweet tweetId tokenAddress;
                                       EvCleanup paths ]))).
Proof.
  cbv zeta. pattern (launchTokenFromTweet S privateKey tweetId).
  match goal with |- ?P _ => set (Goal := P) end.
  assert (Stop0 : forall msg before,
             forallb preparing before = true ->
             (forall tweet,
                getTweetById S tweetId = Ok (Some tweet) ->
                coin_launched tweet = false ->
                downloadAllImages S (getAllImages tweet) = []) ->
             Goal (failed tweetId [] msg before)).
  { intros msg before Hb Hnone. left.
    exists msg, [], before. split; [reflexivity|]. split; [exact Hb|].
    left. now split. }
  assert (Stop1 : forall tweet msg before,
             getTweetById S tweetId = Ok (Some tweet) ->
             coin_launched tweet = false ->
             forallb preparing before = true ->
             Goal (failed tweetId (downloadAllImages S (getAllImages tweet))
                     msg before)).
  { intros tweet msg before Hg Hc Hb. left.
    exists msg, (downloadAllImages S (getAllImages tweet)), before.
    split; [reflexivity|]. split; [exact Hb|]. right. now exists tweet. }
  assert (Go : forall r, _ -> Goal r) by (intros r H; right; exact H).
  clearbody Goal.
  unfold launchTokenFromTweet.
  unfold collect. unfold bind at 1, call at 1. cbn [app].
  destruct (getTweetById S tweetId) as [[tweet|]|msg] eqn:Hget;
    [| apply Stop0; [reflexivity | intros t E; discriminate E]
     | apply Stop0; [reflexivity | intros t E; discriminate E]].
  destruct (coin_launched tweet) eqn:Hcl.
  { apply Stop0; [reflexivity|]. intros t [= <-] E. congruence. }
  specialize (Stop1 tweet).
  destruct (getAllImages tweet) as [|u urls] eqn:Himgs.
  { apply Stop0; [reflexivity|]. intros t [= <-] _. now rewrite Himgs. }
  unfold bind at 1, emit at 1, ret at 1.
  set (log1 := [EvGetTweet tweetId] ++ map EvDownload (u :: urls)).
  assert (P1 : forallb preparing log1 = true).
  { subst log1. rewrite forallb_app, preparing_downloads. reflexivity. }
  clearbody log1.
  set (paths := downloadAllImages S (u :: urls)).
  assert (Hpaths : paths = downloadAllImages S (getAllImages tweet))
    by (now rewrite Himgs).
  rewrite <- Himgs in Stop1. rewrite <- Hpaths in Stop1.
  clearbody paths. clear Himgs.
  assert (Stop : forall msg before,
             forallb preparing before = true ->
             Goal (failed tweetId paths msg before))
    by (intros msg before Hb; now apply Stop1).
  clear Stop1.
  unfold proceed.
  destruct paths as [|firstImagePath others] eqn:Epaths.
  { apply Stop0; [exact P1|]. intros t [= <-] _. now symmetry. }
  rewrite <- Epaths in *.
  assert (Hne : paths <> []) by (rewrite Epaths; discriminate).
  clear Epaths.
  unfold bind at 1, emit at 1.
  set (log2 := log1 ++ map EvValidateImage paths).
  assert (P2 : forallb preparing log2 = true).
  { subst log2. rewrite forallb_app, P1, preparing_validations. reflexivity. }
  clearbody log2.
  unfold bind at 1, call at 1.
  pose proof (analyzeImagesForToken_facts (aiInitialized S)
                (aiResponse S paths (content tweet)) (content tweet)) as Hai.
  destruct (Ai.analyzeImagesForToken (aiInitialized S)
              (aiResponse S paths (content tweet)) (content tweet))
    as [suggestion|msg];
    [|apply Stop; rewrite forallb_app, P2; reflexivity].
  set (log3 := log2 ++ [EvAnalyze paths (content tweet)]).
  assert (P3 : forallb preparing log3 = true).
  { subst log3. rewrite forallb_app, P2. reflexivity. }
  clearbody log3.
  unfold bind at 1.
  destruct (getClient S) as [[]|msg]; [|now apply Stop].
  unfold bind at 1, emit at 1.
  unfold bind at 1, call at 1.
  destruct (uploadImageToIPFS S firstImagePath _) as [imageHash|msg];
    [|apply Stop; rewrite !forallb_app, P3; reflexivity].
  set (log4 := (log3 ++ _) ++ _).
  assert (P4 : forallb preparing log4 = true).
  { subst log4. rewrite !forallb_app, P3. reflexivity. }
  clearbody log4.
  pose proof (generated_metadata_facts (today S) (Ai.ticker suggestion)
                (Ai.name suggestion) (Ai.description suggestion)
                (Metadata.getIPFSUrl imageHash)
                (Metadata.getCreatorAddress (CREATOR_WALLET_ADDRESS S)))
    as Hmeta.
  pose proof (validateMetadata_true
                (Metadata.generateMetadata (today S) (Ai.ticker suggestion)
                   (Ai.name suggestion) (Ai.description suggestion)
                   (Metadata.getIPFSUrl imageHash)
                   (Metadata.getCreatorAddress (CREATOR_WALLET_ADDRESS S))))
    as Htrue.
  destruct (Metadata.validateMetadata _) as [valid|msg]; [|now apply Stop].
  specialize (Htrue valid eq_refl). subst valid.
  destruct Hmeta as [Hmeta _]. specialize (Hmeta eq_refl).
  destruct Hmeta as (Hname & Hdesc & _).
  unfold bind at 1, call at 1.
  destruct (uploadMetadataToIPFS S _ _) as [metadataHash|msg];
    [|apply Stop; rewrite forallb_app, P4; reflexivity].
  set (before := log4 ++ _).
  assert (Pb : forallb preparing before = true).
  { subst before. rewrite forallb_app, P4. reflexivity. }
  clearbody before.
  set (config := Orchestrator.launchConfig (Ai.name suggestion)
                   (Ai.ticker suggestion) (Metadata.getIPFSUrl metadataHash)).
  assert (Hchecked : checked S tweetId tweet paths suggestion metadataHash config).
  { destruct Hai as (_ & Hv & _). unfold checked. now repeat split. }
  assert (Go2 : forall r, _ -> Goal r)
    by (intros r H; apply Go;
        exists tweet, paths, suggestion, imageHash, metadataHash, config, before;
        split; [exact Hchecked|]; split; [exact Pb|]; exact H).
  clear Go Stop Stop0.
  set (launched := Launch.launchToken (launchRpc S) config (KeyText privateKey)).
  unfold bind at 1, emit at 1.
  destruct (Launch.success (fst launched)) eqn:Hok; cbn [negb].
  2: { unfold throw. apply Go2. left. split; [exact Hok|].
       eexists. reflexivity. }
  unfold bind at 1, emit at 1. unfold bind at 1, emit at 1.
  set (tokenAddress := match Launch.tokenAddress (fst launched) with
                       | Some a => a
                       | None => ""
                       end).
  set (sold := Sell.sellToken (sellRpc S) (Orchestrator.sellConfig tokenAddress)
                 (KeyText privateKey)).
  unfold bind at 1, call at 1.
  match goal with
  | |- context [saveLaunchedToken S ?d] => set (data := d)
  end.
  assert (Hdata : forall r, _ -> Goal r)
    by (intros r H; apply Go2; right; split; [exact Hok|];
        exists data; eexists;
        split; [reflexivity|]; split; [reflexivity|]; split; [reflexivity|];
        split; [reflexivity|]; split; [reflexivity|]; split; [reflexivity|];
        split; [reflexivity|]; split; [reflexivity|]; split; [reflexivity|];
        exact H).
  clear Go2.
  destruct (saveLaunchedToken S data) as [[]|msg] eqn:Hsave.
  2: { apply Hdata. left. exists msg. split; [reflexivity|].
       unfold failed. f_equal. now rewrite <- !app_assoc. }
  unfold bind at 1, call at 1.
  destruct (updateTweetLaunchStatus S tweetId tokenAddress) as [[]|msg] eqn:Hupd.
  2: { apply Hdata. right. left. split; [reflexivity|]. exists msg.
       split; [exact Hupd|].
       unfold failed. f_equal. now rewrite <- !app_assoc. }
  unfold bind at 1, emit at 1. unfold ret.
  apply Hdata. right. right. split; [reflexivity|]. split; [exact Hupd|].
  f_equal. now rewrite <- !app_assoc.
Qed.


Lemma launches_app a b : launches (a ++ b) = launches a ++ launches b.
Proof.
  induction a as [|e a IH]; [reflexivity|].
  destruct e; cbn; rewrite ?IH; reflexivity.
Qed.

Lemma sells_app a b : sells (a ++ b) = sells a ++ sells b.
Proof.
  induction a as [|e a IH]; [reflexivity|].
  destruct e; cbn; rewrite ?IH; reflexivity.
Qed.

Lemma marked_launched_app a b :
  marked_launched (a ++ b) = marked_launched a ++ marked_launched b.
Proof.
  induction a as [|e a IH]; [reflexivity|].
  destruct e; cbn; rewrite ?IH; reflexivity.
Qed.

Lemma cleanups_app a b : cleanups (a ++ b) = cleanups a ++ cleanups b.
Proof.
  induction a as [|e a IH]; [reflexivity|].
  destruct e; cbn; rewrite ?IH; reflexivity.
Qed.

(** The preparations launch, sell, record and remove nothing. *)
Lemma preparing_only before :
  forallb preparing before = true ->
  launches before = [] /\ sells before = []
  /\ marked_launched before = [] /\ cleanups before = []
  /\ forall data, ~ In (EvSaveLaunchedToken data) before.
Proof.
  induction before as [|e before IH]; intros H.
  - repeat split. intros data [].
  - cbn [forallb] in H. apply andb_prop in H. destruct H as [He Hb].
    destruct (IH Hb) as (I1 & I2 & I3 & I4 & I5).
    destruct e; try discriminate He; cbn; repeat split; try assumption;
      intros data [E|Hin]; try discriminate E; now apply (I5 data).
Qed.

Lemma failed_facts tweetId downloaded msg before :
  let r := failed tweetId downloaded msg before in
  success (fst r) = false
  /\ error (fst r) = Some msg
  /\ solSpent (fst r) = None
  /\ tokenAddress (fst r) = None
  /\ snd r = before ++ [EvMarkFailed tweetId msg]
             ++ match downloaded with
                | [] => []
                | _ :: _ => [EvCleanup downloaded]
                end
  /\ launches (snd r) = launches before
  /\ sells (snd r) = sells before
  /\ marked_launched (snd r) = marked_launched before
  /\ cleanups (snd r) = cleanups before
                        ++ match downloaded with
                           | [] => []
                           | _ :: _ => [downloaded]
                           end.
Proof.
  unfold failed. cbn [fst snd success error solSpent tokenAddress].
  rewrite !launches_app, !sells_app, !marked_launched_app, !cleanups_app.
  destruct downloaded; cbn; rewrite ?app_nil_r; repeat split; reflexivity.
Qed.


Lemma launch_success_address (config : Launch.TokenLaunchConfig)
    (rpc : Rpc) (privateKey : KeyInput) :
  Launch.success (fst (Launch.launchToken rpc config privateKey)) = true ->
  exists address,
    Launch.tokenAddress (fst (Launch.launchToken rpc config privateKey))
    = Some address.
Proof.
  intros H.
  destruct (launchToken_paths rpc config privateKey) as ((_ & Hs & _) & _).
  destruct (Hs H) as (payer & ixs & calls & sig & _ & _ & _ & E).
  rewrite E. eexists. reflexivity.
Qed.

Ltac trace_facts Pb :=
  rewrite ?launches_app, ?sells_app, ?marked_launched_app, ?cleanups_app;
  let T1 := fresh "T" in
  let T2 := fresh "T" in
  let T3 := fresh "T" in
  let T4 := fresh "T" in
  destruct (preparing_only _ Pb) as (T1 & T2 & T3 & T4 & _);
  rewrite ?T1, ?T2, ?T3, ?T4;
  cbn [launches sells marked_launched cleanups app].



Lemma sell_received_nonneg (config : Sell.SellConfig) (rpc : Rpc)
    (privateKey : KeyInput) :
  let sold := Sell.sellToken rpc config privateKey in
  (0 <= (if Sell.success (fst sold)
         then match Sell.solReceived (fst sold) with
              | Some q => q
              | None => 0%Q
              end
         else 0%Q))%Q.
Proof.
  cbv zeta.
  destruct (sellToken_shape rpc config privateKey) as (_ & Hs & _).
  destruct (Sell.success (fst (Sell.sellToken rpc config privateKey)));
    [|apply Qle_refl].
  destruct (Hs eq_refl) as (payer & ixs & calls & sig & received & _ & _ & _ & E & Hr).
  rewrite E. exact Hr.
Qed.



Lemma failures_app a b : failures (a ++ b) = failures a ++ failures b.
Proof.
  induction a as [|e a IH]; [reflexivity|].
  destruct e; cbn; rewrite ?IH; reflexivity.
Qed.

Lemma saved_app a b : saved (a ++ b) = saved a ++ saved b.
Proof.
  induction a as [|e a IH]; [reflexivity|].
  destruct e; cbn; rewrite ?IH; reflexivity.
Qed.

Lemma in_saved data log :
  In (EvSaveLaunchedToken data) log -> In data (saved log).
Proof.
  induction log as [|e log IH]; [intros []|].
  intros [E|Hin]; [subst e; now left|].
  destruct e; cbn; try (now apply IH). right. now apply IH.
Qed.

Lemma preparing_quiet before :
  forallb preparing before = true -> failures before = [] /\ saved before = [].
Proof.
  induction before as [|e before IH]; intros H; [now split|].
  cbn [forallb] in H. apply andb_prop in H. destruct H as [He Hb].
  destruct e; try discriminate He; cbn; now apply IH.
Qed.

Lemma failed_trace tweetId downloaded msg before :
  failures (snd (failed tweetId downloaded msg before))
  = failures before ++ [(tweetId, msg)]
  /\ saved (snd (failed tweetId downloaded msg before)) = saved before.
Proof.
  unfold failed. cbn [snd]. rewrite !failures_app, !saved_app.
  destruct downloaded; cbn; rewrite ?app_nil_r; split; reflexivity.
Qed.

Ltac quiet_facts Pb :=
  rewrite ?failures_app, ?saved_app;
  let T1 := fresh "T" in
  let T2 := fresh "T" in
  destruct (preparing_quiet _ Pb) as (T1 & T2);
  rewrite ?T1, ?T2;
  cbn [failures saved app].



(** X25. Every failure of [launchTokenFromTweet] is reported and cleaned
    up after: a result that is not a success carries the error message,
    no token address and no amount spent, and exactly one call of
    [markLaunchFailed], for this tweet and with that message, was made; a
    success makes none.  Whenever images were downloaded for the request,
    they are removed exactly once, and that is the last call made, on
    success and on every failure alike. *)
Theorem failure_is_recorded_and_images_removed (privateKey tweetId : string) :
  let r := launchTokenFromTweet S privateKey tweetId in
  (success (fst r) = false ->
   exists msg,
     error (fst r) = Some msg
     /\ failures (snd r) = [(tweetId, msg)]
     /\ tokenAddress (fst r) = None
     /\ solSpent (fst r) = None)
  /\ (success (fst r) = true -> failures (snd r) = [])
  /\ (forall tweet,
        getTweetById S tweetId = Ok (Some tweet) ->
        coin_launched tweet = false ->
        downloadAllImages S (getAllImages tweet) <> [] ->
        cleanups (snd r) = [downloadAllImages S (getAllImages tweet)]
        /\ last (snd r) (EvSleep 0)
           = EvCleanup (downloadAllImages S (getAllImages tweet))).
Proof.
  cbv zeta.
  assert (Failed : forall downloaded msg before,
             failures before = [] ->
             cleanups before = [] ->
             (forall tweet,
                getTweetById S tweetId = Ok (Some tweet) ->
                coin_launched tweet = false ->
                downloadAllImages S (getAllImages tweet) <> [] ->
                downloaded = downloadAllImages S (getAllImages tweet)) ->
             let r := failed tweetId downloaded msg before in
             (success (fst r) = false ->
              exists msg,
                error (fst r) = Some msg
                /\ failures (snd r) = [(tweetId, msg)]
                /\ tokenAddress (fst r) = None
                /\ solSpent (fst r) = None)
             /\ (success (fst r) = true -> failures (snd r) = [])
             /\ (forall tweet,
                   getTweetById S tweetId = Ok (Some tweet) ->
                   coin_launched tweet = false ->
                   downloadAllImages S (getAllImages tweet) <> [] ->
                   cleanups (snd r) = [downloadAllImages S (getAllImages tweet)]
                   /\ last (snd r) (EvSleep 0)
                      = EvCleanup (downloadAllImages S (getAllImages tweet)))).
  { intros downloaded msg before Hf Hc Hd. cbv zeta.
    destruct (failed_facts tweetId downloaded msg before)
      as (F1 & F2 & F3 & F4 & F5 & _ & _ & _ & F9).
    destruct (failed_trace tweetId downloaded msg before) as (F10 & _).
    rewrite F1, F2, F3, F4, F9, F10, Hf, Hc. cbn [app].
    split; [intros _; exists msg; now repeat split|].
    split; [discriminate|].
    intros tweet Hg Hl Hne. pose proof (Hd tweet Hg Hl Hne) as E.
    rewrite <- E in Hne |- *. clear E Hd.
    destruct downloaded as [|p ps]; [now destruct Hne|].
    split; [reflexivity|].
    rewrite F5.
    change ([EvMarkFailed tweetId msg] ++ [EvCleanup (p :: ps)])
      with ([EvMarkFailed tweetId msg; EvCleanup (p :: ps)]).
    change [EvMarkFailed tweetId msg; EvCleanup (p :: ps)]
      with ([EvMarkFailed tweetId msg] ++ [EvCleanup (p :: ps)]).
    rewrite !app_assoc. apply last_last. }
  destruct (launchTokenFromTweet_cases privateKey tweetId)
    as [(msg & downloaded & before & -> & Pb & Hdown)
       |(tweet & paths & suggestion & imageHash & metadataHash & config
         & before & Hchecked & Pb & Hcases)].
  { destruct (preparing_only _ Pb) as (_ & _ & _ & Hc & _).
    destruct (preparing_quiet _ Pb) as (Hf & _).
    apply Failed; [exact Hf | exact Hc |].
    intros tweet Hg Hl Hne.
    destruct Hdown as [(-> & Hnone) | (tweet' & Hg' & _ & ->)].
    - now destruct (Hne (Hnone tweet Hg Hl)).
    - congruence. }
  assert (Hsame : forall tweet0,
             getTweetById S tweetId = Ok (Some tweet0) ->
             coin_launched tweet0 = false ->
             downloadAllImages S (getAllImages tweet0) <> [] ->
             paths = downloadAllImages S (getAllImages tweet0)).
  { intros tweet0 Hg _ _. destruct Hchecked as (Hg' & _ & Hp & _).
    congruence. }
  cbv zeta in Hcases.
  destruct Hcases as [(Hfail & msg & ->) | (Hok & data & sig & Hrest)].
  { apply Failed; [now quiet_facts Pb | now trace_facts Pb | exact Hsame]. }
  destruct Hrest as (_ & _ & _ & _ & _ & _ & _ & _ & _ & Hend).
  destruct Hend as [(msg & _ & ->) | [(_ & msg & _ & ->) | (_ & _ & ->)]].
  - apply Failed; [now quiet_facts Pb | now trace_facts Pb | exact Hsame].
  - apply Failed; [now quiet_facts Pb | now trace_facts Pb | exact Hsame].
  - cbn [fst snd success]. split; [discriminate|].
    split; [intros _; now quiet_facts Pb|].
    intros tweet0 Hg Hl Hne. rewrite <- (Hsame tweet0 Hg Hl Hne).
    split; [now trace_facts Pb|].
    match goal with
    | |- last (?a ++ [?x; ?y]) _ = _ =>
        change [x; y] with ([x] ++ [y]); rewrite app_assoc; apply last_last
    end.
Qed.


Lemma saved_in data log :
  In data (saved log) -> In (EvSaveLaunchedToken data) log.
Proof.
  induction log as [|e log IH]; [intros []|].
  destruct e; cbn [saved]; try (intros H; right; now apply IH).
  intros [E|H]; [left; now subst | right; now apply IH].
Qed.

End PipelineFacts.


